(** * Pulse-sequence sampling engine of qudi's [SequenceGeneratorLogic]

    A shallow embedding of [logic/sequence_generator_logic.py]: the bin/length
    analysis pass, the ensemble sampler in its chunked and monolithic modes,
    the sequence sampler, the [load_*] operations and
    [generate_predefined_sequence]; then [set_settings], [get_saved_asset]
    and the [save_*] and [delete_*] operations on the asset stores.

    Modelling conventions.
    - Python exceptions are values of [exn]; a method is a function in the
      state-and-exception monad [M]: the state reached when an exception is
      raised is kept, as it is for a Python object.
    - float64 and float32 arithmetic is abstract (Section variables): the
      theorems hold for every interpretation of the floating point
      operations, in particular for IEEE-754.
    - A Python [int] is an integer of [Z]. The cells of a numpy array of
      [dtype=int] hold the integers from [- int_bound] to [int_bound - 1],
      where [int_bound] is [2^63], or [2^31] on a platform whose C long has
      32 bits: storing a Python [int] outside that range raises
      [OverflowError], and [np.sum] over such an array wraps around.
    - [int(np.rint(x))] raises for an infinite [x] and for a NaN.
    - [np.empty] yields uninitialised cells, modelled as [None].
    - Log records and Qt signals are appended to an event list carried by
      the state; calls of the externally supplied file writers are appended
      to [writer_calls]. *)

From Stdlib Require Import ZArith Lia Ascii String.
From stdpp Require Import base option list gmap strings fin_maps pretty.

Local Open Scope Z_scope.

(** ** Exceptions and the two monads *)

Inductive exn : Type :=
  | KeyError
  | IndexError
  | ValueError
  | UnboundLocalError
  | OverflowError.

Inductive result (A : Type) : Type :=
  | Ok (a : A)
  | Raise (e : exn).
Arguments Ok {A} a.
Arguments Raise {A} e.

#[global] Instance result_ret : MRet result := λ A a, Ok a.
#[global] Instance result_bind : MBind result := λ A B f r,
  match r with
  | Ok a => f a
  | Raise e => Raise e
  end.

Definition is_ok {A} (r : result A) : bool :=
  match r with Ok _ => true | Raise _ => false end.

(** [d[k]] on a dict and [l[i]] on a list. *)
Definition getitem {K A} `{Countable K} (d : gmap K A) (k : K) : result A :=
  match d !! k with
  | Some a => Ok a
  | None => Raise KeyError
  end.

Definition getindex {A} (l : list A) (i : nat) : result A :=
  match l !! i with
  | Some a => Ok a
  | None => Raise IndexError
  end.

(** A lookup in a table supplied from outside the module. *)
Definition gettable {A} (o : option A) : result A :=
  match o with
  | Some a => Ok a
  | None => Raise KeyError
  end.

(** A [for x in xs:] loop that threads the loop-carried variables [a]. *)
Fixpoint for_each {Mo : Type → Type} `{!MBind Mo, !MRet Mo} {X A : Type}
    (xs : list X) (body : X → A → Mo A) (a : A) : Mo A :=
  match xs with
  | [] => mret a
  | x :: xs' => a' ← body x a; for_each xs' body a'
  end.

Fixpoint enumerate_from {A} (i : nat) (l : list A) : list (nat * A) :=
  match l with
  | [] => []
  | x :: l' => (i, x) :: enumerate_from (S i) l'
  end.

(** Python's [enumerate(l)]. *)
Definition enumerate {A} (l : list A) : list (nat * A) := enumerate_from 0 l.

(** Python's [range(n)]. *)
Definition range (n : nat) : list nat := seq 0 n.

(** Python's [p in s] on strings and [s.startswith(p)]. *)
Definition startswith (s p : string) : bool := String.prefix p s.

Fixpoint str_contains (p s : string) : bool :=
  String.prefix p s ||
  match s with
  | EmptyString => false
  | String _ s' => str_contains p s'
  end.

(** [s.zfill(w)] for a string of digits. *)
Definition zfill (w : nat) (s : string) : string :=
  Nat.iter (w - String.length s) (String "0"%char) s.

(** ** numpy arrays of two dimensions

    [ncols] is the second component of the shape, kept apart from [rows] so
    that an array without rows still has a width. *)

Record ndarray (A : Type) : Type := mk_ndarray {
  ncols : nat;
  rows : list (list (option A))
}.
Arguments mk_ndarray {A} ncols rows.
Arguments ncols {A} n.
Arguments rows {A} n.

(** What a sampling call returns for a sample array: the Python list [[]]
    or an array. *)
Inductive samples (A : Type) : Type :=
  | py_empty_list
  | nd (a : ndarray A).
Arguments py_empty_list {A}.
Arguments nd {A} a.

(** [np.empty([c, n])]: negative dimensions are refused. *)
Definition np_empty {A} (c : nat) (n : Z) : result (ndarray A) :=
  if n <? 0 then Raise ValueError
  else Ok (mk_ndarray (Z.to_nat n) (replicate c (replicate (Z.to_nat n) None))).

(** [np.full(n, x)]. *)
Definition np_full {A} (n : Z) (x : A) : result (list A) :=
  if n <? 0 then Raise ValueError else Ok (replicate (Z.to_nat n) x).

(** Assigning an array of shape [(length rhs,)] to a target of shape [(m,)]:
    equal shapes are copied, a single value is broadcast, anything else is
    refused. *)
Definition broadcast_to {A} (m : nat) (rhs : list A) : result (list A) :=
  if decide (length rhs = m) then Ok rhs
  else match rhs with
       | [x] => Ok (replicate m x)
       | _ => Raise ValueError
       end.

(** [a[i] = rhs]. *)
Definition setitem_row {A} (a : ndarray A) (i : nat) (rhs : list A)
    : result (ndarray A) :=
  match rows a !! i with
  | None => Raise IndexError
  | Some _ =>
      v ← broadcast_to (ncols a) rhs;
      Ok (mk_ndarray (ncols a) (<[i := fmap (M:=list) Some v]> (rows a)))
  end.

(** A slice bound of Python, brought into [0 .. len]. *)
Definition slice_bound (len : nat) (b : Z) : nat :=
  if b <? 0 then Z.to_nat (Z.max 0 (b + Z.of_nat len))
  else Z.to_nat (Z.min b (Z.of_nat len)).

(** [a[i, lo:hi] = rhs]. *)
Definition setitem_slice {A} (a : ndarray A) (i : nat) (lo hi : Z)
    (rhs : list A) : result (ndarray A) :=
  match rows a !! i with
  | None => Raise IndexError
  | Some row =>
      let lo' := slice_bound (ncols a) lo in
      let hi' := slice_bound (ncols a) hi in
      let m := (hi' - lo')%nat in
      v ← broadcast_to m rhs;
      Ok (mk_ndarray (ncols a)
            (<[i := take lo' row ++ fmap (M:=list) Some v ++ drop (lo' + m) row]>
               (rows a)))
  end.

(** The sum of Python [int]s, as [offset_bin += element_length_bins]
    accumulates it: no bound applies. *)
Definition sum_bins (l : list Z) : Z := foldr Z.add 0 l.

(** ** Data model *)

Inductive module_state_t : Type := idle | locked.

#[global] Instance module_state_eq_dec : EqDecision module_state_t.
Proof. solve_decision. Defined.

(** Log records and emitted signals, in the order they are produced. *)
Inductive event : Type :=
  | log_error_channel_mismatch (ensemble_name : string)
      (logic_analog logic_digital ensemble_analog ensemble_digital : nat)
  | log_error_busy (sequence_name : string)
  | log_error_generation_failed (predefined_sequence_name : string)
  | log_error_load_failed (name : string)
  | log_info_old_files_deleted (ensemble_name : string) (files : list string)
  | log_warning_old_sequence_deleted (sequence_name : string) (files : list string)
  | log_info_time_needed
  | sigSampleEnsembleComplete (ensemble_name : string)
  | sigSampleSequenceComplete (sequence_name : string)
  | sigSequenceDictUpdated
  | sigCurrentSequenceUpdated
  | sigCurrentEnsembleUpdated
  | sigSettingsUpdated
  | sigPredefinedSequenceGenerated (predefined_sequence_name : string).

#[global] Instance event_eq_dec : EqDecision event.
Proof. solve_decision. Defined.

(** The parts of the program that are kept abstract: float64 values, float32
    samples, the parameter bundle of a sampling function, the values of a
    step-parameter dict and the arguments of a predefined generator method;
    float64 addition, multiplication and division, the conversion of a
    Python int, [int(np.rint(x))], which raises [OverflowError] for an
    infinity and [ValueError] for a NaN, and [np.float32(x)]; the bound
    [int_bound] of numpy's [dtype=int] on the platform; and the tables of
    [SamplingFunctions] and [SamplesWriteMethods], which are not part of the
    sources at hand: the sampling functions by name, the waveform writers
    and the sequence writers by format key. A waveform writer returns the
    list of the files it created. *)
Class Externals : Type := {
  float64 : Type;
  float32 : Type;
  param : Type;
  seq_value : Type;
  gen_arg : Type;
  fadd : float64 → float64 → float64;
  fmul : float64 → float64 → float64;
  fdiv : float64 → float64 → float64;
  of_int : Z → float64;
  rint_int : float64 → result Z;
  int_bound : Z;
  to_float32 : float64 → float32;
  _math_func : string → option (list float64 → param → list float64);
  _write_to_file : string →
    option (string → ndarray float32 → ndarray bool → Z → bool → bool → list string);
  _write_to_file_sequence : string → option ()
}.

Section Generator.

Context `{Externals}.

(** Modelled from the spec: the classes of [logic/pulse_objects.py], which
    is not part of the sources at hand. A BlockElement is an atomic timed
    segment with one digital level per digital channel and one function
    identifier and parameter bundle per analog channel; a Block is a named
    ordered sequence of elements; an Ensemble is a named ordered list of
    (block, repetition count) pairs, the count [r ≥ 0] meaning [r + 1]
    plays, with its metadata; a Sequence is a named ordered list of
    (ensemble, step parameters) pairs with the derived dict of the distinct
    ensembles it references and the cache [sampled_ensembles]. Metadata
    that may be [None] is an [option]. *)
Record PulseBlockElement : Type := mk_element {
  init_length_s : float64;
  increment_s : float64;
  digital_high : list bool;
  pulse_function : list string;
  parameters : list param
}.

Record PulseBlock : Type := mk_block {
  block_name : string;
  element_list : list PulseBlockElement
}.

Record PulseBlockEnsemble : Type := mk_ensemble {
  ens_name : string;
  block_list : list (PulseBlock * nat);
  ens_analog_channels : nat;
  ens_digital_channels : nat;
  ens_sample_rate : option float64;
  ens_amplitude_dict : option (gmap string float64);
  ens_activation_config : option (list string);
  ens_laser_channel : option string;
  ens_rotating_frame : bool
}.

Record PulseSequence : Type := mk_sequence {
  seq_name : string;
  ensemble_param_list : list (PulseBlockEnsemble * gmap string seq_value);
  different_ensembles_dict : gmap string PulseBlockEnsemble;
  seq_rotating_frame : bool;
  sampled_ensembles : gmap string (list string);
  seq_sample_rate : option float64;
  seq_amplitude_dict : option (gmap string float64);
  seq_activation_config : option (list string);
  seq_laser_channel : option string
}.

(** The values of a step descriptor: the file list under ['name'] and the
    step parameters copied from the sequence. *)
Inductive dict_value : Type :=
  | created_files_value (files : list string)
  | step_param_value (v : seq_value).

(** A call of a file writer, with its arguments. *)
Inductive writer_call : Type :=
  | write_waveform (format name : string)
      (analog_samples : ndarray float32) (digital_samples : ndarray bool)
      (total_number_of_samples : Z) (is_first_chunk is_last_chunk : bool)
  | write_sequence (format name : string)
      (sequence_param_dict_list : list (gmap string dict_value)).

(** The attributes of a [SequenceGeneratorLogic] instance that the
    operations below read or write. [waveform_dir] and [sequence_dir] hold
    the names of the files present in the two directories; [events],
    [writer_calls] and [sampling_calls] record what the instance did:
    [sampling_calls] lists the invocations of
    [sample_pulse_block_ensemble] as (ensemble_name, offset_bin,
    name_tag). *)
Record SequenceGeneratorLogic : Type := mk_logic {
  module_state : module_state_t;
  current_ensemble : option PulseBlockEnsemble;
  current_sequence : option PulseSequence;
  saved_pulse_block_ensembles : gmap string PulseBlockEnsemble;
  saved_pulse_sequences : gmap string PulseSequence;
  analog_channels : nat;
  digital_channels : nat;
  activation_config : list string;
  laser_channel : option string;
  amplitude_dict : gmap string float64;
  sample_rate : float64;
  waveform_format : string;
  sequence_format : string;
  waveform_dir : list string;
  sequence_dir : list string;
  events : list event;
  writer_calls : list writer_call;
  sampling_calls : list (string * Z * string)
}.

(** Attribute assignment, [self.<attribute> = v]. *)
Definition set_module_state (v : module_state_t) (g : SequenceGeneratorLogic)
    : SequenceGeneratorLogic :=
  mk_logic v (current_ensemble g) (current_sequence g)
    (saved_pulse_block_ensembles g) (saved_pulse_sequences g)
    (analog_channels g) (digital_channels g) (activation_config g)
    (laser_channel g) (amplitude_dict g) (sample_rate g) (waveform_format g)
    (sequence_format g) (waveform_dir g) (sequence_dir g) (events g)
    (writer_calls g) (sampling_calls g).

Definition set_current_ensemble (v : option PulseBlockEnsemble) (g : SequenceGeneratorLogic)
    : SequenceGeneratorLogic :=
  mk_logic (module_state g) v (current_sequence g)
    (saved_pulse_block_ensembles g) (saved_pulse_sequences g)
    (analog_channels g) (digital_channels g) (activation_config g)
    (laser_channel g) (amplitude_dict g) (sample_rate g) (waveform_format g)
    (sequence_format g) (waveform_dir g) (sequence_dir g) (events g)
    (writer_calls g) (sampling_calls g).

Definition set_current_sequence (v : option PulseSequence) (g : SequenceGeneratorLogic)
    : SequenceGeneratorLogic :=
  mk_logic (module_state g) (current_ensemble g) v
    (saved_pulse_block_ensembles g) (saved_pulse_sequences g)
    (analog_channels g) (digital_channels g) (activation_config g)
    (laser_channel g) (amplitude_dict g) (sample_rate g) (waveform_format g)
    (sequence_format g) (waveform_dir g) (sequence_dir g) (events g)
    (writer_calls g) (sampling_calls g).

Definition set_saved_pulse_sequences (v : gmap string PulseSequence) (g : SequenceGeneratorLogic)
    : SequenceGeneratorLogic :=
  mk_logic (module_state g) (current_ensemble g) (current_sequence g)
    (saved_pulse_block_ensembles g) v (analog_channels g) (digital_channels g)
    (activation_config g) (laser_channel g) (amplitude_dict g) (sample_rate g)
    (waveform_format g) (sequence_format g) (waveform_dir g) (sequence_dir g)
    (events g) (writer_calls g) (sampling_calls g).

Definition set_activation_config (v : list string) (g : SequenceGeneratorLogic)
    : SequenceGeneratorLogic :=
  mk_logic (module_state g) (current_ensemble g) (current_sequence g)
    (saved_pulse_block_ensembles g) (saved_pulse_sequences g)
    (analog_channels g) (digital_channels g) v (laser_channel g)
    (amplitude_dict g) (sample_rate g) (waveform_format g) (sequence_format g)
    (waveform_dir g) (sequence_dir g) (events g) (writer_calls g)
    (sampling_calls g).

Definition set_laser_channel (v : option string) (g : SequenceGeneratorLogic)
    : SequenceGeneratorLogic :=
  mk_logic (module_state g) (current_ensemble g) (current_sequence g)
    (saved_pulse_block_ensembles g) (saved_pulse_sequences g)
    (analog_channels g) (digital_channels g) (activation_config g) v
    (amplitude_dict g) (sample_rate g) (waveform_format g) (sequence_format g)
    (waveform_dir g) (sequence_dir g) (events g) (writer_calls g)
    (sampling_calls g).

Definition set_amplitude_dict (v : gmap string float64) (g : SequenceGeneratorLogic)
    : SequenceGeneratorLogic :=
  mk_logic (module_state g) (current_ensemble g) (current_sequence g)
    (saved_pulse_block_ensembles g) (saved_pulse_sequences g)
    (analog_channels g) (digital_channels g) (activation_config g)
    (laser_channel g) v (sample_rate g) (waveform_format g)
    (sequence_format g) (waveform_dir g) (sequence_dir g) (events g)
    (writer_calls g) (sampling_calls g).

Definition set_sample_rate (v : float64) (g : SequenceGeneratorLogic)
    : SequenceGeneratorLogic :=
  mk_logic (module_state g) (current_ensemble g) (current_sequence g)
    (saved_pulse_block_ensembles g) (saved_pulse_sequences g)
    (analog_channels g) (digital_channels g) (activation_config g)
    (laser_channel g) (amplitude_dict g) v (waveform_format g)
    (sequence_format g) (waveform_dir g) (sequence_dir g) (events g)
    (writer_calls g) (sampling_calls g).

Definition set_waveform_dir (v : list string) (g : SequenceGeneratorLogic)
    : SequenceGeneratorLogic :=
  mk_logic (module_state g) (current_ensemble g) (current_sequence g)
    (saved_pulse_block_ensembles g) (saved_pulse_sequences g)
    (analog_channels g) (digital_channels g) (activation_config g)
    (laser_channel g) (amplitude_dict g) (sample_rate g) (waveform_format g)
    (sequence_format g) v (sequence_dir g) (events g) (writer_calls g)
    (sampling_calls g).

Definition set_sequence_dir (v : list string) (g : SequenceGeneratorLogic)
    : SequenceGeneratorLogic :=
  mk_logic (module_state g) (current_ensemble g) (current_sequence g)
    (saved_pulse_block_ensembles g) (saved_pulse_sequences g)
    (analog_channels g) (digital_channels g) (activation_config g)
    (laser_channel g) (amplitude_dict g) (sample_rate g) (waveform_format g)
    (sequence_format g) (waveform_dir g) v (events g) (writer_calls g)
    (sampling_calls g).

Definition set_events (v : list event) (g : SequenceGeneratorLogic)
    : SequenceGeneratorLogic :=
  mk_logic (module_state g) (current_ensemble g) (current_sequence g)
    (saved_pulse_block_ensembles g) (saved_pulse_sequences g)
    (analog_channels g) (digital_channels g) (activation_config g)
    (laser_channel g) (amplitude_dict g) (sample_rate g) (waveform_format g)
    (sequence_format g) (waveform_dir g) (sequence_dir g) v (writer_calls g)
    (sampling_calls g).

Definition set_writer_calls (v : list writer_call) (g : SequenceGeneratorLogic)
    : SequenceGeneratorLogic :=
  mk_logic (module_state g) (current_ensemble g) (current_sequence g)
    (saved_pulse_block_ensembles g) (saved_pulse_sequences g)
    (analog_channels g) (digital_channels g) (activation_config g)
    (laser_channel g) (amplitude_dict g) (sample_rate g) (waveform_format g)
    (sequence_format g) (waveform_dir g) (sequence_dir g) (events g) v
    (sampling_calls g).

Definition set_sampling_calls (v : list (string * Z * string)) (g : SequenceGeneratorLogic)
    : SequenceGeneratorLogic :=
  mk_logic (module_state g) (current_ensemble g) (current_sequence g)
    (saved_pulse_block_ensembles g) (saved_pulse_sequences g)
    (analog_channels g) (digital_channels g) (activation_config g)
    (laser_channel g) (amplitude_dict g) (sample_rate g) (waveform_format g)
    (sequence_format g) (waveform_dir g) (sequence_dir g) (events g)
    (writer_calls g) v.

(** ** Methods: state and exceptions *)

Definition M (A : Type) : Type :=
  SequenceGeneratorLogic → result A * SequenceGeneratorLogic.

#[global] Instance M_ret : MRet M := λ A a g, (Ok a, g).
#[global] Instance M_bind : MBind M := λ A B f m g,
  match m g with
  | (Ok a, g') => f a g'
  | (Raise e, g') => (Raise e, g')
  end.

Definition get : M SequenceGeneratorLogic := λ g, (Ok g, g).
Definition modify (f : SequenceGeneratorLogic → SequenceGeneratorLogic) : M () :=
  λ g, (Ok (), f g).
Definition lift {A} (r : result A) : M A := λ g, (r, g).
Definition raise {A} (e : exn) : M A := λ g, (Raise e, g).

(** [try: body except: handler], the bare [except] catching everything. *)
Definition try_except {A} (body handler : M A) : M A := λ g,
  match body g with
  | (Ok a, g') => (Ok a, g')
  | (Raise _, g') => handler g'
  end.

Definition emit (e : event) : M () := modify (λ g, set_events (events g ++ [e]) g).

(** Modelled from the spec: the idle/busy state of the module base class
    ([getState], [lock], [unlock]), which is not part of the sources at
    hand: a generator instance exposes a single idle/busy state. *)
Definition getState : M module_state_t := λ g, (Ok (module_state g), g).
Definition lock : M () := modify (set_module_state locked).
Definition unlock : M () := modify (set_module_state idle).

(** ** Integer arrays *)

(** [arr[i] = v] on a one-dimensional array of [dtype=int], for a Python
    [int] [v]. *)
Definition setitem_int (arr : list Z) (i : nat) (v : Z) : result (list Z) :=
  if decide (i < length arr)%nat then
    if decide (- int_bound ≤ v < int_bound) then Ok (<[i := v]> arr)
    else Raise OverflowError
  else Raise IndexError.

(** An integer brought into the range of [dtype=int] by wrapping around. *)
Definition int_wrap (v : Z) : Z :=
  (v + int_bound) `mod` (2 * int_bound) - int_bound.

(** [np.sum] over an array of [dtype=int]. *)
Definition np_sum (l : list Z) : Z := int_wrap (sum_bins l).

(** ** Bin/length analysis *)

(** [int(np.rint((init_length_s + rep_no * increment_s) * sample_rate))]. *)
Definition element_length (rate : float64) (rep_no : nat)
    (block_element : PulseBlockElement) : result Z :=
  let element_length_s :=
    fadd (init_length_s block_element)
         (fmul (of_int (Z.of_nat rep_no)) (increment_s block_element)) in
  rint_int (fmul element_length_s rate).

(** The value of [element_length] where it returns. The methods below raise
    where it raises, and the properties use the value along runs that have
    returned. *)
Definition element_length_bins (rate : float64) (rep_no : nat)
    (block_element : PulseBlockElement) : Z :=
  match element_length rate rep_no block_element with
  | Ok n => n
  | Raise _ => 0
  end.

Definition _analyze_block_ensemble (g : SequenceGeneratorLogic)
    (ensemble : PulseBlockEnsemble) : result (Z * nat * nat * list Z) :=
  '(state_length_bins_arr, number_of_elements) ←
    for_each (block_list ensemble)
      (λ '(block, reps) '(state_length_bins_arr, number_of_elements),
        let number_of_elements :=
          (number_of_elements + (reps + 1) * length (element_list block))%nat in
        let num_state_changes := ((reps + 1) * length (element_list block))%nat in
        let tmp_length_bins := replicate num_state_changes 0 in
        '(tmp_length_bins, _) ←
          for_each (range (reps + 1))
            (λ rep_no acc,
              for_each (enumerate (element_list block))
                (λ '(elem_index, block_element) '(tmp_length_bins, state_index),
                  element_length_bins ←
                    element_length (sample_rate g) rep_no block_element;
                  tmp_length_bins ← setitem_int tmp_length_bins state_index
                                      element_length_bins;
                  mret (tmp_length_bins, S state_index))
                acc)
            (tmp_length_bins, 0%nat);
        mret (state_length_bins_arr ++ tmp_length_bins, number_of_elements))
      ([], 0%nat);
  let number_of_samples := np_sum state_length_bins_arr in
  let number_of_states := length state_length_bins_arr in
  mret (number_of_samples, number_of_elements, number_of_states,
        state_length_bins_arr).

(** ** Ensemble sampler *)

(** [(offset_bin + np.arange(element_length_bins, dtype='float64')) /
    self.sample_rate]. *)
Definition time_arr (rate : float64) (offset_bin element_length_bins : Z)
    : list float64 :=
  fmap (M:=list)
    (λ i : nat, fdiv (fadd (of_int offset_bin) (of_int (Z.of_nat i))) rate)
    (seq 0 (Z.to_nat element_length_bins)).

(** [np.float32(self._math_func[func_name](time_arr, parameters[i]) /
    self.amplitude_dict[ana_chnl_names[i]])]. *)
Definition analog_value (g : SequenceGeneratorLogic) (ana_chnl_names : list string)
    (t : list float64) (parameters : list param) (i : nat) (func_name : string)
    : result (list float32) :=
  f ← gettable (_math_func func_name);
  p ← getindex parameters i;
  let y : list float64 := f t p in
  ch ← getindex ana_chnl_names i;
  amp ← getitem (amplitude_dict g) ch;
  mret (fmap (M:=list) (λ v, to_float32 (fdiv v amp)) y).

(** The two loops that fill the sample arrays of one element. They are
    written once here and twice in the source, where the chunked branch
    assigns whole rows of a temporary array and the monolithic branch
    assigns slices of the large one: [assign] is that assignment. *)
Definition fill_digital (assign : ndarray bool → nat → list bool → result (ndarray bool))
    (element_length_bins : Z) (digital_high : list bool)
    (digital_samples : ndarray bool) : result (ndarray bool) :=
  for_each (enumerate digital_high)
    (λ '(i, state) digital_samples,
      rhs ← np_full element_length_bins state;
      assign digital_samples i rhs)
    digital_samples.

Definition fill_analog (assign : ndarray float32 → nat → list float32 → result (ndarray float32))
    (g : SequenceGeneratorLogic) (ana_chnl_names : list string)
    (t : list float64) (block_element : PulseBlockElement)
    (analog_samples : ndarray float32) : result (ndarray float32) :=
  for_each (enumerate (pulse_function block_element))
    (λ '(i, func_name) analog_samples,
      rhs ← analog_value g ana_chnl_names t (parameters block_element) i func_name;
      assign analog_samples i rhs)
    analog_samples.

(** The temporary sample arrays that the chunked branch allocates for an
    element of [element_length_bins] bins and fills from the time array
    [t]. *)
Definition chunk_arrays (g : SequenceGeneratorLogic) (ensemble : PulseBlockEnsemble)
    (ana_chnl_names : list string) (t : list float64) (element_length_bins : Z)
    (block_element : PulseBlockElement)
    : result (ndarray float32 * ndarray bool) :=
  analog_samples ← np_empty (ens_analog_channels ensemble) element_length_bins;
  digital_samples ← np_empty (ens_digital_channels ensemble) element_length_bins;
  digital_samples ← fill_digital setitem_row element_length_bins
                      (digital_high block_element) digital_samples;
  analog_samples ← fill_analog setitem_row g ana_chnl_names t block_element
                     analog_samples;
  mret (analog_samples, digital_samples).

(** The sample arrays of one element on their own: its length, its time
    array from [offset_bin] and the arrays of the chunked branch. *)
Definition element_chunk (g : SequenceGeneratorLogic) (ensemble : PulseBlockEnsemble)
    (ana_chnl_names : list string) (offset_bin : Z) (rep_no : nat)
    (block_element : PulseBlockElement)
    : result (ndarray float32 * ndarray bool) :=
  element_length_bins ← element_length (sample_rate g) rep_no block_element;
  chunk_arrays g ensemble ana_chnl_names
    (time_arr (sample_rate g) offset_bin element_length_bins)
    element_length_bins block_element.

(** The local variables of [sample_pulse_block_ensemble] that the element
    loop carries. The flags and the counter exist in the chunked branch, the
    large arrays and their cursor in the other; [created_files] is unbound
    ([None]) until a writer call has been made. *)
Inductive mode_locals : Type :=
  | chunk_locals (is_first_chunk is_last_chunk : bool) (element_count : nat)
  | mono_locals (analog_samples : ndarray float32) (digital_samples : ndarray bool)
      (entry_ind : Z).

Record frame : Type := mk_frame {
  offset_bin : Z;
  created_files : option (list string);
  mode : mode_locals
}.

(** Reading a local variable that may be unbound. *)
Definition read_local {A} (v : option A) : result A :=
  match v with
  | Some a => Ok a
  | None => Raise UnboundLocalError
  end.

(** [self._write_to_file[self.waveform_format](name, analog_samples,
    digital_samples, number_of_samples, is_first_chunk, is_last_chunk)]. *)
Definition call_waveform_writer (name : string) (analog_samples : ndarray float32)
    (digital_samples : ndarray bool) (number_of_samples : Z)
    (is_first_chunk is_last_chunk : bool) : M (list string) :=
  g ← get;
  writer ← lift (gettable (_write_to_file (waveform_format g)));
  modify (λ g, set_writer_calls
    (writer_calls g ++ [write_waveform (waveform_format g) name analog_samples
                          digital_samples number_of_samples
                          is_first_chunk is_last_chunk]) g);;
  mret (writer name analog_samples digital_samples number_of_samples
          is_first_chunk is_last_chunk).

(** The body of the innermost loop, for one element of one repetition. *)
Definition sample_element (ensemble : PulseBlockEnsemble)
    (ana_chnl_names : list string) (number_of_samples : Z)
    (number_of_elements : nat) (write_to_file chunkwise : bool)
    (name_tag : string) (rep_no : nat) (block_element : PulseBlockElement)
    (fr : frame) : M frame :=
  g ← get;
  element_length_bins ← lift (element_length (sample_rate g) rep_no block_element);
  let t := time_arr (sample_rate g) (offset_bin fr) element_length_bins in
  fr ← (if chunkwise && write_to_file then
          match mode fr with
          | chunk_locals is_first_chunk is_last_chunk element_count =>
              let element_count := S element_count in
              let is_last_chunk :=
                if decide (element_count = number_of_elements) then true
                else is_last_chunk in
              '(analog_samples, digital_samples) ←
                lift (chunk_arrays g ensemble ana_chnl_names t
                        element_length_bins block_element);
              files ← call_waveform_writer (ens_name ensemble +:+ name_tag)
                        analog_samples digital_samples number_of_samples
                        is_first_chunk is_last_chunk;
              mret (mk_frame (offset_bin fr) (Some files)
                      (chunk_locals false is_last_chunk element_count))
          | mono_locals _ _ _ => raise UnboundLocalError
          end
        else
          match mode fr with
          | mono_locals analog_samples digital_samples entry_ind =>
              let assign {A} (a : ndarray A) (i : nat) (rhs : list A) :=
                setitem_slice a i entry_ind (entry_ind + element_length_bins) rhs in
              digital_samples ← lift (fill_digital assign element_length_bins
                                        (digital_high block_element) digital_samples);
              analog_samples ← lift (fill_analog assign g ana_chnl_names t
                                       block_element analog_samples);
              mret (mk_frame (offset_bin fr) (created_files fr)
                      (mono_locals analog_samples digital_samples
                         (entry_ind + element_length_bins)))
          | chunk_locals _ _ _ => raise UnboundLocalError
          end);
  if ens_rotating_frame ensemble
  then mret (mk_frame (offset_bin fr + element_length_bins) (created_files fr) (mode fr))
  else mret fr.

(** Unlocking and announcing completion, unless a sequence is being
    sampled. *)
Definition finish_ensemble (sequence_sampling_in_progress : bool)
    (ensemble_name : string) : M () :=
  if sequence_sampling_in_progress then mret ()
  else unlock;; emit (sigSampleEnsembleComplete ensemble_name).

(** The flags and the counter of the chunked branch, or the large arrays
    allocated up front with their cursor. *)
Definition initial_locals (ensemble : PulseBlockEnsemble) (number_of_samples : Z)
    (write_to_file chunkwise : bool) : result mode_locals :=
  if chunkwise && write_to_file then mret (chunk_locals true false 0)
  else
    analog_samples ← np_empty (ens_analog_channels ensemble) number_of_samples;
    digital_samples ← np_empty (ens_digital_channels ensemble) number_of_samples;
    mret (mono_locals analog_samples digital_samples 0).

(** The loops over the blocks, the repetitions and the elements. *)
Definition element_loop (ensemble : PulseBlockEnsemble)
    (ana_chnl_names : list string) (number_of_samples : Z)
    (number_of_elements : nat) (write_to_file chunkwise : bool)
    (name_tag : string) (fr : frame) : M frame :=
  for_each (block_list ensemble)
    (λ '(block, reps) fr,
      for_each (range (reps + 1))
        (λ rep_no fr,
          for_each (enumerate (element_list block))
            (λ '(elem_ind, block_element) fr,
              sample_element ensemble ana_chnl_names number_of_samples
                number_of_elements write_to_file chunkwise name_tag
                rep_no block_element fr)
            fr)
        fr)
    fr.

(** The three ways out of [sample_pulse_block_ensemble] after the loops. *)
Definition sample_return (ensemble_name : string) (ensemble : PulseBlockEnsemble)
    (number_of_samples : Z) (write_to_file chunkwise : bool) (name_tag : string)
    (sequence_sampling_in_progress : bool) (fr : frame)
    : M (samples float32 * samples bool * list string * Z) :=
  let '(mk_frame offset_bin created_files locals) := fr in
  if negb write_to_file then
    emit log_info_time_needed;;
    finish_ensemble sequence_sampling_in_progress ensemble_name;;
    match locals with
    | mono_locals analog_samples digital_samples _ =>
        files ← lift (read_local created_files);
        mret (nd analog_samples, nd digital_samples, files, offset_bin)
    | chunk_locals _ _ _ => raise UnboundLocalError
    end
  else if chunkwise then
    emit log_info_time_needed;;
    finish_ensemble sequence_sampling_in_progress ensemble_name;;
    files ← lift (read_local created_files);
    mret (py_empty_list, py_empty_list, files, offset_bin)
  else
    match locals with
    | mono_locals analog_samples digital_samples _ =>
        files ← call_waveform_writer (ens_name ensemble +:+ name_tag)
                  analog_samples digital_samples number_of_samples true true;
        emit log_info_time_needed;;
        finish_ensemble sequence_sampling_in_progress ensemble_name;;
        mret (py_empty_list, py_empty_list, files, offset_bin)
    | chunk_locals _ _ _ => raise UnboundLocalError
    end.

(** [sample_pulse_block_ensemble], with its allocation, its loops and its
    return statements in the three definitions above. The first step
    records the call in [sampling_calls]. *)
Definition sample_pulse_block_ensemble (ensemble_name : string)
    (write_to_file chunkwise : bool) (offset_bin : Z) (name_tag : string)
    : M (samples float32 * samples bool * list string * Z) :=
  modify (λ g, set_sampling_calls
    (sampling_calls g ++ [(ensemble_name, offset_bin, name_tag)]) g);;
  st ← getState;
  sequence_sampling_in_progress ←
    (if decide (st = idle) then lock;; mret false else mret true);
  (if write_to_file then
     g ← get;
     let old f := startswith f (ensemble_name +:+ "_ch") in
     let filename_list := List.filter old (waveform_dir g) in
     modify (set_waveform_dir (List.filter (λ f, negb (old f)) (waveform_dir g)));;
     if decide (length filename_list ≠ 0%nat)
     then emit (log_info_old_files_deleted ensemble_name filename_list)
     else mret ()
   else mret ());;
  g ← get;
  ensemble ← lift (getitem (saved_pulse_block_ensembles g) ensemble_name);
  let ana_channels := ens_analog_channels ensemble in
  let dig_channels := ens_digital_channels ensemble in
  let ana_chnl_names := List.filter (str_contains "a_ch") (activation_config g) in
  if bool_decide (digital_channels g ≠ dig_channels)
     || bool_decide (analog_channels g ≠ ana_channels)
  then
    emit (log_error_channel_mismatch ensemble_name (analog_channels g)
            (digital_channels g) ana_channels dig_channels);;
    mret (py_empty_list, py_empty_list, [""], 0)
  else
    '(number_of_samples, number_of_elements, number_of_states, state_length_bins_arr) ←
      lift (_analyze_block_ensemble g ensemble);
    locals ← lift (initial_locals ensemble number_of_samples write_to_file chunkwise);
    fr ← element_loop ensemble ana_chnl_names number_of_samples number_of_elements
           write_to_file chunkwise name_tag (mk_frame offset_bin None locals);
    sample_return ensemble_name ensemble number_of_samples write_to_file chunkwise
      name_tag sequence_sampling_in_progress fr.

(** The instance as [sample_pulse_block_ensemble] leaves it before it looks
    the ensemble up: the call is recorded, the module is locked and, when
    writing, the old files of the ensemble are deleted. *)
Definition entered (ensemble_name : string) (write_to_file : bool)
    (offset_bin : Z) (name_tag : string) (g : SequenceGeneratorLogic)
    : SequenceGeneratorLogic :=
  let g := set_sampling_calls
             (sampling_calls g ++ [(ensemble_name, offset_bin, name_tag)]) g in
  let g := if decide (module_state g = idle) then set_module_state locked g else g in
  if write_to_file then
    let old f := startswith f (ensemble_name +:+ "_ch") in
    let filename_list := List.filter old (waveform_dir g) in
    let g := set_waveform_dir (List.filter (λ f, negb (old f)) (waveform_dir g)) g in
    if decide (length filename_list ≠ 0%nat)
    then set_events (events g ++ [log_info_old_files_deleted ensemble_name filename_list]) g
    else g
  else g.

(** ** Sequence sampler *)

(** [save_sequence]. Writing the pickled dict to disk is left out of the
    model; the in-memory store, the editor pointer and the signals are
    kept. The sequence is stored under its new name; the same object under
    another key is not followed. *)
Definition save_sequence (name : string) (sequence : PulseSequence) : M () :=
  let sequence :=
    mk_sequence name (ensemble_param_list sequence)
      (different_ensembles_dict sequence) (seq_rotating_frame sequence)
      (sampled_ensembles sequence) (seq_sample_rate sequence)
      (seq_amplitude_dict sequence) (seq_activation_config sequence)
      (seq_laser_channel sequence) in
  modify (set_current_sequence (Some sequence));;
  modify (λ g, set_saved_pulse_sequences (<[name := sequence]> (saved_pulse_sequences g)) g);;
  emit sigSequenceDictUpdated;;
  emit sigCurrentSequenceUpdated.

(** [self._write_to_file[self.sequence_format](sequence_name,
    sequence_param_dict_list)]. *)
Definition call_sequence_writer (sequence_name : string)
    (sequence_param_dict_list : list (gmap string dict_value)) : M () :=
  g ← get;
  lift (gettable (_write_to_file_sequence (sequence_format g)));;
  modify (λ g, set_writer_calls
    (writer_calls g ++ [write_sequence (sequence_format g) sequence_name
                          sequence_param_dict_list]) g).

(** [temp_dict = dict(); temp_dict['name'] = files;
    temp_dict.update(seq_param)]: the entries of [seq_param] win. *)
Definition step_descriptor (files : list string) (seq_param : gmap string seq_value)
    : gmap string dict_value :=
  (step_param_value <$> seq_param) ∪ {["name" := created_files_value files]}.

(** The keys of a dict, in its iteration order. *)
Definition dict_keys {A} (d : gmap string A) : list string := (map_to_list d).*1.

(** The branch of [sample_pulse_sequence] for a sequence in the rotating
    frame: every occurrence is sampled, from the offset that the occurrence
    before it returned, under a running three-digit name tag. It yields
    [sampled_ensembles] and [sequence_param_dict_list]. *)
Definition sample_sequence_rotating (sequence_obj : PulseSequence)
    (write_to_file chunkwise : bool)
    : M (gmap string (list string) * list (gmap string dict_value)) :=
  '(sampled_ensembles, sequence_param_dict_list, ensemble_index, offset_bin) ←
    for_each (ensemble_param_list sequence_obj)
      (λ '(ensemble_obj, seq_param)
         '(sampled_ensembles, sequence_param_dict_list, ensemble_index, offset_bin),
        let name_tag := "_" +:+ zfill 3 (pretty (ensemble_index : nat)) in
        '(dummy1, dummy2, created_files, offset_bin_return) ←
          sample_pulse_block_ensemble (ens_name ensemble_obj) write_to_file
            chunkwise offset_bin name_tag;
        let sampled_ensembles :=
          <[ens_name ensemble_obj +:+ name_tag := created_files]> sampled_ensembles in
        let temp_dict := step_descriptor created_files seq_param in
        mret (sampled_ensembles, sequence_param_dict_list ++ [temp_dict],
              S ensemble_index, offset_bin_return))
      (∅, [], 0%nat, 0);
  mret (sampled_ensembles, sequence_param_dict_list).

(** The other branch: the distinct ensembles are sampled, each from offset 0
    and without name tag, and then every occurrence is given the files of
    its ensemble. *)
Definition sample_sequence_distinct (sequence_obj : PulseSequence)
    (write_to_file chunkwise : bool)
    : M (gmap string (list string) * list (gmap string dict_value)) :=
  sampled_ensembles ←
    for_each (dict_keys (different_ensembles_dict sequence_obj))
      (λ ensemble_name (sampled_ensembles : gmap string (list string)),
        g ← get;
        ensemble_obj ← lift (getitem (saved_pulse_block_ensembles g) ensemble_name);
        '(dummy1, dummy2, created_files, offset_bin) ←
          sample_pulse_block_ensemble ensemble_name write_to_file chunkwise 0 "";
        mret (<[ensemble_name := created_files]> sampled_ensembles))
      ∅;
  sequence_param_dict_list ←
    for_each (ensemble_param_list sequence_obj)
      (λ '(ensemble_obj, seq_param) sequence_param_dict_list,
        files ← lift (getitem sampled_ensembles (ens_name ensemble_obj));
        mret (sequence_param_dict_list ++ [step_descriptor files seq_param]))
      [];
  mret (sampled_ensembles, sequence_param_dict_list).

(** The sequence with the cache of sampled files replaced. *)
Definition set_sampled_ensembles (v : gmap string (list string))
    (sequence_obj : PulseSequence) : PulseSequence :=
  mk_sequence (seq_name sequence_obj) (ensemble_param_list sequence_obj)
    (different_ensembles_dict sequence_obj) (seq_rotating_frame sequence_obj)
    v (seq_sample_rate sequence_obj) (seq_amplitude_dict sequence_obj)
    (seq_activation_config sequence_obj) (seq_laser_channel sequence_obj).

(** [sample_pulse_sequence], with its two branches in the definitions
    above. *)
Definition sample_pulse_sequence (sequence_name : string)
    (write_to_file chunkwise : bool) : M () :=
  st ← getState;
  if decide (st = idle) then
    lock;;
    (if write_to_file then
       g ← get;
       let old f := startswith f (sequence_name +:+ ".seq") in
       let filename_list := List.filter old (sequence_dir g) in
       modify (set_sequence_dir (List.filter (λ f, negb (old f)) (sequence_dir g)));;
       if decide (length filename_list ≠ 0%nat)
       then emit (log_warning_old_sequence_deleted sequence_name filename_list)
       else mret ()
     else mret ());;
    g ← get;
    sequence_obj ← lift (getitem (saved_pulse_sequences g) sequence_name);
    '(sampled_ensembles, sequence_param_dict_list) ←
      (if seq_rotating_frame sequence_obj
       then sample_sequence_rotating sequence_obj write_to_file chunkwise
       else sample_sequence_distinct sequence_obj write_to_file chunkwise);
    let sequence_obj := set_sampled_ensembles sampled_ensembles sequence_obj in
    save_sequence sequence_name sequence_obj;;
    call_sequence_writer sequence_name sequence_param_dict_list;;
    emit log_info_time_needed;;
    emit (sigSampleSequenceComplete sequence_name);;
    unlock
  else
    emit (log_error_busy sequence_name).

(** ** Loading an asset into the editor *)

(** [if v is not None: self.<attribute> = v]. *)
Definition set_if_not_None {A} (set : A → SequenceGeneratorLogic → SequenceGeneratorLogic)
    (v : option A) : M () :=
  match v with
  | Some a => modify (set a)
  | None => mret ()
  end.

Definition load_ensemble (name : string) : M () :=
  g ← get;
  match saved_pulse_block_ensembles g !! name with
  | None => emit (log_error_load_failed name)
  | Some ensemble =>
      set_if_not_None set_sample_rate (ens_sample_rate ensemble);;
      set_if_not_None set_amplitude_dict (ens_amplitude_dict ensemble);;
      set_if_not_None set_activation_config (ens_activation_config ensemble);;
      set_if_not_None (λ c, set_laser_channel (Some c)) (ens_laser_channel ensemble);;
      emit sigSettingsUpdated;;
      modify (set_current_ensemble (Some ensemble));;
      emit sigCurrentEnsembleUpdated
  end.

Definition load_sequence (name : string) : M () :=
  g ← get;
  match saved_pulse_sequences g !! name with
  | None => emit (log_error_load_failed name)
  | Some sequence =>
      set_if_not_None set_sample_rate (seq_sample_rate sequence);;
      set_if_not_None set_amplitude_dict (seq_amplitude_dict sequence);;
      set_if_not_None set_activation_config (seq_activation_config sequence);;
      set_if_not_None (λ c, set_laser_channel (Some c)) (seq_laser_channel sequence);;
      emit sigSettingsUpdated;;
      modify (set_current_sequence (Some sequence));;
      emit sigCurrentSequenceUpdated
  end.

(** ** Predefined generator methods *)

(** [generate_methods] is the dict of the generator methods found on
    activation; a method runs on the instance and may raise. *)
Definition generate_predefined_sequence
    (generate_methods : gmap string (list gen_arg → M ()))
    (predefined_sequence_name : string) (args : list gen_arg) : M () :=
  gen_method ← lift (getitem generate_methods predefined_sequence_name);
  generated ← try_except
    (gen_method args;; mret true)
    (emit (log_error_generation_failed predefined_sequence_name);; mret false);
  if (generated : bool)
  then emit (sigPredefinedSequenceGenerated predefined_sequence_name)
  else mret ().

(** ** Reference descriptions

    The traversal of an ensemble in block_list, repetition, element order,
    and what the analysis pass and the sampler are to produce along it. *)

Definition traversal (ensemble : PulseBlockEnsemble) : list (nat * PulseBlockElement) :=
  '(block, reps) ← block_list ensemble;
  rep_no ← range (reps + 1);
  block_element ← element_list block;
  [(rep_no, block_element)].

(** The bin length of every element of the traversal. *)
Definition state_lengths (rate : float64) (ensemble : PulseBlockEnsemble) : list Z :=
  (λ '(rep_no, block_element), element_length_bins rate rep_no block_element)
    <$> traversal ensemble.

(** The exception that the analysis pass raises at an element, if any: the
    one of [element_length], or [OverflowError] for a length that an array
    of [dtype=int] cannot hold. *)
Definition length_error (rate : float64) (rep_no : nat)
    (block_element : PulseBlockElement) : option exn :=
  match element_length rate rep_no block_element with
  | Raise ex => Some ex
  | Ok n =>
      if decide (- int_bound ≤ n < int_bound) then None else Some OverflowError
  end.

(** The first such exception along a traversal. *)
Fixpoint first_error (rate : float64) (tr : list (nat * PulseBlockElement))
    : option exn :=
  match tr with
  | [] => None
  | (rep_no, block_element) :: tr' =>
      match length_error rate rep_no block_element with
      | Some ex => Some ex
      | None => first_error rate tr'
      end
  end.

Definition analysis_error (rate : float64) (ensemble : PulseBlockEnsemble)
    : option exn :=
  first_error rate (traversal ensemble).

(** The sum over the blocks of (reps + 1) times the element count. *)
Definition total_elements (ensemble : PulseBlockEnsemble) : nat :=
  sum_list ((λ '(block, reps), (reps + 1) * length (element_list block))%nat
              <$> block_list ensemble).

(** The offset after an element of [n] bins that started at [offset_bin]. *)
Definition next_offset (rotating_frame : bool) (offset_bin n : Z) : Z :=
  if rotating_frame then offset_bin + n else offset_bin.

(** The elements of a traversal sampled one after the other, each from the
    running offset. *)
Fixpoint sample_elements (g : SequenceGeneratorLogic) (ensemble : PulseBlockEnsemble)
    (ana_chnl_names : list string) (offset_bin : Z)
    (tr : list (nat * PulseBlockElement))
    : result (list (ndarray float32 * ndarray bool)) :=
  match tr with
  | [] => Ok []
  | (rep_no, block_element) :: tr' =>
      c ← element_chunk g ensemble ana_chnl_names offset_bin rep_no block_element;
      cs ← sample_elements g ensemble ana_chnl_names
             (next_offset (ens_rotating_frame ensemble) offset_bin
                (element_length_bins (sample_rate g) rep_no block_element))
             tr';
      Ok (c :: cs)
  end.

(** Arrays of [c] rows laid side by side along the time axis. *)
Definition hstack {A} (c : nat) (arrs : list (ndarray A)) : ndarray A :=
  mk_ndarray (sum_list (ncols <$> arrs))
    (foldr (λ a acc, zip_with app (rows a) acc) (replicate c []) arrs).

(** The sample arrays handed to a waveform writer. *)
Definition waveform_payload (c : writer_call)
    : option (ndarray float32 * ndarray bool) :=
  match c with
  | write_waveform _ _ analog_samples digital_samples _ _ _ =>
      Some (analog_samples, digital_samples)
  | write_sequence _ _ _ => None
  end.

(** ** Definitions used in stating and proving the properties *)

(** The result [a], unless an exception has been met. *)
Definition or_raise {A} (error : option exn) (a : A) : result A :=
  match error with
  | Some ex => Raise ex
  | None => Ok a
  end.

(** [g'] is [g] with further writer calls. *)
Definition writes (g g' : SequenceGeneratorLogic) : Prop :=
  ∃ calls, g' = set_writer_calls (writer_calls g ++ calls) g.

(** An array of [c] rows, each as long as its width. *)
Definition shaped {A} (c : nat) (a : ndarray A) : Prop :=
  length (rows a) = c ∧ Forall (λ row, length row = ncols a) (rows a).

(** The array [a] with the chunk [ch] written over its columns from [e]. *)
Definition paste {A} (a : ndarray A) (e : nat) (ch : ndarray A) : ndarray A :=
  mk_ndarray (ncols a)
    (zip_with (λ row crow, take e row ++ crow ++ drop (e + ncols ch) row)
       (rows a) (rows ch)).

(** No cell from column [e] on has been written. *)
Definition blank_from {A} (e : nat) (a : ndarray A) : Prop :=
  Forall (λ row, drop e row = replicate (ncols a - e) None) (rows a).

(** The chunks of a list written one after the other from column [e]. *)
Fixpoint paste_all {A} (a : ndarray A) (e : nat) (chs : list (ndarray A)) : ndarray A :=
  match chs with
  | [] => a
  | ch :: chs' => paste_all (paste a e ch) (e + ncols ch) chs'
  end.

(** The offset after elements of the bin lengths [lens]. *)
Definition final_offset (rotating_frame : bool) (offset_bin : Z) (lens : list Z) : Z :=
  if rotating_frame then offset_bin + sum_bins lens else offset_bin.

Definition lengths_of (g : SequenceGeneratorLogic) (tr : list (nat * PulseBlockElement))
    : list Z :=
  (λ '(rep_no, block_element),
     element_length_bins (sample_rate g) rep_no block_element) <$> tr.

(** The module is locked and nothing since [g0] has announced the completion
    of an ensemble. *)
Definition quiet (g0 g : SequenceGeneratorLogic) : Prop :=
  module_state g = locked
  ∧ ∃ evs, events g = events g0 ++ evs ∧ ∀ n, sigSampleEnsembleComplete n ∉ evs.

End Generator.

Arguments entered : simpl never.

(** ** Asset management and settings

    The other methods of the class keep the PulseBlock objects as well, and
    they log and signal more than [event] lists. [GeneratorInstance] adds
    the attributes for the blocks to those declared above, and [notices],
    the record of the further log lines and signals in the order they are
    produced; the order between [notices] and [events] is not recorded.

    The [_save_*_to_file] methods pickle a store to disk and change no
    attribute of the instance: as in [save_sequence] above, the disk is not
    modelled and the methods that call them are given without the call, so
    that the error which the source logs when pickling fails does not occur
    here.

    An object handed to a [save_*] method is renamed in place by the source
    ([<object>.name = name]). The stores of the model hold values, so that
    an asset which is referenced from a second place (under another key, or
    from within a stored ensemble or sequence) keeps its old name there.
    The assignment changes nothing when the object bears the name already.
    The properties of the [save_*] methods therefore state, for every
    object, what holds of the key, of the editor pointer and of the stored
    object itself, and state what they say about the rest of the instance
    for an object that bears the name it is saved under. *)

(** Python's [s.split(sep)] for a separator of one character. *)
Fixpoint split (sep : ascii) (s : string) : list string :=
  match s with
  | EmptyString => [EmptyString]
  | String c s' =>
      if decide (c = sep) then EmptyString :: split sep s'
      else match split sep s' with
           | [] => [String c EmptyString]
           | word :: words => String c word :: words
           end
  end.

(** [for channel in activation_config: if 'd_ch' in channel: laser_channel =
    channel; break], from [laser_channel = None]. *)
Fixpoint first_digital_channel (activation_config : list string) : option string :=
  match activation_config with
  | [] => None
  | channel :: rest =>
      if str_contains "d_ch" channel then Some channel
      else first_digital_channel rest
  end.

(** Log lines and signals that [event] does not list. [delete_sequence]
    words its warning as [delete_ensemble] does, so both log
    [log_warning_ensemble_not_found]. *)
Inductive notice : Type :=
  | log_warning_no_digital_channel
  | log_warning_asset_not_found (name : string)
  | log_warning_block_not_found (name : string)
  | log_warning_ensemble_not_found (name : string)
  | sigBlockDictUpdated
  | sigEnsembleDictUpdated
  | sigCurrentBlockUpdated.

#[global] Instance notice_eq_dec : EqDecision notice.
Proof. solve_decision. Defined.

Section Assets.

Context `{Externals}.

Definition set_saved_pulse_block_ensembles (v : gmap string PulseBlockEnsemble)
    (g : SequenceGeneratorLogic) : SequenceGeneratorLogic :=
  mk_logic (module_state g) (current_ensemble g) (current_sequence g) v
    (saved_pulse_sequences g) (analog_channels g) (digital_channels g)
    (activation_config g) (laser_channel g) (amplitude_dict g) (sample_rate g)
    (waveform_format g) (sequence_format g) (waveform_dir g) (sequence_dir g)
    (events g) (writer_calls g) (sampling_calls g).

Definition set_analog_channels (v : nat) (g : SequenceGeneratorLogic)
    : SequenceGeneratorLogic :=
  mk_logic (module_state g) (current_ensemble g) (current_sequence g)
    (saved_pulse_block_ensembles g) (saved_pulse_sequences g) v
    (digital_channels g) (activation_config g) (laser_channel g)
    (amplitude_dict g) (sample_rate g) (waveform_format g) (sequence_format g)
    (waveform_dir g) (sequence_dir g) (events g) (writer_calls g)
    (sampling_calls g).

Definition set_digital_channels (v : nat) (g : SequenceGeneratorLogic)
    : SequenceGeneratorLogic :=
  mk_logic (module_state g) (current_ensemble g) (current_sequence g)
    (saved_pulse_block_ensembles g) (saved_pulse_sequences g)
    (analog_channels g) v (activation_config g) (laser_channel g)
    (amplitude_dict g) (sample_rate g) (waveform_format g) (sequence_format g)
    (waveform_dir g) (sequence_dir g) (events g) (writer_calls g)
    (sampling_calls g).

Definition set_waveform_format (v : string) (g : SequenceGeneratorLogic)
    : SequenceGeneratorLogic :=
  mk_logic (module_state g) (current_ensemble g) (current_sequence g)
    (saved_pulse_block_ensembles g) (saved_pulse_sequences g)
    (analog_channels g) (digital_channels g) (activation_config g)
    (laser_channel g) (amplitude_dict g) (sample_rate g) v (sequence_format g)
    (waveform_dir g) (sequence_dir g) (events g) (writer_calls g)
    (sampling_calls g).

Definition set_sequence_format (v : string) (g : SequenceGeneratorLogic)
    : SequenceGeneratorLogic :=
  mk_logic (module_state g) (current_ensemble g) (current_sequence g)
    (saved_pulse_block_ensembles g) (saved_pulse_sequences g)
    (analog_channels g) (digital_channels g) (activation_config g)
    (laser_channel g) (amplitude_dict g) (sample_rate g) (waveform_format g) v
    (waveform_dir g) (sequence_dir g) (events g) (writer_calls g)
    (sampling_calls g).

(** The instance with its block attributes and the further records. *)
Record GeneratorInstance : Type := mk_instance {
  logic : SequenceGeneratorLogic;
  current_block : option PulseBlock;
  saved_pulse_blocks : gmap string PulseBlock;
  notices : list notice
}.

Definition MI (A : Type) : Type :=
  GeneratorInstance → result A * GeneratorInstance.

#[global] Instance MI_ret : MRet MI := λ A a s, (Ok a, s).
#[global] Instance MI_bind : MBind MI := λ A B f m s,
  match m s with
  | (Ok a, s') => f a s'
  | (Raise e, s') => (Raise e, s')
  end.

(** A method of the attributes declared earlier, run on the instance. *)
Definition on_logic {A} (m : M A) : MI A := λ s,
  let '(r, g) := m (logic s) in
  (r, mk_instance g (current_block s) (saved_pulse_blocks s) (notices s)).

Definition this : MI GeneratorInstance := λ s, (Ok s, s).

Definition assign_current_block (v : option PulseBlock) : MI () := λ s,
  (Ok (), mk_instance (logic s) v (saved_pulse_blocks s) (notices s)).

Definition assign_saved_pulse_blocks (v : gmap string PulseBlock) : MI () := λ s,
  (Ok (), mk_instance (logic s) (current_block s) v (notices s)).

Definition note (n : notice) : MI () := λ s,
  (Ok (), mk_instance (logic s) (current_block s) (saved_pulse_blocks s)
            (notices s ++ [n])).

(** [laser_channel in activation_config], for a laser channel that may be
    [None]. *)
Definition in_config (laser_channel : option string)
    (activation_config : list string) : bool :=
  match laser_channel with
  | Some channel => bool_decide (channel ∈ activation_config)
  | None => false
  end.

(** [set_settings]. *)
Definition set_settings (activation_config : list string)
    (laser_channel : option string) (sample_rate : float64)
    (amplitude_dict : gmap string float64) (sampling_format : string)
    : MI (list string * option string * float64 * gmap string float64 * string) :=
  laser_channel ←
    (if in_config laser_channel activation_config
     then mret laser_channel
     else
       let laser_channel := first_digital_channel activation_config in
       match laser_channel with
       | None => note log_warning_no_digital_channel
       | Some _ => mret ()
       end;;
       mret laser_channel) : MI (option string);
  on_logic (modify (set_laser_channel laser_channel));;
  on_logic (modify (set_activation_config activation_config));;
  on_logic (modify (set_analog_channels
    (length (List.filter (str_contains "a_ch") activation_config))));;
  on_logic (modify (set_digital_channels
    (length (List.filter (str_contains "d_ch") activation_config))));;
  on_logic (modify (set_amplitude_dict amplitude_dict));;
  on_logic (modify (set_sample_rate sample_rate));;
  waveform_format ← on_logic (lift (getindex (split "/" sampling_format) 0));
  on_logic (modify (set_waveform_format waveform_format));;
  sequence_format ← on_logic (lift (getindex (split "/" sampling_format) 1));
  on_logic (modify (set_sequence_format sequence_format));;
  on_logic (emit sigSettingsUpdated);;
  mret (activation_config, laser_channel, sample_rate, amplitude_dict,
        sampling_format).

(** What [get_saved_asset] returns: a sequence, an ensemble or [None]. *)
Inductive asset : Type :=
  | sequence_asset (sequence : PulseSequence)
  | ensemble_asset (ensemble : PulseBlockEnsemble).

Definition get_saved_asset (name : string) : MI (option asset) :=
  s ← this;
  if decide (name = "") then mret None
  else if bool_decide (name ∈ dict_keys (saved_pulse_sequences (logic s))) then
    asset_obj ← on_logic (lift (getitem (saved_pulse_sequences (logic s)) name));
    mret (Some (sequence_asset asset_obj))
  else if bool_decide (name ∈ dict_keys (saved_pulse_block_ensembles (logic s))) then
    asset_obj ← on_logic (lift (getitem (saved_pulse_block_ensembles (logic s)) name));
    mret (Some (ensemble_asset asset_obj))
  else
    note (log_warning_asset_not_found name);;
    mret None.

(** [<object>.name = name]: the object under its new name. Other
    references to the object are not followed, see above. *)
Definition rename_block (name : string) (block : PulseBlock) : PulseBlock :=
  mk_block name (element_list block).

Definition rename_ensemble (name : string) (ensemble : PulseBlockEnsemble)
    : PulseBlockEnsemble :=
  mk_ensemble name (block_list ensemble) (ens_analog_channels ensemble)
    (ens_digital_channels ensemble) (ens_sample_rate ensemble)
    (ens_amplitude_dict ensemble) (ens_activation_config ensemble)
    (ens_laser_channel ensemble) (ens_rotating_frame ensemble).

Definition rename_sequence (name : string) (sequence : PulseSequence)
    : PulseSequence :=
  mk_sequence name (ensemble_param_list sequence)
    (different_ensembles_dict sequence) (seq_rotating_frame sequence)
    (sampled_ensembles sequence) (seq_sample_rate sequence)
    (seq_amplitude_dict sequence) (seq_activation_config sequence)
    (seq_laser_channel sequence).

(** *** Blocks *)

Definition save_block (name : string) (block : PulseBlock) : MI () :=
  let block := rename_block name block in
  assign_current_block (Some block);;
  s ← this;
  assign_saved_pulse_blocks (<[name := block]> (saved_pulse_blocks s));;
  note sigBlockDictUpdated;;
  note sigCurrentBlockUpdated.

Definition load_block (name : string) : MI () :=
  s ← this;
  match saved_pulse_blocks s !! name with
  | None => on_logic (emit (log_error_load_failed name))
  | Some block =>
      assign_current_block (Some block);;
      note sigCurrentBlockUpdated
  end.

Definition delete_block (name : string) : MI () :=
  s ← this;
  if bool_decide (name ∈ dict_keys (saved_pulse_blocks s)) then
    assign_saved_pulse_blocks (delete name (saved_pulse_blocks s));;
    match current_block s with
    | Some current =>
        if decide (block_name current = name)
        then assign_current_block None;; note sigCurrentBlockUpdated
        else mret ()
    | None => mret ()
    end;;
    note sigBlockDictUpdated
  else
    note (log_warning_block_not_found name).

(** *** Ensembles and sequences *)

Definition save_ensemble (name : string) (ensemble : PulseBlockEnsemble) : MI () :=
  let ensemble := rename_ensemble name ensemble in
  on_logic (modify (set_current_ensemble (Some ensemble)));;
  on_logic (modify (λ g, set_saved_pulse_block_ensembles
    (<[name := ensemble]> (saved_pulse_block_ensembles g)) g));;
  note sigEnsembleDictUpdated;;
  on_logic (emit sigCurrentEnsembleUpdated).

Definition delete_ensemble (name : string) : MI () :=
  s ← this;
  if bool_decide (name ∈ dict_keys (saved_pulse_block_ensembles (logic s))) then
    on_logic (modify (λ g, set_saved_pulse_block_ensembles
      (delete name (saved_pulse_block_ensembles g)) g));;
    match current_ensemble (logic s) with
    | Some current =>
        if decide (ens_name current = name)
        then on_logic (modify (set_current_ensemble None);;
                       emit sigCurrentEnsembleUpdated)
        else mret ()
    | None => mret ()
    end;;
    note sigEnsembleDictUpdated
  else
    note (log_warning_ensemble_not_found name).

Definition delete_sequence (name : string) : MI () :=
  s ← this;
  if bool_decide (name ∈ dict_keys (saved_pulse_sequences (logic s))) then
    on_logic (modify (λ g, set_saved_pulse_sequences
      (delete name (saved_pulse_sequences g)) g));;
    match current_sequence (logic s) with
    | Some current =>
        if decide (seq_name current = name)
        then on_logic (modify (set_current_sequence None);;
                       emit sigCurrentSequenceUpdated)
        else mret ()
    | None => mret ()
    end;;
    on_logic (emit sigSequenceDictUpdated)
  else
    note (log_warning_ensemble_not_found name).

(** ** Definitions used in stating the further properties *)

(** [g'] has the assets, the editor pointers and the settings of [g]: the
    two may differ in the lock, the file directories and the records. *)
Definition same_configuration (g g' : SequenceGeneratorLogic) : Prop :=
  current_ensemble g' = current_ensemble g
  ∧ current_sequence g' = current_sequence g
  ∧ saved_pulse_block_ensembles g' = saved_pulse_block_ensembles g
  ∧ saved_pulse_sequences g' = saved_pulse_sequences g
  ∧ analog_channels g' = analog_channels g
  ∧ digital_channels g' = digital_channels g
  ∧ activation_config g' = activation_config g
  ∧ laser_channel g' = laser_channel g
  ∧ amplitude_dict g' = amplitude_dict g
  ∧ sample_rate g' = sample_rate g
  ∧ waveform_format g' = waveform_format g
  ∧ sequence_format g' = sequence_format g.

(** The offset that [sample_pulse_block_ensemble] returns for the stored
    ensemble [ensemble_name] when called with [offset_bin]: 0 on a channel
    mismatch, else the offset advanced by the bins of the ensemble in the
    rotating frame. *)
Definition returned_offset (g : SequenceGeneratorLogic) (ensemble_name : string)
    (offset_bin : Z) : Z :=
  match saved_pulse_block_ensembles g !! ensemble_name with
  | None => offset_bin
  | Some ensemble =>
      if bool_decide (digital_channels g ≠ ens_digital_channels ensemble)
         || bool_decide (analog_channels g ≠ ens_analog_channels ensemble)
      then 0
      else final_offset (ens_rotating_frame ensemble) offset_bin
             (state_lengths (sample_rate g) ensemble)
  end.

(** The calls of [sample_pulse_block_ensemble] that a sequence in the
    rotating frame makes for the occurrences [l], the first of them under
    the index [ensemble_index] from [offset_bin]. *)
Fixpoint rotating_calls (g : SequenceGeneratorLogic)
    (l : list (PulseBlockEnsemble * gmap string seq_value))
    (ensemble_index : nat) (offset_bin : Z) : list (string * Z * string) :=
  match l with
  | [] => []
  | (ensemble_obj, _) :: l' =>
      (ens_name ensemble_obj, offset_bin,
       "_" +:+ zfill 3 (pretty ensemble_index))
      :: rotating_calls g l' (S ensemble_index)
           (returned_offset g (ens_name ensemble_obj) offset_bin)
  end.

(** What a call of [sample_pulse_block_ensemble] for [ensemble_name] may
    change: the lock, the records, and the sampled files of the ensemble on
    disk when it writes. *)
Definition sampling_footprint (ensemble_name : string) (write_to_file : bool)
    (g g' : SequenceGeneratorLogic) : Prop :=
  same_configuration g g'
  ∧ sequence_dir g' = sequence_dir g
  ∧ waveform_dir g'
    = (if write_to_file
       then List.filter (λ f, negb (startswith f (ensemble_name +:+ "_ch")))
              (waveform_dir g)
       else waveform_dir g).

(** The instance as [sample_pulse_sequence] on an idle module leaves it
    before it looks the sequence up: the module is locked and, when
    writing, the old files of the sequence are deleted. *)
Definition sequence_entered (sequence_name : string) (write_to_file : bool)
    (g : SequenceGeneratorLogic) : SequenceGeneratorLogic :=
  let g := set_module_state locked g in
  if write_to_file then
    let old f := startswith f (sequence_name +:+ ".seq") in
    let filename_list := List.filter old (sequence_dir g) in
    let g := set_sequence_dir (List.filter (λ f, negb (old f)) (sequence_dir g)) g in
    if decide (length filename_list ≠ 0%nat)
    then set_events (events g ++
           [log_warning_old_sequence_deleted sequence_name filename_list]) g
    else g
  else g.

(** The writer calls of a chunked run over [chunks], the first of them
    flagged as first when [first] is set and the one that brings the count
    of elements to [E] flagged as last. *)
Definition chunk_calls (format name : string) (N : Z) (E : nat) (first : bool)
    (count : nat) (chunks : list (ndarray float32 * ndarray bool))
    : list writer_call :=
  imap (λ j '(analog_samples, digital_samples),
          write_waveform format name analog_samples digital_samples N
            (first && bool_decide (j = 0%nat))
            (bool_decide ((count + S j)%nat = E)))
    chunks.

(** [g'] has the ensembles and the settings of [g]: the two may differ in
    the sequences, the lock, the file directories and the records. *)
Definition same_ensembles_and_settings (g g' : SequenceGeneratorLogic) : Prop :=
  current_ensemble g' = current_ensemble g
  ∧ saved_pulse_block_ensembles g' = saved_pulse_block_ensembles g
  ∧ analog_channels g' = analog_channels g
  ∧ digital_channels g' = digital_channels g
  ∧ activation_config g' = activation_config g
  ∧ laser_channel g' = laser_channel g
  ∧ amplitude_dict g' = amplitude_dict g
  ∧ sample_rate g' = sample_rate g
  ∧ waveform_format g' = waveform_format g
  ∧ sequence_format g' = sequence_format g.

Definition kept_by_ensembles (g0 : SequenceGeneratorLogic) (dir : list string)
    (g : SequenceGeneratorLogic) : Prop :=
  same_configuration g0 g ∧ sequence_dir g = dir.


(** The editor pointer after the asset called [name] has been deleted. *)
Definition pointer_after_delete {A} (asset_name : A → string) (name : string)
    (current : option A) : option A :=
  match current with
  | Some asset => if decide (asset_name asset = name) then None else Some asset
  | None => None
  end.

(** [g'] has the lock, the stores, the channel counts, the formats, the
    file directories and the call records of [g]. *)
Definition same_channels_and_stores (g g' : SequenceGeneratorLogic) : Prop :=
  module_state g' = module_state g
  ∧ saved_pulse_block_ensembles g' = saved_pulse_block_ensembles g
  ∧ saved_pulse_sequences g' = saved_pulse_sequences g
  ∧ analog_channels g' = analog_channels g
  ∧ digital_channels g' = digital_channels g
  ∧ waveform_format g' = waveform_format g
  ∧ sequence_format g' = sequence_format g
  ∧ waveform_dir g' = waveform_dir g
  ∧ sequence_dir g' = sequence_dir g
  ∧ writer_calls g' = writer_calls g
  ∧ sampling_calls g' = sampling_calls g.

End Assets.

(** ** A concrete instance

    Integers stand in for the floating point numbers, with a sample rate of
    one bin per time unit: the instance is used to run the model on small
    inputs. Every such number is finite, so that [int(np.rint(x))] returns;
    [dtype=int] has 64 bits. The sampling function "Ramp" multiplies the
    time by its parameter, so that its samples show the running offset;
    "DC" is constant. *)
Module Example.

Definition externals : Externals := {|
  float64 := Z;
  float32 := Z;
  param := Z;
  seq_value := Z;
  gen_arg := Z;
  fadd := Z.add;
  fmul := Z.mul;
  fdiv := Z.div;
  of_int := λ z, z;
  rint_int := λ x, Ok x;
  int_bound := 2 ^ 63;
  to_float32 := λ x, x;
  _math_func := λ func_name,
    if decide (func_name = "DC") then Some (λ t p, (λ _, p) <$> t)
    else if decide (func_name = "Ramp") then Some (λ t p, (λ x, x * p) <$> t)
    else None;
  _write_to_file := λ format,
    if decide (format = "wfmx")
    then Some (λ name _ _ _ _ _, [name +:+ "_ch1.wfmx"])
    else None;
  _write_to_file_sequence := λ format,
    if decide (format = "seqx") then Some () else None
|}.

#[local] Existing Instance externals.

(** Two elements of one analog and one digital channel: three bins growing
    by one bin per repetition, and two bins. *)
Definition element_a : PulseBlockElement := mk_element 3 1 [true] ["Ramp"] [1].
Definition element_b : PulseBlockElement := mk_element 2 0 [false] ["DC"] [7].
Definition block_B : PulseBlock := mk_block "B" [element_a; element_b].

Definition ensemble_E : PulseBlockEnsemble :=
  mk_ensemble "E" [(block_B, 1%nat)] 1 1 None None None None true.

(** The same content outside the rotating frame. *)
Definition ensemble_N : PulseBlockEnsemble :=
  mk_ensemble "N" [(block_B, 1%nat)] 1 1 None None None None false.

(** An ensemble without blocks. *)
Definition ensemble_empty : PulseBlockEnsemble :=
  mk_ensemble "Z" [] 1 1 None None None None true.

(** An ensemble declared for two analog and four digital channels, with
    metadata of its own. *)
Definition ensemble_wide : PulseBlockEnsemble :=
  mk_ensemble "W" [(block_B, 0%nat)] 2 4 (Some 5) None
    (Some ["a_ch1"; "a_ch2"; "d_ch1"; "d_ch2"; "d_ch3"; "d_ch4"]) (Some "d_ch2") true.

(** An ensemble that plays once an element of 2^63 bins, one more than an
    array of [dtype=int] holds here; and an ensemble of two elements of 2^62
    bins, each of which the array holds. *)
Definition element_huge : PulseBlockElement :=
  mk_element (2 ^ 63) 0 [true] ["DC"] [7].
Definition ensemble_huge : PulseBlockEnsemble :=
  mk_ensemble "H" [(mk_block "BH" [element_huge], 0%nat)] 1 1
    None None None None true.

Definition element_long : PulseBlockElement :=
  mk_element (2 ^ 62) 0 [true] ["DC"] [7].
Definition ensemble_long : PulseBlockEnsemble :=
  mk_ensemble "LL" [(mk_block "BL" [element_long; element_long], 0%nat)] 1 1
    None None None None true.

(** A sequence outside the rotating frame that references "N" three times
    and "E" once. *)
Definition sequence_S : PulseSequence :=
  mk_sequence "S"
    [(ensemble_N, {["repetitions" := 1]}); (ensemble_E, ∅);
     (ensemble_N, {["repetitions" := 2]}); (ensemble_N, ∅)]
    {["N" := ensemble_N; "E" := ensemble_E]} false ∅ (Some 2) None None None.

(** An idle generator configured for one analog and one digital channel. *)
Definition logic0 : SequenceGeneratorLogic := {|
  module_state := idle;
  current_ensemble := None;
  current_sequence := None;
  saved_pulse_block_ensembles :=
    {["E" := ensemble_E; "N" := ensemble_N; "Z" := ensemble_empty;
      "W" := ensemble_wide]};
  saved_pulse_sequences := {["S" := sequence_S]};
  analog_channels := 1;
  digital_channels := 1;
  activation_config := ["a_ch1"; "d_ch1"];
  laser_channel := Some "d_ch1";
  amplitude_dict := {["a_ch1" := 1]};
  sample_rate := 1;
  waveform_format := "wfmx";
  sequence_format := "seqx";
  waveform_dir := ["E_ch1.wfmx"; "N_ch1.wfmx"];
  sequence_dir := [];
  events := [];
  writer_calls := [];
  sampling_calls := []
|}.

(** The same generator while a sampling operation is in progress. *)
Definition logic_busy : SequenceGeneratorLogic := set_module_state locked logic0.

(** A generator method that stores nothing and one that raises. *)
Definition generate_methods0 : gmap string (list Z → M ()) :=
  {["idle" := λ _, mret (); "broken" := λ _, raise ValueError]}.

(** The ensemble "E" sampled chunked from offset 10, and the sequence "S"
    sampled, both on the idle generator. *)
Definition chunked_E
    : result (samples Z * samples bool * list string * Z) * SequenceGeneratorLogic :=
  sample_pulse_block_ensemble "E" true true 10 "" logic0.

Definition sampled_S : result () * SequenceGeneratorLogic :=
  sample_pulse_sequence "S" true true logic0.


End Example.

(** ** A second instance

    A sequence in the rotating frame, a sequence that references an
    ensemble missing from the store, and an instance with a block. *)
Module Scenario.

Import Example.
#[local] Existing Instance externals.

Definition sequence_R : PulseSequence :=
  mk_sequence "R"
    [(ensemble_E, ∅); (ensemble_N, {["repetitions" := 3]}); (ensemble_E, ∅)]
    {["E" := ensemble_E; "N" := ensemble_N]} true ∅ None None None None.

(** An ensemble that is stored nowhere. *)
Definition ensemble_lost : PulseBlockEnsemble :=
  mk_ensemble "L" [(block_B, 0%nat)] 1 1 None None None None true.

Definition sequence_D : PulseSequence :=
  mk_sequence "D" [(ensemble_E, ∅); (ensemble_lost, ∅)]
    {["E" := ensemble_E; "L" := ensemble_lost]} true ∅ None None None None.

Definition logic1 : SequenceGeneratorLogic :=
  set_saved_pulse_sequences
    {["S" := sequence_S; "R" := sequence_R; "D" := sequence_D]} logic0.

Definition instance0 : GeneratorInstance :=
  mk_instance logic1 (Some block_B) {["B" := block_B]} [].

(** The generator with the ensemble "LL" in its store. *)
Definition logic2 : SequenceGeneratorLogic :=
  set_saved_pulse_block_ensembles
    (<["LL" := ensemble_long]> (saved_pulse_block_ensembles logic0)) logic0.

Definition sampled_R : result () * SequenceGeneratorLogic :=
  sample_pulse_sequence "R" true true logic1.

Definition sampled_D : result () * SequenceGeneratorLogic :=
  sample_pulse_sequence "D" true true logic1.

End Scenario.

(** * Properties *)

Section Properties.

Context `{Externals}.

(** ** Loops *)

Ltac ok_bind :=
  repeat match goal with
  | |- context [mbind ?f (Ok ?a)] => change (mbind f (Ok a)) with (f a); cbv beta
  end.

Lemma for_each_app_result {X A} (xs ys : list X) (body : X → A → result A) (a : A) :
  for_each (xs ++ ys) body a = for_each xs body a ≫= for_each ys body.
Proof.
  revert a. induction xs as [|x xs IH]; intros a; simpl; [done|].
  destruct (body x a) as [a'|e]; simpl; [apply IH|done].
Qed.

Lemma for_each_app {X A} (xs ys : list X) (body : X → A → M A) (a : A)
    (g : SequenceGeneratorLogic) :
  for_each (xs ++ ys) body a g = (for_each xs body a ≫= for_each ys body) g.
Proof.
  revert a g. induction xs as [|x xs IH]; intros a g; simpl; [done|].
  unfold mbind, M_bind in *.
  destruct (body x a g) as [[a'|e] g']; [apply IH|done].
Qed.

Lemma for_each_ext {X A} (xs : list X) (body1 body2 : X → A → M A) (a : A)
    (g : SequenceGeneratorLogic) :
  (∀ x a g, body1 x a g = body2 x a g) →
  for_each xs body1 a g = for_each xs body2 a g.
Proof.
  intros Hb. revert a g. induction xs as [|x xs IH]; intros a g; simpl; [done|].
  unfold mbind, M_bind. rewrite Hb.
  destruct (body2 x a g) as [[a'|e] g']; [apply IH|done].
Qed.

Lemma for_each_flatten {X Y A} (xs : list X) (f : X → list Y) (body : Y → A → M A)
    (a : A) (g : SequenceGeneratorLogic) :
  for_each (xs ≫= f) body a g = for_each xs (λ x a, for_each (f x) body a) a g.
Proof.
  revert a g. induction xs as [|x xs IH]; intros a g; [done|].
  rewrite bind_cons, for_each_app. simpl. unfold mbind at 1 3, M_bind.
  destruct (for_each (f x) body a g) as [[a'|e] g']; [apply IH|done].
Qed.

Lemma for_each_enumerate_from {X A} (l : list X) (j : nat) (body : X → A → M A)
    (a : A) (g : SequenceGeneratorLogic) :
  for_each (enumerate_from j l) (λ '(_, x) a, body x a) a g = for_each l body a g.
Proof.
  revert j a g. induction l as [|x l IH]; intros j a g; simpl; [done|].
  unfold mbind, M_bind. destruct (body x a g) as [[a'|e] g']; [apply IH|done].
Qed.

(** The three nested loops visit the elements in the order of [traversal]. *)
Lemma element_loop_traversal (ensemble : PulseBlockEnsemble) (names : list string)
    (N : Z) (E : nat) (w c : bool) (tag : string) (fr : frame)
    (g : SequenceGeneratorLogic) :
  element_loop ensemble names N E w c tag fr g
  = for_each (traversal ensemble)
      (λ '(rep_no, block_element) fr,
        sample_element ensemble names N E w c tag rep_no block_element fr) fr g.
Proof.
  unfold element_loop, traversal. rewrite for_each_flatten.
  apply for_each_ext. intros [block reps] fr' g'.
  rewrite for_each_flatten. apply for_each_ext. intros rep_no fr'' g''.
  rewrite for_each_flatten. unfold enumerate.
  rewrite (for_each_enumerate_from (element_list block) 0
             (λ block_element fr,
               sample_element ensemble names N E w c tag rep_no block_element fr)).
  apply for_each_ext. intros e fr3 g3. simpl. unfold mbind, M_bind.
  destruct (sample_element _ _ _ _ _ _ _ _ _ _ _) as [[?|?] ?]; done.
Qed.

(** ** The analysis pass *)

Lemma setitem_int_next (done rest : list Z) (v : Z) :
  - int_bound ≤ v < int_bound →
  setitem_int (done ++ 0 :: rest) (length done) v = Ok ((done ++ [v]) ++ rest).
Proof.
  intros Hv. unfold setitem_int.
  rewrite decide_True by (rewrite length_app; simpl; lia).
  rewrite decide_True by done.
  f_equal. replace (length done) with (length done + 0)%nat at 1 by lia.
  rewrite insert_app_r. simpl. by rewrite <- app_assoc.
Qed.

Lemma setitem_int_overflow (done rest : list Z) (v : Z) :
  ¬ (- int_bound ≤ v < int_bound) →
  setitem_int (done ++ 0 :: rest) (length done) v = Raise OverflowError.
Proof.
  intros Hv. unfold setitem_int.
  rewrite decide_True by (rewrite length_app; simpl; lia).
  by rewrite decide_False.
Qed.

Lemma element_length_Ok (rate : float64) (k : nat) (e : PulseBlockElement) (n : Z) :
  element_length rate k e = Ok n → element_length_bins rate k e = n.
Proof. unfold element_length_bins. by intros ->. Qed.

Lemma first_error_app (rate : float64) (l1 l2 : list (nat * PulseBlockElement)) :
  first_error rate (l1 ++ l2)
  = match first_error rate l1 with
    | Some ex => Some ex
    | None => first_error rate l2
    end.
Proof.
  induction l1 as [|[k e] l1 IH]; simpl; [done|].
  by destruct (length_error rate k e).
Qed.

Lemma analyze_elements (rate : float64) (rep_no : nat) (els : list PulseBlockElement)
    (j : nat) (done : list Z) (rest : nat) :
  for_each (enumerate_from j els)
    (λ '(elem_index, block_element) '(tmp_length_bins, state_index),
      element_length_bins ← element_length rate rep_no block_element;
      tmp_length_bins ← setitem_int tmp_length_bins state_index element_length_bins;
      mret (tmp_length_bins, S state_index))
    (done ++ replicate (length els + rest) 0, length done)
  = or_raise (first_error rate (els ≫= λ block_element, [(rep_no, block_element)]))
      (done ++ (element_length_bins rate rep_no <$> els) ++ replicate rest 0,
       (length done + length els)%nat).
Proof.
  revert j done. induction els as [|e els IH]; intros j done.
  - simpl. by rewrite Nat.add_0_r.
  - rewrite bind_cons. cbn [for_each enumerate_from first_error app length].
    unfold length_error. cbn [Nat.add replicate].
    destruct (element_length rate rep_no e) as [n|ex] eqn:Hn; [|done].
    ok_bind. case_decide as Hfit.
    + rewrite setitem_int_next by done. ok_bind.
      specialize (IH (S j) (done ++ [n])).
      rewrite length_app in IH. simpl in IH.
      rewrite Nat.add_1_r in IH. unfold mret, result_ret in IH |- *. ok_bind.
      rewrite IH.
      rewrite fmap_cons, (element_length_Ok _ _ _ _ Hn), <- app_assoc.
      simpl. do 3 f_equal. lia.
    + by rewrite setitem_int_overflow.
Qed.

Lemma analyze_repetitions (rate : float64) (els : list PulseBlockElement)
    (n first : nat) (done : list Z) (rest : nat) :
  for_each (seq first n)
    (λ rep_no acc,
      for_each (enumerate els)
        (λ '(elem_index, block_element) '(tmp_length_bins, state_index),
          element_length_bins ← element_length rate rep_no block_element;
          tmp_length_bins ← setitem_int tmp_length_bins state_index
                              element_length_bins;
          mret (tmp_length_bins, S state_index))
        acc)
    (done ++ replicate (n * length els + rest) 0, length done)
  = or_raise
      (first_error rate
         (seq first n ≫= λ rep_no, els ≫= λ block_element, [(rep_no, block_element)]))
      (done
       ++ (seq first n ≫= λ rep_no, element_length_bins rate rep_no <$> els)
       ++ replicate rest 0,
       (length done + n * length els)%nat).
Proof.
  revert first done. induction n as [|n IH]; intros first done.
  - simpl. by rewrite Nat.add_0_r.
  - cbn [seq for_each]. unfold enumerate in *.
    replace (S n * length els + rest)%nat
      with (length els + (n * length els + rest))%nat by lia.
    rewrite analyze_elements, !bind_cons, first_error_app.
    destruct (first_error rate (els ≫= _)) as [ex|]; [done|].
    cbn [or_raise]. ok_bind.
    specialize (IH (S first) (done ++ (element_length_bins rate first <$> els))).
    rewrite length_app, length_fmap, <- app_assoc in IH. rewrite IH.
    rewrite <- !app_assoc. do 2 f_equal. lia.
Qed.

Lemma lengths_of_repetition (rate : float64) (k : nat) (els : list PulseBlockElement) :
  (λ '(rep_no, block_element), element_length_bins rate rep_no block_element)
    <$> (els ≫= λ block_element, [(k, block_element)])
  = element_length_bins rate k <$> els.
Proof.
  induction els as [|e els IH]; [done|].
  rewrite bind_cons, fmap_app, IH. done.
Qed.

Lemma state_lengths_cons (rate : float64) (n bl a d : _) sr ad cfg lc rf
    (block : PulseBlock) (reps : nat) :
  state_lengths rate (mk_ensemble n ((block, reps) :: bl) a d sr ad cfg lc rf)
  = (seq 0 (reps + 1) ≫= λ rep_no,
       element_length_bins rate rep_no <$> element_list block)
    ++ state_lengths rate (mk_ensemble n bl a d sr ad cfg lc rf).
Proof.
  unfold state_lengths, traversal. cbn [block_list]. rewrite bind_cons, fmap_app.
  f_equal. unfold range. generalize (seq 0 (reps + 1)) as ks.
  induction ks as [|k ks IH]; [done|].
  rewrite !bind_cons, fmap_app, IH. f_equal. apply lengths_of_repetition.
Qed.

Lemma analyze_blocks (rate : float64) (n : string) (bl : list (PulseBlock * nat))
    a d sr ad cfg lc rf (arr : list Z) (count : nat) :
  for_each bl
    (λ '(block, reps) '(state_length_bins_arr, number_of_elements),
      let number_of_elements :=
        (number_of_elements + (reps + 1) * length (element_list block))%nat in
      let num_state_changes := ((reps + 1) * length (element_list block))%nat in
      let tmp_length_bins := replicate num_state_changes 0 in
      '(tmp_length_bins, _) ←
        for_each (range (reps + 1))
          (λ rep_no acc,
            for_each (enumerate (element_list block))
              (λ '(elem_index, block_element) '(tmp_length_bins, state_index),
                element_length_bins ← element_length rate rep_no block_element;
                tmp_length_bins ← setitem_int tmp_length_bins state_index
                                    element_length_bins;
                mret (tmp_length_bins, S state_index))
              acc)
          (tmp_length_bins, 0%nat);
      mret (state_length_bins_arr ++ tmp_length_bins, number_of_elements))
    (arr, count)
  = or_raise (analysis_error rate (mk_ensemble n bl a d sr ad cfg lc rf))
      (arr ++ state_lengths rate (mk_ensemble n bl a d sr ad cfg lc rf),
       (count + total_elements (mk_ensemble n bl a d sr ad cfg lc rf))%nat).
Proof.
  revert arr count. induction bl as [|[block reps] bl IH]; intros arr count.
  - simpl. unfold state_lengths, total_elements. simpl.
    by rewrite app_nil_r, Nat.add_0_r.
  - cbn [for_each]. cbv zeta.
    pose proof (analyze_repetitions rate (element_list block) (reps + 1) 0 [] 0) as Hr.
    simpl in Hr. rewrite Nat.add_0_r in Hr. unfold range. rewrite Hr. clear Hr.
    unfold analysis_error, traversal in *. cbn [block_list] in *.
    rewrite bind_cons, first_error_app. unfold range.
    destruct (first_error rate (seq 0 (reps + 1) ≫= _)) as [ex|]; [done|].
    cbn [or_raise]. ok_bind. unfold mret, result_ret. ok_bind. rewrite IH.
    destruct (first_error rate _) as [ex|]; [done|]. cbn [or_raise].
    rewrite state_lengths_cons, !app_nil_r, <- app_assoc.
    unfold total_elements. cbn [block_list fmap list_fmap sum_list sum_list_with].
    f_equal. f_equal. unfold id. lia.
Qed.

Lemma length_lengths_of_block (rate : float64) (els : list PulseBlockElement)
    (n first : nat) :
  length (seq first n ≫= λ rep_no, element_length_bins rate rep_no <$> els)
  = (n * length els)%nat.
Proof.
  revert first. induction n as [|n IH]; intros first; [done|].
  rewrite <- cons_seq, bind_cons, length_app, length_fmap, IH. lia.
Qed.

Lemma length_state_lengths (rate : float64) (ensemble : PulseBlockEnsemble) :
  length (state_lengths rate ensemble) = total_elements ensemble.
Proof.
  destruct ensemble as [n bl a d sr ad cfg lc rf].
  induction bl as [|[block reps] bl IH]; [done|].
  rewrite state_lengths_cons, length_app, IH, length_lengths_of_block.
  unfold total_elements. cbn [block_list fmap list_fmap sum_list sum_list_with].
  unfold id. lia.
Qed.

(** The analysis pass raises the first exception that an element length
    meets, and returns if there is none. *)
Lemma analyze_eq (g : SequenceGeneratorLogic) (ensemble : PulseBlockEnsemble) :
  _analyze_block_ensemble g ensemble
  = or_raise (analysis_error (sample_rate g) ensemble)
      (np_sum (state_lengths (sample_rate g) ensemble), total_elements ensemble,
       total_elements ensemble, state_lengths (sample_rate g) ensemble).
Proof.
  unfold _analyze_block_ensemble.
  destruct ensemble as [n bl a d sr ad cfg lc rf]. cbn [block_list].
  pose proof (analyze_blocks (sample_rate g) n bl a d sr ad cfg lc rf [] 0) as Hb.
  cbv zeta in Hb. rewrite Hb.
  destruct (analysis_error _ _) as [ex|]; [done|]. cbn [or_raise].
  ok_bind. cbn [app Nat.add]. unfold mret, result_ret.
  by rewrite length_state_lengths.
Qed.

Lemma int_wrap_in_range (v : Z) : - int_bound ≤ v < int_bound → int_wrap v = v.
Proof. intros Hv. unfold int_wrap. rewrite Z.mod_small; lia. Qed.

(** Where nothing raises, every length of the traversal is the value of
    [element_length] and fits the integer array. *)
Lemma first_error_None (rate : float64) (tr : list (nat * PulseBlockElement)) :
  first_error rate tr = None
  ↔ Forall (λ '(k, e), ∃ n, element_length rate k e = Ok n
                            ∧ - int_bound ≤ n < int_bound) tr.
Proof.
  induction tr as [|[k e] tr IH]; simpl; [by split|].
  unfold length_error. rewrite Forall_cons.
  destruct (element_length rate k e) as [n|ex] eqn:Hn.
  - case_decide as Hfit.
    + rewrite IH. split; [intros ?; split; [by exists n|done]|by intros [_ ?]].
    + split; [done|]. intros [(n' & [= <-] & ?) _]. done.
  - split; [done|]. by intros [(n' & [=] & ?) _].
Qed.



(** C4, as amended. For an ensemble in which every rounded length
    [int(np.rint((init_length_s + k * increment_s) * sample_rate))] is
    defined and lies in the range of [dtype=int], the analysis pass
    returns: [total_elements], the sum over the blocks of (reps + 1) times
    the element count; the per-state array, which lists these lengths in
    block, repetition, element order for the repetition index k;
    [total_samples], the sum of that array as [np.sum] computes it, which is
    the exact sum where that lies in the range of [dtype=int] and the sum
    wrapped around elsewhere; and [total_states], equal to
    [total_elements]. For any other ensemble it raises. *)
Theorem analyze_block_ensemble_spec (g : SequenceGeneratorLogic)
    (ensemble : PulseBlockEnsemble) :
  let rounded := λ '(k, block_element),
    rint_int (fmul (fadd (init_length_s block_element)
                         (fmul (of_int (Z.of_nat k)) (increment_s block_element)))
                   (sample_rate g)) in
  let fits := λ x, ∃ n, rounded x = Ok n ∧ - int_bound ≤ n < int_bound in
  (Forall fits (traversal ensemble) →
   ∃ arr,
     Forall2 (λ x n, rounded x = Ok n) (traversal ensemble) arr
     ∧ _analyze_block_ensemble g ensemble
       = Ok (np_sum arr, total_elements ensemble, total_elements ensemble, arr)
     ∧ np_sum arr = (sum_bins arr + int_bound) `mod` (2 * int_bound) - int_bound
     ∧ (- int_bound ≤ sum_bins arr < int_bound → np_sum arr = sum_bins arr))
  ∧ (¬ Forall fits (traversal ensemble) →
     ∃ ex, _analyze_block_ensemble g ensemble = Raise ex)
  ∧ total_elements ensemble
    = sum_list ((λ '(block, reps), (reps + 1) * length (element_list block))%nat
                  <$> block_list ensemble).
Proof.
  intros rounded fits.
  assert (Forall fits (traversal ensemble)
          ↔ analysis_error (sample_rate g) ensemble = None) as Hfits.
  { unfold analysis_error. rewrite first_error_None. apply Forall_proper; [|done].
    by intros [k e]. }
  split; [|split; [|done]].
  - intros HF. exists (state_lengths (sample_rate g) ensemble).
    split; [|split; [|split; [done|apply int_wrap_in_range]]].
    + unfold state_lengths. apply Forall2_fmap_r, Forall_Forall2_diag.
      eapply Forall_impl; [exact HF|]. intros [k e] (n & Hn & _).
      change (rounded (k, e) = Ok (element_length_bins (sample_rate g) k e)).
      by rewrite (element_length_Ok _ _ _ _ Hn).
    + apply Hfits in HF. by rewrite analyze_eq, HF.
  - intros HF. rewrite analyze_eq.
    destruct (analysis_error (sample_rate g) ensemble) as [ex|] eqn:He.
    + by exists ex.
    + by destruct HF; apply Hfits.
Qed.

(** ** The ensemble sampler: entry and exit *)

Ltac run :=
  cbv [mbind M_bind mret M_ret get modify lift raise emit getState lock unlock
       finish_ensemble].

Lemma writes_refl (g : SequenceGeneratorLogic) : writes g g.
Proof. exists []. rewrite app_nil_r. by destruct g. Qed.

Lemma writes_trans (g1 g2 g3 : SequenceGeneratorLogic) :
  writes g1 g2 → writes g2 g3 → writes g1 g3.
Proof.
  intros [c1 ->] [c2 ->]. exists (c1 ++ c2). simpl. by rewrite app_assoc.
Qed.

Lemma call_waveform_writer_writes name a d N first last g r g' :
  call_waveform_writer name a d N first last g = (r, g') → writes g g'.
Proof.
  unfold call_waveform_writer. run.
  destruct (gettable _) as [wr|e]; intros [= <- <-]; [by eexists|apply writes_refl].
Qed.

Lemma sample_element_writes ensemble names N E w c tag k e fr g r g' :
  sample_element ensemble names N E w c tag k e fr g = (r, g') → writes g g'.
Proof.
  unfold sample_element. run.
  destruct (element_length _ _ _) as [n|ex]; [|intros [= <- <-]; apply writes_refl].
  destruct (c && w).
  - destruct (mode fr) as [first last count|A D ind].
    + destruct (chunk_arrays _ _ _ _ _ _) as [[a d]|ex];
        [|intros [= <- <-]; apply writes_refl].
      destruct (call_waveform_writer _ _ _ _ _ _ g) as [[files|ex] g1] eqn:Hw;
        apply call_waveform_writer_writes in Hw;
        destruct (ens_rotating_frame ensemble); by intros [= <- <-].
    + intros [= <- <-]. apply writes_refl.
  - destruct (mode fr) as [first last count|A D ind].
    + intros [= <- <-]. apply writes_refl.
    + destruct (fill_digital _ _ _ _) as [D'|ex];
        [|intros [= <- <-]; apply writes_refl].
      destruct (fill_analog _ _ _ _ _ _) as [A'|ex];
        [|intros [= <- <-]; apply writes_refl].
      destruct (ens_rotating_frame ensemble); intros [= <- <-]; apply writes_refl.
Qed.

Lemma for_each_writes {X} (xs : list X) (body : X → frame → M frame) fr g r g' :
  (∀ x fr g r g', body x fr g = (r, g') → writes g g') →
  for_each xs body fr g = (r, g') → writes g g'.
Proof.
  intros Hb. revert fr g. induction xs as [|x xs IH]; intros fr g; simpl.
  - intros [= <- <-]. apply writes_refl.
  - run. destruct (body x fr g) as [[fr1|ex] g1] eqn:Hx; apply Hb in Hx.
    + intros Hr. apply IH in Hr. by eapply writes_trans.
    + by intros [= <- <-].
Qed.

Lemma element_loop_writes ensemble names N E w c tag fr g r g' :
  element_loop ensemble names N E w c tag fr g = (r, g') → writes g g'.
Proof.
  rewrite element_loop_traversal. apply for_each_writes.
  intros [k e] fr1 g1 r1 g1'. apply sample_element_writes.
Qed.

(** [entered] changes the lock, the directory listing, the events and the
    record of calls, and nothing else. *)
Lemma entered_fields name w off tag g :
  let g1 := entered name w off tag g in
  module_state g1 = locked
  ∧ sampling_calls g1 = sampling_calls g ++ [(name, off, tag)]
  ∧ writer_calls g1 = writer_calls g
  ∧ saved_pulse_block_ensembles g1 = saved_pulse_block_ensembles g
  ∧ saved_pulse_sequences g1 = saved_pulse_sequences g
  ∧ current_sequence g1 = current_sequence g
  ∧ sequence_dir g1 = sequence_dir g
  ∧ sequence_format g1 = sequence_format g
  ∧ (∃ evs, events g1 = events g ++ evs
       ∧ ∀ n, sigSampleEnsembleComplete n ∉ evs).
Proof.
  unfold entered. simpl.
  assert (∀ n ev, sigSampleEnsembleComplete n ∉ [log_info_old_files_deleted name ev])
    as Hev by (intros n ev [=]%list_elem_of_singleton).
  destruct (module_state g) eqn:Hst; destruct w; simpl;
    repeat case_decide; simpl; rewrite ?Hst; repeat split; try done.
  all: try (eexists; split; [reflexivity|intros n; apply Hev]).
  all: exists []; rewrite app_nil_r; split; [done|intros n; apply not_elem_of_nil].
Qed.

(** [sample_pulse_block_ensemble] as its entry, the mismatch gate, the
    allocation, the loops and the return. *)
Lemma sample_pulse_block_ensemble_unfold name w c off tag g :
  sample_pulse_block_ensemble name w c off tag g =
  let g1 := entered name w off tag g in
  match saved_pulse_block_ensembles g !! name with
  | None => (Raise KeyError, g1)
  | Some ensemble =>
      if bool_decide (digital_channels g ≠ ens_digital_channels ensemble)
         || bool_decide (analog_channels g ≠ ens_analog_channels ensemble)
      then (Ok (py_empty_list, py_empty_list, [""], 0),
            set_events
              (events g1 ++
               [log_error_channel_mismatch name (analog_channels g)
                  (digital_channels g) (ens_analog_channels ensemble)
                  (ens_digital_channels ensemble)]) g1)
      else
        match analysis_error (sample_rate g) ensemble with
        | Some ex => (Raise ex, g1)
        | None =>
            let N := np_sum (state_lengths (sample_rate g) ensemble) in
            let names := List.filter (str_contains "a_ch") (activation_config g) in
            match initial_locals ensemble N w c with
            | Raise e => (Raise e, g1)
            | Ok locals =>
                (element_loop ensemble names N (total_elements ensemble) w c tag
                   (mk_frame off None locals)
                 ≫= sample_return name ensemble N w c tag
                      (bool_decide (module_state g ≠ idle))) g1
            end
        end
  end.
Proof.
  unfold sample_pulse_block_ensemble, entered. run. simpl.
  destruct (module_state g) eqn:Hst; simpl; destruct w; simpl;
    repeat case_decide; simpl; try done;
    unfold getitem; destruct (saved_pulse_block_ensembles g !! name) as [ens|];
    simpl; try done;
    (destruct (bool_decide _ || bool_decide _); [done|]);
    rewrite analyze_eq; simpl;
    (destruct (analysis_error _ _); [done|]); simpl;
    destruct (initial_locals _ _ _ _); done.
Qed.

Lemma for_each_invariant {X} (P : frame → Prop) (xs : list X)
    (body : X → frame → M frame) fr g fr' g' :
  (∀ x fr g fr' g', body x fr g = (Ok fr', g') → P fr → P fr') →
  P fr → for_each xs body fr g = (Ok fr', g') → P fr'.
Proof.
  intros Hb. revert fr g. induction xs as [|x xs IH]; intros fr g HP; simpl.
  - by intros [= <- <-].
  - run. destruct (body x fr g) as [[fr1|ex] g1] eqn:Hx; [|done].
    apply IH. by eapply Hb.
Qed.

(** Outside the chunked branch no element binds [created_files]. *)
Lemma sample_element_created_files ensemble names N E w c tag k e fr g fr' g' :
  c && w = false →
  sample_element ensemble names N E w c tag k e fr g = (Ok fr', g') →
  created_files fr' = created_files fr.
Proof.
  intros Hcw. unfold sample_element. rewrite Hcw. run.
  destruct (element_length _ _ _) as [n|ex]; [|done].
  destruct (mode fr) as [first last count|A D ind]; [done|].
  destruct (fill_digital _ _ _ _) as [D'|ex]; [|done].
  destruct (fill_analog _ _ _ _ _ _) as [A'|ex]; [|done].
  destruct (ens_rotating_frame ensemble); by intros [= <- <-].
Qed.

Lemma element_loop_created_files ensemble names N E w c tag fr g fr' g' :
  c && w = false →
  element_loop ensemble names N E w c tag fr g = (Ok fr', g') →
  created_files fr' = created_files fr.
Proof.
  intros Hcw. rewrite element_loop_traversal. intros Hl.
  eapply (for_each_invariant (λ fr1, created_files fr1 = created_files fr));
    [|done|exact Hl].
  intros [k e] fr1 g1 fr2 g2 Hs <-. by eapply sample_element_created_files.
Qed.

(** What a call of [sample_pulse_block_ensemble] does to the record of
    calls, and to the lock and the events when it finds the module locked. *)
Lemma sample_return_footprint name ensemble N w c tag in_progress fr g r g' :
  sample_return name ensemble N w c tag in_progress fr g = (r, g') →
  sampling_calls g' = sampling_calls g
  ∧ (in_progress = true →
     module_state g' = module_state g
     ∧ ∃ evs, events g' = events g ++ evs
         ∧ ∀ n, sigSampleEnsembleComplete n ∉ evs).
Proof.
  assert (∀ n, sigSampleEnsembleComplete n ∉ [log_info_time_needed]) as Hev
    by (intros n [=]%list_elem_of_singleton).
  unfold sample_return, call_waveform_writer. destruct fr as [off cf locals]. run.
  destruct w, c, in_progress, locals as [first last count|A D ind], cf as [files|];
    simpl; try destruct (gettable _) as [wr|ex]; simpl;
    intros [= <- <-]; simpl; (split; [done|]); try done; intros _;
    (split; [done|]).
  all: try (eexists; split; [reflexivity|exact Hev]).
  all: exists []; rewrite app_nil_r; split; [done|intros n; apply not_elem_of_nil].
Qed.

Lemma sample_call_footprint name w c off tag g r g' :
  sample_pulse_block_ensemble name w c off tag g = (r, g') →
  sampling_calls g' = sampling_calls g ++ [(name, off, tag)]
  ∧ (module_state g = locked →
     module_state g' = locked
     ∧ ∃ evs, events g' = events g ++ evs
         ∧ ∀ n, sigSampleEnsembleComplete n ∉ evs).
Proof.
  rewrite sample_pulse_block_ensemble_unfold. cbv zeta.
  destruct (entered_fields name w off tag g)
    as (Hst & Hsc & _ & _ & _ & _ & _ & _ & evs & Hevs & Hno).
  destruct (saved_pulse_block_ensembles g !! name) as [ensemble|].
  2: { intros [= <- <-]. split; [done|]. intros _. split; [done|]. by exists evs. }
  destruct (bool_decide _ || bool_decide _).
  { intros [= <- <-]. simpl. split; [done|]. intros _. split; [done|].
    eexists. rewrite Hevs, <- app_assoc. split; [reflexivity|].
    intros n [?|[=]%list_elem_of_singleton]%elem_of_app. by eapply Hno. }
  destruct (analysis_error _ _) as [ex|].
  { intros [= <- <-]. split; [done|]. intros _. split; [done|]. by exists evs. }
  destruct (initial_locals _ _ _ _) as [locals|ex].
  2: { intros [= <- <-]. split; [done|]. intros _. split; [done|]. by exists evs. }
  run. destruct (element_loop _ _ _ _ _ _ _ _ _) as [[fr|ex] g2] eqn:Hloop;
    apply element_loop_writes in Hloop as [calls ->].
  2: { intros [= <- <-]. simpl. split; [done|]. intros _. split; [done|]. by exists evs. }
  intros [Hsc' Hlocked]%sample_return_footprint. simpl in *.
  split; [congruence|]. intros Hg.
  destruct Hlocked as (Hst' & evs' & Hevs' & Hno').
  { rewrite Hg. by apply bool_decide_eq_true. }
  split; [congruence|]. exists (evs ++ evs'). rewrite Hevs', Hevs, app_assoc.
  split; [done|]. intros n [?|?]%elem_of_app; [by eapply Hno|by eapply Hno'].
Qed.

(** C5, as amended. If the channel counts declared by the ensemble differ
    from the configured ones, [sample_pulse_block_ensemble] fails at once:
    it makes no writer call and returns empty analog and digital outputs,
    the file list [['']] and the offset 0, whatever offset the caller passed;
    the error is logged after what [entered] has logged. *)
Theorem channel_mismatch_returns_empty (g : SequenceGeneratorLogic)
    (ensemble_name : string) (write_to_file chunkwise : bool) (offset_bin : Z)
    (name_tag : string) (ensemble : PulseBlockEnsemble) :
  saved_pulse_block_ensembles g !! ensemble_name = Some ensemble →
  digital_channels g ≠ ens_digital_channels ensemble
    ∨ analog_channels g ≠ ens_analog_channels ensemble →
  ∃ g', sample_pulse_block_ensemble ensemble_name write_to_file chunkwise
          offset_bin name_tag g
        = (Ok (py_empty_list, py_empty_list, [""], 0), g')
      ∧ writer_calls g' = writer_calls g
      ∧ events g'
        = events (entered ensemble_name write_to_file offset_bin name_tag g) ++
          [log_error_channel_mismatch ensemble_name (analog_channels g)
             (digital_channels g) (ens_analog_channels ensemble)
             (ens_digital_channels ensemble)].
Proof.
  intros Hs Hm. rewrite sample_pulse_block_ensemble_unfold, Hs. cbv zeta.
  replace (bool_decide _ || bool_decide _) with true.
  2: { symmetry. apply orb_true_iff.
       destruct Hm; [left|right]; by apply bool_decide_eq_true. }
  eexists. split; [reflexivity|]. split; [|done]. simpl.
  apply (entered_fields ensemble_name write_to_file offset_bin name_tag g).
Qed.

(** With [write_to_file] false the call never returns sample arrays: past
    the mismatch gate the return statement reads [created_files], which no
    branch has bound, and the call ends in an exception. *)
Lemma sample_without_write_returns_no_arrays (g : SequenceGeneratorLogic)
    (ensemble_name : string) (chunkwise : bool) (offset_bin : Z)
    (name_tag : string) :
  (sample_pulse_block_ensemble ensemble_name false chunkwise offset_bin
     name_tag g).1 = Ok (py_empty_list, py_empty_list, [""], 0)
  ∨ ∃ e, (sample_pulse_block_ensemble ensemble_name false chunkwise offset_bin
            name_tag g).1 = Raise e.
Proof.
  rewrite sample_pulse_block_ensemble_unfold. cbv zeta.
  destruct (saved_pulse_block_ensembles g !! ensemble_name) as [ensemble|];
    [|simpl; eauto].
  destruct (bool_decide _ || bool_decide _); [simpl; eauto|].
  destruct (analysis_error _ _) as [ex|]; [simpl; eauto|].
  destruct (initial_locals _ _ _ _) as [locals|ex]; [|simpl; eauto].
  run. destruct (element_loop _ _ _ _ _ _ _ _ _) as [[fr|ex] g2] eqn:Hloop;
    [|simpl; eauto].
  apply element_loop_created_files in Hloop; [|by rewrite andb_false_r].
  simpl in Hloop. unfold sample_return. destruct fr as [off cf locals'].
  simpl in Hloop. subst cf. run. simpl.
  destruct (bool_decide _), locals'; simpl; eauto.
Qed.

(** ** Arrays: rows against slices *)

Lemma np_empty_Ok {A} (c : nat) (n : Z) (a : ndarray A) :
  np_empty c n = Ok a →
  0 ≤ n ∧ a = mk_ndarray (Z.to_nat n) (replicate c (replicate (Z.to_nat n) None)).
Proof.
  unfold np_empty. destruct (Z.ltb_spec n 0); [done|]. by intros [= <-].
Qed.

Lemma shaped_empty {A} (c n : nat) :
  shaped (A:=A) c (mk_ndarray n (replicate c (replicate n None))).
Proof.
  split; simpl; [apply length_replicate|].
  apply Forall_replicate. apply length_replicate.
Qed.

Lemma blank_empty {A} (c n : nat) :
  blank_from (A:=A) 0 (mk_ndarray n (replicate c (replicate n None))).
Proof.
  unfold blank_from. simpl. apply Forall_replicate. by rewrite Nat.sub_0_r.
Qed.

Lemma broadcast_to_length {A} (m : nat) (rhs v : list A) :
  broadcast_to m rhs = Ok v → length v = m.
Proof.
  unfold broadcast_to. case_decide; [by intros [= <-]|].
  destruct rhs as [|x [|y rhs]]; [done| |done].
  intros [= <-]. apply length_replicate.
Qed.

Lemma setitem_row_Ok {A} (a a' : ndarray A) (i : nat) (rhs : list A) :
  setitem_row a i rhs = Ok a' →
  ∃ v, broadcast_to (ncols a) rhs = Ok v ∧ (i < length (rows a))%nat
     ∧ a' = mk_ndarray (ncols a) (<[i := Some <$> v]> (rows a)).
Proof.
  unfold setitem_row. destruct (rows a !! i) as [row|] eqn:Hi; [|done].
  destruct (broadcast_to _ _) as [v|ex]; [|done]. intros [= <-].
  exists v. repeat split. by eapply lookup_lt_Some.
Qed.

Lemma setitem_row_shaped {A} (c : nat) (a a' : ndarray A) (i : nat) (rhs : list A) :
  shaped c a → setitem_row a i rhs = Ok a' → shaped c a' ∧ ncols a' = ncols a.
Proof.
  intros [Hc Hr] (v & Hv & Hi & ->)%setitem_row_Ok. simpl.
  split; [|done]. split; simpl; [by rewrite length_insert|].
  apply Forall_insert; [done|].
  rewrite length_fmap. by eapply broadcast_to_length.
Qed.

Lemma slice_bound_in (len : nat) (b : Z) :
  0 ≤ b ≤ Z.of_nat len → slice_bound len b = Z.to_nat b.
Proof.
  intros Hb. unfold slice_bound. destruct (Z.ltb_spec b 0); lia.
Qed.

(** Writing a row of the chunk is writing the slice of the large array. *)
Lemma setitem_slice_paste {A} (c : nat) (a ch ch' : ndarray A) (i : nat)
    (ind n : Z) (rhs : list A) :
  shaped c a → shaped c ch →
  0 ≤ ind → 0 ≤ n → Z.to_nat n = ncols ch →
  (Z.to_nat ind + ncols ch ≤ ncols a)%nat →
  setitem_row ch i rhs = Ok ch' →
  setitem_slice (paste a (Z.to_nat ind) ch) i ind (ind + n) rhs
  = Ok (paste a (Z.to_nat ind) ch').
Proof.
  intros [Hca Hra] [Hcc Hrc] Hind Hn Hnc Hle (v & Hv & Hi & ->)%setitem_row_Ok.
  unfold setitem_slice, paste. simpl.
  destruct (rows ch !! i) as [crow|] eqn:Hci; [|by apply lookup_ge_None in Hci; lia].
  destruct (rows a !! i) as [row|] eqn:Hai; [|by apply lookup_ge_None in Hai; lia].
  rewrite lookup_zip_with, Hai, Hci. simpl.
  assert (length row = ncols a) as Hrow
    by (eapply (proj1 (Forall_lookup _ _)) in Hra; [exact Hra|exact Hai]).
  assert (length crow = ncols ch) as Hcrow
    by (eapply (proj1 (Forall_lookup _ _)) in Hrc; [exact Hrc|exact Hci]).
  rewrite !slice_bound_in by lia.
  replace (Z.to_nat (ind + n) - Z.to_nat ind)%nat with (ncols ch) by lia.
  rewrite Hv. simpl. f_equal. f_equal.
  rewrite <- (list_insert_id (rows a) i row) at 2 by done.
  rewrite <- insert_zip_with. f_equal.
  assert (length (take (Z.to_nat ind) row) = Z.to_nat ind) as Htl
    by (rewrite length_take; lia).
  rewrite take_app_length' by done. do 2 f_equal.
  rewrite drop_app_add' by done. rewrite drop_app_length' by done. done.
Qed.

Lemma paste_shaped {A} (c : nat) (a ch : ndarray A) (e : nat) :
  shaped c a → shaped c ch → (e + ncols ch ≤ ncols a)%nat →
  shaped c (paste a e ch) ∧ ncols (paste a e ch) = ncols a.
Proof.
  intros [Hca Hra] [Hcc Hrc] Hle. split; [|done]. split; simpl.
  - rewrite length_zip_with. lia.
  - apply Forall_lookup. intros i r. rewrite lookup_zip_with.
    destruct (rows a !! i) as [row|] eqn:Hai; [|done].
    destruct (rows ch !! i) as [crow|] eqn:Hci; [|done].
    simpl. intros [= <-].
    eapply (proj1 (Forall_lookup _ _)) in Hra; [|exact Hai].
    eapply (proj1 (Forall_lookup _ _)) in Hrc; [|exact Hci].
    rewrite !length_app, length_take, length_drop. lia.
Qed.

Lemma paste_blank {A} (c : nat) (a : ndarray A) (e n : nat) :
  shaped c a → blank_from e a → (e + n ≤ ncols a)%nat →
  paste a e (mk_ndarray n (replicate c (replicate n None))) = a.
Proof.
  intros [Hca Hra] Hb Hle. destruct a as [nc rs]. unfold paste. simpl in *.
  f_equal. apply list_eq. intros i. rewrite lookup_zip_with.
  destruct (rs !! i) as [row|] eqn:Hi; [|done].
  rewrite lookup_replicate_2 by (apply lookup_lt_Some in Hi; lia). simpl. f_equal.
  eapply (proj1 (Forall_lookup _ _)) in Hra; [|exact Hi].
  eapply (proj1 (Forall_lookup _ _)) in Hb; [|exact Hi]. simpl in *.
  rewrite <- (take_drop e row) at 3. f_equal.
  rewrite <- (drop_drop row n e), Hb, drop_replicate.
  rewrite <- replicate_add. f_equal. lia.
Qed.

Lemma blank_paste {A} (c : nat) (a ch : ndarray A) (e : nat) :
  shaped c a → shaped c ch → blank_from e a → (e + ncols ch ≤ ncols a)%nat →
  blank_from (e + ncols ch) (paste a e ch).
Proof.
  intros [Hca Hra] [Hcc Hrc] Hb Hle. unfold blank_from, paste. simpl.
  apply Forall_lookup. intros i r. rewrite lookup_zip_with.
  destruct (rows a !! i) as [row|] eqn:Hai; [|done].
  destruct (rows ch !! i) as [crow|] eqn:Hci; [|done].
  simpl. intros [= <-].
  eapply (proj1 (Forall_lookup _ _)) in Hra; [|exact Hai].
  eapply (proj1 (Forall_lookup _ _)) in Hrc; [|exact Hci].
  eapply (proj1 (Forall_lookup _ _)) in Hb; [|exact Hai]. simpl in *.
  rewrite drop_app_add' by (rewrite length_take; lia).
  rewrite drop_app_length' by done.
  rewrite <- (drop_drop row (ncols ch) e), Hb, drop_replicate. f_equal. lia.
Qed.

(** Filling the rows of a chunk, against filling the slices of the large
    array that the chunk is pasted on. *)
Lemma fill_rows_paste {X Y} (mk : nat → X → result (list Y)) (c : nat)
    (a : ndarray Y) (ind n : Z) (xs : list X) (j : nat) (ch ch' : ndarray Y) :
  shaped c a → shaped c ch →
  0 ≤ ind → 0 ≤ n → Z.to_nat n = ncols ch →
  (Z.to_nat ind + ncols ch ≤ ncols a)%nat →
  for_each (enumerate_from j xs)
    (λ '(i, x) a, rhs ← mk i x; setitem_row a i rhs) ch = Ok ch' →
  for_each (enumerate_from j xs)
    (λ '(i, x) a, rhs ← mk i x; setitem_slice a i ind (ind + n) rhs)
    (paste a (Z.to_nat ind) ch) = Ok (paste a (Z.to_nat ind) ch')
  ∧ shaped c ch' ∧ ncols ch' = ncols ch.
Proof.
  intros Ha Hch Hind Hn Hnc Hle. revert j ch Hch Hnc Hle.
  induction xs as [|x xs IH]; intros j ch Hch Hnc Hle; simpl.
  - by intros [= <-].
  - destruct (mk j x) as [rhs|ex]; [|done]. simpl.
    destruct (setitem_row ch j rhs) as [ch1|ex] eqn:Hrow; [|done]. simpl.
    destruct (setitem_row_shaped c ch ch1 j rhs Hch Hrow) as [Hch1 Hnc1].
    rewrite (setitem_slice_paste c a ch ch1 j ind n rhs) by done. simpl.
    intros Hrest. apply IH in Hrest as (-> & Hs & Hc'); [|done|lia|lia].
    repeat split; try apply Hs. lia.
Qed.

Lemma element_chunk_Ok g ensemble names off k e ca cd :
  element_chunk g ensemble names off k e = Ok (ca, cd) →
  let n := element_length_bins (sample_rate g) k e in
  let fresh {A} c : ndarray A :=
    mk_ndarray (Z.to_nat n) (replicate c (replicate (Z.to_nat n) None)) in
  0 ≤ n
  ∧ fill_digital setitem_row n (digital_high e) (fresh (ens_digital_channels ensemble))
    = Ok cd
  ∧ fill_analog setitem_row g names (time_arr (sample_rate g) off n) e
      (fresh (ens_analog_channels ensemble)) = Ok ca.
Proof.
  unfold element_chunk, chunk_arrays.
  destruct (element_length _ _ _) as [n|ex] eqn:Hlen; [|done].
  rewrite (element_length_Ok _ _ _ _ Hlen). clear Hlen. ok_bind. cbv zeta.
  destruct (np_empty (ens_analog_channels ensemble) _) as [a0|ex] eqn:Ha; [|done].
  destruct (np_empty (ens_digital_channels ensemble) _) as [d0|ex] eqn:Hd; [|done].
  apply np_empty_Ok in Ha as [Hn ->]. apply np_empty_Ok in Hd as [_ ->]. simpl.
  destruct (fill_digital _ _ _ _) as [d1|ex]; [|done]. simpl.
  destruct (fill_analog _ _ _ _ _ _) as [a1|ex]; [|done]. simpl.
  by intros [= <- <-].
Qed.

Lemma element_chunk_length g ensemble names off k e c :
  element_chunk g ensemble names off k e = Ok c →
  element_length (sample_rate g) k e = Ok (element_length_bins (sample_rate g) k e).
Proof.
  unfold element_chunk.
  destruct (element_length _ _ _) as [n|ex] eqn:Hn; [|done].
  by rewrite (element_length_Ok _ _ _ _ Hn).
Qed.

Lemma element_chunk_shape g ensemble names off k e ca cd :
  element_chunk g ensemble names off k e = Ok (ca, cd) →
  let n := element_length_bins (sample_rate g) k e in
  0 ≤ n
  ∧ shaped (ens_analog_channels ensemble) ca ∧ ncols ca = Z.to_nat n
  ∧ shaped (ens_digital_channels ensemble) cd ∧ ncols cd = Z.to_nat n.
Proof.
  intros (Hn & Hd & Ha)%element_chunk_Ok. split; [done|].
  unfold fill_digital, fill_analog, enumerate in *.
  set (n := element_length_bins (sample_rate g) k e) in *.
  eapply (fill_rows_paste _ _ (mk_ndarray (Z.to_nat n) (replicate _ (replicate _ None)))
            0 n) in Hd as (_ & Hsd & Hcd);
    [|apply shaped_empty|apply shaped_empty|done|done|done|simpl; lia].
  eapply (fill_rows_paste _ _ (mk_ndarray (Z.to_nat n) (replicate _ (replicate _ None)))
            0 n) in Ha as (_ & Hsa & Hca);
    [|apply shaped_empty|apply shaped_empty|done|done|done|simpl; lia].
  done.
Qed.

(** One element in the monolithic branch: its chunk lands on the columns
    from the cursor on. *)
Lemma mono_step ensemble names N E w c tag k e off cf A D (ind : nat) g ca cd :
  c && w = false →
  element_chunk g ensemble names off k e = Ok (ca, cd) →
  shaped (ens_analog_channels ensemble) A →
  shaped (ens_digital_channels ensemble) D →
  blank_from ind A → blank_from ind D →
  (ind + ncols ca ≤ ncols A)%nat → (ind + ncols cd ≤ ncols D)%nat →
  sample_element ensemble names N E w c tag k e
    (mk_frame off cf (mono_locals A D (Z.of_nat ind))) g
  = (Ok (mk_frame
           (next_offset (ens_rotating_frame ensemble) off
              (element_length_bins (sample_rate g) k e))
           cf
           (mono_locals (paste A ind ca) (paste D ind cd)
              (Z.of_nat (ind + ncols ca)))), g).
Proof.
  intros Hcw Hch HA HD HbA HbD HleA HleD.
  destruct (element_chunk_shape _ _ _ _ _ _ _ _ Hch) as (Hn & Hsa & Hca & Hsd & Hcd).
  pose proof (element_chunk_length _ _ _ _ _ _ _ Hch) as Hlen.
  apply element_chunk_Ok in Hch as (_ & Hd & Ha).
  unfold sample_element. rewrite Hcw. run. rewrite Hlen.
  cbn [mode offset_bin created_files].
  unfold fill_digital, fill_analog, enumerate in *.
  set (n := element_length_bins (sample_rate g) k e) in *.
  eapply (fill_rows_paste _ _ D (Z.of_nat ind) n) in Hd as (Hd & _);
    [|done|apply shaped_empty|lia|done|done|simpl; lia].
  eapply (fill_rows_paste _ _ A (Z.of_nat ind) n) in Ha as (Ha & _);
    [|done|apply shaped_empty|lia|done|done|simpl; lia].
  rewrite Nat2Z.id in Hd, Ha.
  rewrite paste_blank in Hd by (done || lia).
  rewrite paste_blank in Ha by (done || lia).
  rewrite Hd, Ha.
  replace (Z.of_nat ind + n) with (Z.of_nat (ind + ncols ca)) by lia.
  unfold next_offset. by destruct (ens_rotating_frame ensemble).
Qed.

(** ** The element loop in its two branches *)

Lemma final_offset_cons rot off n lens :
  final_offset rot off (n :: lens) = final_offset rot (next_offset rot off n) lens.
Proof. unfold final_offset, next_offset. destruct rot; simpl; lia. Qed.

Lemma sample_elements_shape g ensemble names off tr chunks :
  sample_elements g ensemble names off tr = Ok chunks →
  Forall (shaped (ens_analog_channels ensemble)) chunks.*1
  ∧ Forall (shaped (ens_digital_channels ensemble)) chunks.*2
  ∧ ncols <$> chunks.*1 = Z.to_nat <$> lengths_of g tr
  ∧ ncols <$> chunks.*2 = Z.to_nat <$> lengths_of g tr
  ∧ Forall (λ n, 0 ≤ n) (lengths_of g tr).
Proof.
  revert off chunks. induction tr as [|[k e] tr IH]; intros off chunks; simpl.
  - intros [= <-]. simpl. repeat split; constructor.
  - destruct (element_chunk _ _ _ _ _ _) as [[ca cd]|ex] eqn:Hch; [|done]. simpl.
    destruct (sample_elements _ _ _ _ _) as [chs|ex] eqn:Hrest; [|done]. simpl.
    intros [= <-]. apply IH in Hrest as (Ha & Hd & Hna & Hnd & Hpos).
    apply element_chunk_shape in Hch as (Hn & Hsa & Hca & Hsd & Hcd).
    unfold lengths_of in *. rewrite !fmap_cons. cbn [fst snd].
    rewrite Hna, Hnd, Hca, Hcd. repeat split; by constructor.
Qed.

Lemma sum_list_cons (x : nat) (l : list nat) :
  sum_list (x :: l) = (x + sum_list l)%nat.
Proof. done. Qed.

Lemma sum_widths (lens : list Z) :
  Forall (λ n, 0 ≤ n) lens → Z.of_nat (sum_list (Z.to_nat <$> lens)) = sum_bins lens.
Proof.
  induction 1 as [|n lens Hn _ IH]; [done|].
  rewrite fmap_cons. unfold sum_bins in *. rewrite sum_list_cons. cbn [foldr]. lia.
Qed.

Lemma mono_loop ensemble names N E w c tag g tr :
  c && w = false →
  ∀ off cf A D (ind : nat) chunks,
  sample_elements g ensemble names off tr = Ok chunks →
  shaped (ens_analog_channels ensemble) A →
  shaped (ens_digital_channels ensemble) D →
  blank_from ind A → blank_from ind D →
  (ind + sum_list (ncols <$> chunks.*1) ≤ ncols A)%nat →
  (ind + sum_list (ncols <$> chunks.*1) ≤ ncols D)%nat →
  for_each tr
    (λ '(rep_no, block_element) fr,
      sample_element ensemble names N E w c tag rep_no block_element fr)
    (mk_frame off cf (mono_locals A D (Z.of_nat ind))) g
  = (Ok (mk_frame (final_offset (ens_rotating_frame ensemble) off (lengths_of g tr)) cf
           (mono_locals (paste_all A ind chunks.*1) (paste_all D ind chunks.*2)
              (Z.of_nat (ind + sum_list (ncols <$> chunks.*1))))), g).
Proof.
  intros Hcw. induction tr as [|[k e] tr IH];
    intros off cf A D ind chunks Hs HA HD HbA HbD HleA HleD.
  - simpl in Hs. injection Hs as <-. simpl. unfold final_offset.
    rewrite Nat.add_0_r, Z.add_0_r. by destruct (ens_rotating_frame ensemble).
  - simpl in Hs.
    destruct (element_chunk _ _ _ _ _ _) as [[ca cd]|ex] eqn:Hch; [|done].
    simpl in Hs. destruct (sample_elements _ _ _ _ _) as [chs|ex] eqn:Hrest; [|done].
    simpl in Hs. injection Hs as <-.
    rewrite !fmap_cons, sum_list_cons in HleA. rewrite !fmap_cons, sum_list_cons in HleD.
    rewrite !fmap_cons, sum_list_cons. cbn [fst snd] in *.
    destruct (element_chunk_shape _ _ _ _ _ _ _ _ Hch) as (Hn & Hsa & Hca & Hsd & Hcd).
    cbn [for_each]. run.
    rewrite (mono_step _ _ _ _ _ _ _ _ _ _ _ _ _ _ _ ca cd) by (done || lia).
    destruct (paste_shaped _ A ca ind HA Hsa) as [HA1 HnA1]; [lia|].
    destruct (paste_shaped _ D cd ind HD Hsd) as [HD1 HnD1]; [lia|].
    rewrite (IH _ cf (paste A ind ca) (paste D ind cd) (ind + ncols ca)%nat chs);
      try done.
    + cbn [paste_all]. unfold lengths_of. rewrite fmap_cons, final_offset_cons.
      replace (ind + ncols cd)%nat with (ind + ncols ca)%nat by lia.
      by rewrite Nat.add_assoc.
    + apply (blank_paste (ens_analog_channels ensemble) A ca ind); (done || lia).
    + replace (ind + ncols ca)%nat with (ind + ncols cd)%nat by lia.
      apply (blank_paste (ens_digital_channels ensemble) D cd ind); (done || lia).
    + rewrite HnA1. lia.
    + rewrite HnD1. lia.
Qed.

(** One element in the chunked branch. *)
Lemma chunk_step ensemble names N E tag k e off cf first last count g :
  sample_element ensemble names N E true true tag k e
    (mk_frame off cf (chunk_locals first last count)) g
  = match element_chunk g ensemble names off k e with
    | Raise ex => (Raise ex, g)
    | Ok (a, d) =>
        match _write_to_file (waveform_format g) with
        | None => (Raise KeyError, g)
        | Some writer =>
            let last' :=
              if decide (S count = E) then true else last in
            (Ok (mk_frame
                   (next_offset (ens_rotating_frame ensemble) off
                      (element_length_bins (sample_rate g) k e))
                   (Some (writer (ens_name ensemble +:+ tag) a d N first last'))
                   (chunk_locals false last' (S count))),
             set_writer_calls
               (writer_calls g ++
                [write_waveform (waveform_format g) (ens_name ensemble +:+ tag)
                   a d N first last']) g)
        end
    end.
Proof.
  unfold sample_element, element_chunk, call_waveform_writer. run. simpl.
  destruct (element_length _ _ _) as [n|ex] eqn:Hn; [|done].
  rewrite (element_length_Ok _ _ _ _ Hn). ok_bind. simpl.
  destruct (chunk_arrays _ _ _ _ _ _) as [[a d]|ex]; [|done].
  destruct (_write_to_file _) as [writer|]; [|done]. simpl.
  unfold next_offset. by destruct (ens_rotating_frame ensemble).
Qed.

Lemma element_chunk_writes g ensemble names off k e calls :
  element_chunk (set_writer_calls calls g) ensemble names off k e
  = element_chunk g ensemble names off k e.
Proof. reflexivity. Qed.

Lemma sample_elements_writes g ensemble names off tr calls :
  sample_elements (set_writer_calls calls g) ensemble names off tr
  = sample_elements g ensemble names off tr.
Proof.
  revert off. induction tr as [|[k e] tr IH]; intros off; simpl; [done|].
  rewrite element_chunk_writes. destruct (element_chunk _ _ _ _ _ _); [|done].
  simpl. by rewrite IH.
Qed.

Lemma chunk_loop ensemble names N E tag tr :
  ∀ off cf first last count g fr' g',
  for_each tr
    (λ '(rep_no, block_element) fr,
      sample_element ensemble names N E true true tag rep_no block_element fr)
    (mk_frame off cf (chunk_locals first last count)) g = (Ok fr', g') →
  ∃ chunks calls,
    sample_elements g ensemble names off tr = Ok chunks
    ∧ g' = set_writer_calls (writer_calls g ++ calls) g
    ∧ waveform_payload <$> calls = Some <$> chunks
    ∧ offset_bin fr' = final_offset (ens_rotating_frame ensemble) off (lengths_of g tr)
    ∧ (tr = [] → created_files fr' = cf)
    ∧ (tr ≠ [] → is_Some (created_files fr') ∧ is_Some (_write_to_file (waveform_format g))).
Proof.
  induction tr as [|[k e] tr IH]; intros off cf first last count g fr' g'.
  - simpl. intros [= <- <-]. exists [], []. simpl. rewrite app_nil_r.
    repeat split; try done. + by destruct g.
    + unfold final_offset. destruct (ens_rotating_frame ensemble); simpl; lia.
  - cbn [for_each]. run. rewrite chunk_step.
    destruct (element_chunk _ _ _ _ _ _) as [[a d]|ex] eqn:Hch; [|done].
    destruct (_write_to_file _) as [writer|] eqn:Hw; [|done]. cbv zeta.
    intros Hrest. apply IH in Hrest
      as (chunks & calls & Hs & -> & Hp & Hoff & Hnil & Hcons).
    rewrite sample_elements_writes in Hs. cbn [offset_bin] in Hs, Hoff.
    eexists ((a, d) :: chunks), (_ :: calls).
    split; [cbn [sample_elements]; by rewrite Hch, Hs|].
    split; [unfold set_writer_calls; simpl; rewrite <- app_assoc; reflexivity|].
    split; [by rewrite !fmap_cons, Hp|].
    split; [unfold lengths_of; by rewrite fmap_cons, final_offset_cons|].
    split; [done|]. intros _. split; [|done].
    destruct tr; [by rewrite Hnil|by apply Hcons].
Qed.

(** ** Pasted chunks are the chunks laid side by side *)

Lemma hstack_cons {A} (c : nat) (ch : ndarray A) (chs : list (ndarray A)) :
  hstack c (ch :: chs)
  = mk_ndarray (ncols ch + ncols (hstack c chs))
      (zip_with app (rows ch) (rows (hstack c chs))).
Proof. done. Qed.

Lemma hstack_rows_length {A} (c : nat) (chs : list (ndarray A)) :
  Forall (shaped c) chs → length (rows (hstack c chs)) = c.
Proof.
  induction 1 as [|ch chs [Hc _] _ IH]; [apply length_replicate|].
  rewrite hstack_cons. cbn [rows]. rewrite length_zip_with, Hc, IH. lia.
Qed.

Lemma paste_all_ncols {A} (a : ndarray A) (e : nat) (chs : list (ndarray A)) :
  ncols (paste_all a e chs) = ncols a.
Proof.
  revert a e. induction chs as [|ch chs IH]; intros a e; [done|].
  simpl. by rewrite IH.
Qed.

Lemma paste_all_rows {A} (c : nat) (chs : list (ndarray A)) :
  Forall (shaped c) chs →
  ∀ (a : ndarray A) (e : nat),
  shaped c a → (e + sum_list (ncols <$> chs) = ncols a)%nat →
  rows (paste_all a e chs)
  = zip_with (λ row h, take e row ++ h) (rows a) (rows (hstack c chs)).
Proof.
  induction 1 as [|ch chs Hch Hchs IH]; intros a e Ha He.
  - simpl in *. destruct Ha as [Hc Hr]. apply list_eq. intros i.
    rewrite lookup_zip_with. destruct (rows a !! i) as [row|] eqn:Hi; [|done].
    rewrite lookup_replicate_2 by (apply lookup_lt_Some in Hi; lia). simpl.
    eapply (proj1 (Forall_lookup _ _)) in Hr; [|exact Hi].
    rewrite app_nil_r, take_ge by lia. done.
  - rewrite fmap_cons, sum_list_cons in He. cbn [paste_all].
    destruct (paste_shaped c a ch e Ha Hch) as [Hp Hnp]; [lia|].
    rewrite IH by (done || lia). rewrite hstack_cons. cbn [rows paste].
    destruct Ha as [Hc Hr]. destruct Hch as [Hcc Hrc].
    apply list_eq. intros i. rewrite !lookup_zip_with.
    destruct (rows a !! i) as [row|] eqn:Hi; [|done].
    destruct (rows ch !! i) as [crow|] eqn:Hci; [|reflexivity].
    destruct (rows (hstack c chs) !! i) as [h|]; [|reflexivity]. simpl. f_equal.
    eapply (proj1 (Forall_lookup _ _)) in Hr; [|exact Hi].
    eapply (proj1 (Forall_lookup _ _)) in Hrc; [|exact Hci].
    rewrite app_assoc, take_app_length'; [by rewrite <- app_assoc|].
    rewrite length_app, length_take. lia.
Qed.

Lemma ndarray_eq {A} (a b : ndarray A) :
  ncols a = ncols b → rows a = rows b → a = b.
Proof. destruct a, b. simpl. by intros -> ->. Qed.

Lemma paste_all_empty {A} (c N : nat) (chs : list (ndarray A)) :
  Forall (shaped c) chs → sum_list (ncols <$> chs) = N →
  paste_all (mk_ndarray N (replicate c (replicate N None))) 0 chs = hstack c chs.
Proof.
  intros Hchs HN. apply ndarray_eq.
  - rewrite paste_all_ncols. cbn [ncols hstack]. by rewrite HN.
  - rewrite (paste_all_rows c) by (done || apply shaped_empty). cbn [rows].
    pose proof (hstack_rows_length c chs Hchs) as Hlen.
    apply list_eq. intros i. rewrite lookup_zip_with.
    destruct (rows (hstack c chs) !! i) as [h|] eqn:Hi.
    + rewrite lookup_replicate_2 by (apply lookup_lt_Some in Hi; lia). done.
    + by destruct (replicate c (replicate N None) !! i).
Qed.


(** ** The two modes of the ensemble sampler *)

Lemma entered_config name w off tag g :
  let g1 := entered name w off tag g in
  sample_rate g1 = sample_rate g
  ∧ amplitude_dict g1 = amplitude_dict g
  ∧ waveform_format g1 = waveform_format g.
Proof.
  unfold entered. simpl. destruct w; repeat case_decide; done.
Qed.

Lemma element_chunk_config g1 g2 ensemble names off k e :
  sample_rate g1 = sample_rate g2 → amplitude_dict g1 = amplitude_dict g2 →
  element_chunk g1 ensemble names off k e = element_chunk g2 ensemble names off k e.
Proof.
  intros Hr Ha. unfold element_chunk, chunk_arrays, fill_analog, analog_value.
  by rewrite Hr, Ha.
Qed.

Lemma sample_elements_config g1 g2 ensemble names off tr :
  sample_rate g1 = sample_rate g2 → amplitude_dict g1 = amplitude_dict g2 →
  sample_elements g1 ensemble names off tr = sample_elements g2 ensemble names off tr.
Proof.
  intros Hr Ha. revert off. induction tr as [|[k e] tr IH]; intros off; simpl; [done|].
  rewrite (element_chunk_config g1 g2) by done.
  destruct (element_chunk _ _ _ _ _ _); [|done]. simpl. by rewrite IH, Hr.
Qed.

Lemma mismatch_false g (ensemble : PulseBlockEnsemble) :
  digital_channels g = ens_digital_channels ensemble →
  analog_channels g = ens_analog_channels ensemble →
  bool_decide (digital_channels g ≠ ens_digital_channels ensemble)
  || bool_decide (analog_channels g ≠ ens_analog_channels ensemble) = false.
Proof.
  intros Hd Ha. apply orb_false_iff. split; by apply bool_decide_eq_false; intros ?.
Qed.

(** A chunked call that returns has sampled every element of the traversal
    from the running offset and handed each chunk to the writer. *)
Lemma chunked_call g name off tag ensemble res g' :
  saved_pulse_block_ensembles g !! name = Some ensemble →
  digital_channels g = ens_digital_channels ensemble →
  analog_channels g = ens_analog_channels ensemble →
  sample_pulse_block_ensemble name true true off tag g = (Ok res, g') →
  ∃ chunks calls files,
    sample_elements g ensemble
      (List.filter (str_contains "a_ch") (activation_config g)) off
      (traversal ensemble) = Ok chunks
    ∧ writer_calls g' = writer_calls g ++ calls
    ∧ waveform_payload <$> calls = Some <$> chunks
    ∧ res = (py_empty_list, py_empty_list, files,
             final_offset (ens_rotating_frame ensemble) off
               (state_lengths (sample_rate g) ensemble))
    ∧ is_Some (_write_to_file (waveform_format g))
    ∧ analysis_error (sample_rate g) ensemble = None.
Proof.
  intros Hs Hd Ha. rewrite sample_pulse_block_ensemble_unfold, Hs. cbv zeta.
  rewrite mismatch_false by done.
  destruct (analysis_error _ _) as [ex|]; [done|].
  unfold initial_locals. simpl. run.
  rewrite element_loop_traversal.
  match goal with
  | |- context [@for_each M _ _ _ _ ?xs ?b ?a ?g0] =>
      destruct (@for_each M _ _ _ _ xs b a g0) as [[fr|ex] g2] eqn:Hloop; [|done]
  end.
  apply chunk_loop in Hloop as (chunks & calls & Hse & -> & Hp & Hoff & Hnil & Hcons).
  destruct (entered_config name true off tag g) as (Hr & Had & Hwf).
  destruct (entered_fields name true off tag g) as (_ & _ & Hwc & _).
  rewrite (sample_elements_config _ g) in Hse by done.
  unfold sample_return. destruct fr as [off' cf locals].
  cbn [offset_bin created_files] in Hoff, Hnil, Hcons. run. simpl.
  destruct (traversal ensemble) as [|x tr] eqn:Htr.
  { rewrite Hnil by done. by destruct (bool_decide _). }
  destruct Hcons as [[files ->] Hw]; [done|].
  unfold lengths_of in Hoff. rewrite Hr, <- Htr in Hoff.
  destruct (bool_decide _); simpl; intros [= <- <-]; simpl;
    exists chunks, calls, files; rewrite Hwc, <- Hwf, Hoff; done.
Qed.

(** When every element of the traversal can be sampled, the monolithic call
    returns, having handed the writer the chunks laid side by side. *)
Lemma monolithic_call g name off tag ensemble chunks writer :
  saved_pulse_block_ensembles g !! name = Some ensemble →
  digital_channels g = ens_digital_channels ensemble →
  analog_channels g = ens_analog_channels ensemble →
  analysis_error (sample_rate g) ensemble = None →
  sum_bins (state_lengths (sample_rate g) ensemble) < int_bound →
  sample_elements g ensemble
    (List.filter (str_contains "a_ch") (activation_config g)) off
    (traversal ensemble) = Ok chunks →
  _write_to_file (waveform_format g) = Some writer →
  let N := np_sum (state_lengths (sample_rate g) ensemble) in
  let analog := hstack (ens_analog_channels ensemble) chunks.*1 in
  let digital := hstack (ens_digital_channels ensemble) chunks.*2 in
  ∃ g',
    sample_pulse_block_ensemble name true false off tag g
    = (Ok (py_empty_list, py_empty_list,
           writer (ens_name ensemble +:+ tag) analog digital N true true,
           final_offset (ens_rotating_frame ensemble) off
             (state_lengths (sample_rate g) ensemble)), g')
    ∧ writer_calls g'
      = writer_calls g ++
        [write_waveform (waveform_format g) (ens_name ensemble +:+ tag)
           analog digital N true true].
Proof.
  intros Hs Hd Ha Hae Hfit Hse Hw. cbv zeta.
  rewrite sample_pulse_block_ensemble_unfold, Hs. cbv zeta.
  rewrite mismatch_false, Hae by done.
  destruct (entered_config name true off tag g) as (Hr & Had & Hwf).
  destruct (entered_fields name true off tag g) as (_ & _ & Hwc & _).
  destruct (sample_elements_shape _ _ _ _ _ _ Hse) as (Hsa & Hsd & Hna & Hnd & Hpos).
  pose proof (sum_widths _ Hpos) as Hsum.
  change (lengths_of g (traversal ensemble))
    with (state_lengths (sample_rate g) ensemble) in *.
  unfold np_sum. rewrite int_wrap_in_range by lia.
  set (N := sum_bins (state_lengths (sample_rate g) ensemble)) in *.
  assert (0 ≤ N) as HN by lia.
  unfold initial_locals, np_empty. simpl.
  destruct (Z.ltb_spec N 0) as [?|_]; [lia|]. simpl. run.
  rewrite element_loop_traversal.
  rewrite <- (sample_elements_config (entered name true off tag g)) in Hse by done.
  pose proof (mono_loop ensemble
                (List.filter (str_contains "a_ch") (activation_config g)) N
                (total_elements ensemble) true false tag
                (entered name true off tag g) (traversal ensemble) eq_refl
                off None _ _ 0%nat chunks Hse
                (shaped_empty (ens_analog_channels ensemble) (Z.to_nat N))
                (shaped_empty (ens_digital_channels ensemble) (Z.to_nat N))
                (blank_empty _ _) (blank_empty _ _)) as Hloop.
  change (Z.of_nat 0) with 0 in Hloop. cbn [Nat.add] in Hloop.
  rewrite Hloop; [|cbn [ncols]; rewrite Hna; lia..]. clear Hloop.
  unfold sample_return, call_waveform_writer. run. simpl.
  rewrite Hwf, Hw. simpl.
  rewrite !paste_all_empty by (done || (rewrite ?Hna, ?Hnd; lia)).
  unfold lengths_of. rewrite Hr.
  destruct (bool_decide _); simpl; eexists; (split; [reflexivity|]);
    simpl; by rewrite Hwc.
Qed.

(** ** The running offset in every mode *)

Lemma sample_element_offset ensemble names N E w c tag k e fr g fr' g' :
  sample_element ensemble names N E w c tag k e fr g = (Ok fr', g') →
  offset_bin fr'
  = next_offset (ens_rotating_frame ensemble) (offset_bin fr)
      (element_length_bins (sample_rate g) k e).
Proof.
  unfold sample_element, call_waveform_writer, next_offset. run.
  destruct (element_length _ _ _) as [n|ex] eqn:Hn; [|done].
  rewrite (element_length_Ok _ _ _ _ Hn).
  destruct (c && w).
  - destruct (mode fr) as [first last count|A D ind]; [|done].
    destruct (chunk_arrays _ _ _ _ _ _) as [[a d]|ex]; [|done].
    destruct (gettable _) as [wr|ex]; [|done].
    destruct (ens_rotating_frame ensemble); by intros [= <- <-].
  - destruct (mode fr) as [first last count|A D ind]; [done|].
    destruct (fill_digital _ _ _ _) as [D'|ex]; [|done].
    destruct (fill_analog _ _ _ _ _ _) as [A'|ex]; [|done].
    destruct (ens_rotating_frame ensemble); by intros [= <- <-].
Qed.

Lemma for_each_offset ensemble names N E w c tag tr :
  ∀ fr g fr' g',
  for_each tr
    (λ '(rep_no, block_element) fr,
      sample_element ensemble names N E w c tag rep_no block_element fr) fr g
  = (Ok fr', g') →
  offset_bin fr'
  = final_offset (ens_rotating_frame ensemble) (offset_bin fr) (lengths_of g tr).
Proof.
  induction tr as [|[k e] tr IH]; intros fr g fr' g'.
  - simpl. intros [= <- <-]. unfold final_offset.
    destruct (ens_rotating_frame ensemble); simpl; lia.
  - cbn [for_each]. run.
    destruct (sample_element _ _ _ _ _ _ _ _ _ _ _) as [[fr1|ex] g1] eqn:Hstep; [|done].
    intros Hrest. apply IH in Hrest.
    pose proof (sample_element_writes _ _ _ _ _ _ _ _ _ _ _ _ _ Hstep) as [calls ->].
    apply sample_element_offset in Hstep.
    unfold lengths_of in *. rewrite fmap_cons, final_offset_cons, <- Hstep. exact Hrest.
Qed.

Lemma sample_return_offset name ensemble N w c tag in_progress fr g res g' :
  sample_return name ensemble N w c tag in_progress fr g = (Ok res, g') →
  res.2 = offset_bin fr.
Proof.
  unfold sample_return, call_waveform_writer. destruct fr as [off cf locals]. run.
  destruct w, c, in_progress, locals as [first last count|A D ind], cf as [files|];
    simpl; try destruct (gettable _) as [wr|ex]; simpl; by intros [= <- <-].
Qed.

(** A call that passes the mismatch gate and returns, returns the caller's
    offset advanced by every element in the rotating frame, and the
    caller's offset otherwise. *)
Lemma call_offset g name w c off tag ensemble res g' :
  saved_pulse_block_ensembles g !! name = Some ensemble →
  digital_channels g = ens_digital_channels ensemble →
  analog_channels g = ens_analog_channels ensemble →
  sample_pulse_block_ensemble name w c off tag g = (Ok res, g') →
  res.2 = final_offset (ens_rotating_frame ensemble) off
            (state_lengths (sample_rate g) ensemble).
Proof.
  intros Hs Hd Ha. rewrite sample_pulse_block_ensemble_unfold, Hs. cbv zeta.
  rewrite mismatch_false by done.
  destruct (analysis_error _ _) as [ex|]; [done|].
  destruct (initial_locals _ _ _ _) as [locals|ex]; [|done]. run.
  rewrite element_loop_traversal.
  match goal with
  | |- context [@for_each M _ _ _ _ ?xs ?b ?a ?g0] =>
      destruct (@for_each M _ _ _ _ xs b a g0) as [[fr|ex] g2] eqn:Hloop; [|done]
  end.
  apply for_each_offset in Hloop. intros ->%sample_return_offset.
  rewrite Hloop. unfold lengths_of.
  by rewrite (proj1 (entered_config name w off tag g)).
Qed.

(** ** The width of the arrays in the monolithic branch *)






(** ** From the monolithic run back to the chunks *)







(** With [write_to_file] false the flag [chunkwise] changes nothing. *)
Lemma chunkwise_without_write g name off tag :
  sample_pulse_block_ensemble name false true off tag g
  = sample_pulse_block_ensemble name false false off tag g.
Proof. reflexivity. Qed.



(** X21. For an ensemble that the generator is configured for and whose
    bins add up to less than the bound of [dtype=int]: when sampling it
    chunked from [offset_bin] returns, sampling it monolithically from the
    same [offset_bin] returns the same new offset, and the arrays of its one
    writer call are the chunks of the chunked run laid side by side in
    traversal order, for the analog and for the digital samples. (With
    [write_to_file] false both values of [chunkwise] run the same
    branch.) *)
Theorem chunked_and_monolithic_agree (g : SequenceGeneratorLogic)
    (ensemble_name : string) (offset_bin : Z) (name_tag : string)
    (ensemble : PulseBlockEnsemble)
    (res : samples float32 * samples bool * list string * Z)
    (g_chunked : SequenceGeneratorLogic) :
  saved_pulse_block_ensembles g !! ensemble_name = Some ensemble →
  digital_channels g = ens_digital_channels ensemble →
  analog_channels g = ens_analog_channels ensemble →
  sum_bins (state_lengths (sample_rate g) ensemble) < int_bound →
  sample_pulse_block_ensemble ensemble_name true true offset_bin name_tag g
  = (Ok res, g_chunked) →
  ∃ calls chunks files g_monolithic total,
    writer_calls g_chunked = writer_calls g ++ calls
    ∧ waveform_payload <$> calls = Some <$> chunks
    ∧ sample_pulse_block_ensemble ensemble_name true false offset_bin name_tag g
      = (Ok (py_empty_list, py_empty_list, files, res.2), g_monolithic)
    ∧ writer_calls g_monolithic
      = writer_calls g ++
        [write_waveform (waveform_format g) (ens_name ensemble +:+ name_tag)
           (hstack (ens_analog_channels ensemble) chunks.*1)
           (hstack (ens_digital_channels ensemble) chunks.*2)
           total true true]
    ∧ sample_pulse_block_ensemble ensemble_name false true offset_bin name_tag g
      = sample_pulse_block_ensemble ensemble_name false false offset_bin name_tag g.
Proof.
  intros Hs Hd Ha Hfit Hc.
  destruct (chunked_call _ _ _ _ _ _ _ Hs Hd Ha Hc)
    as (chunks & calls & files & Hse & Hcalls & Hp & -> & [writer Hw] & Hae).
  destruct (monolithic_call _ ensemble_name offset_bin name_tag _ _ _
              Hs Hd Ha Hae Hfit Hse Hw) as (g_m & Hm & Hcalls_m).
  exists calls, chunks. eexists _, g_m, _.
  repeat split; [done|done|exact Hm|exact Hcalls_m].
Qed.



(** ** The sequence sampler *)

Lemma quiet_call g0 g name w c off tag r g' :
  quiet g0 g →
  sample_pulse_block_ensemble name w c off tag g = (r, g') →
  quiet g0 g'.
Proof.
  intros (Hst & evs & Hevs & Hno) (_ & Hl)%sample_call_footprint.
  destruct (Hl Hst) as (Hst' & evs' & Hevs' & Hno'). split; [done|].
  exists (evs ++ evs'). rewrite Hevs', Hevs, app_assoc. split; [done|].
  intros n [?|?]%elem_of_app; [by eapply Hno|by eapply Hno'].
Qed.

Lemma quiet_emit g0 g e :
  (∀ n, e ≠ sigSampleEnsembleComplete n) →
  quiet g0 g → quiet g0 (set_events (events g ++ [e]) g).
Proof.
  intros He (Hst & evs & Hevs & Hno). split; [done|]. simpl.
  exists (evs ++ [e]). rewrite Hevs, app_assoc. split; [done|].
  intros n [?|Hin%list_elem_of_singleton]%elem_of_app; [by eapply Hno|].
  by eapply He.
Qed.

Lemma for_each_state_invariant {X A} (I : SequenceGeneratorLogic → Prop)
    (xs : list X) (body : X → A → M A) :
  (∀ x a g r g', I g → body x a g = (r, g') → I g') →
  ∀ a g r g', I g → for_each xs body a g = (r, g') → I g'.
Proof.
  intros Hb. induction xs as [|x xs IH]; intros a g r g' HI; simpl.
  - by intros [= <- <-].
  - run. destruct (body x a g) as [[a1|ex] g1] eqn:Hx; apply Hb in Hx; try done.
    + by apply IH.
    + by intros [= <- <-].
Qed.

(** The loop of a sequence outside the rotating frame over the distinct
    ensemble names: one call per name, in order, each from offset 0 and
    without name tag, up to the first that raises. *)
Lemma sample_distinct_loop (w c : bool) (keys : list string) :
  ∀ (sampled : gmap string (list string)) g r g',
  for_each keys
    (λ ensemble_name (sampled_ensembles : gmap string (list string)),
      g ← get;
      ensemble_obj ← lift (getitem (saved_pulse_block_ensembles g) ensemble_name);
      '(dummy1, dummy2, created_files, offset_bin) ←
        sample_pulse_block_ensemble ensemble_name w c 0 "";
      mret (<[ensemble_name := created_files]> sampled_ensembles))
    sampled g = (r, g') →
  ∃ called,
    called `prefix_of` keys
    ∧ sampling_calls g' = sampling_calls g ++ ((λ n, (n, 0, "")) <$> called)
    ∧ ∀ sampled', r = Ok sampled' →
        called = keys ∧ dom sampled' = dom sampled ∪ list_to_set keys.
Proof.
  induction keys as [|key keys IH]; intros sampled g r g'.
  - simpl. intros [= <- <-]. exists []. simpl. rewrite app_nil_r.
    split; [done|]. split; [done|]. intros sampled' [= <-]. split; [done|].
    by rewrite (right_id_L ∅ (∪)).
  - cbn [for_each]. run. unfold getitem.
    destruct (saved_pulse_block_ensembles g !! key) as [ens|].
    2: { intros [= <- <-]. exists []. simpl. rewrite app_nil_r.
         split; [apply prefix_nil|]. by split. }
    destruct (sample_pulse_block_ensemble key w c 0 "" g)
      as [[[[[d1 d2] files] off]|ex] g1] eqn:Hcall;
      pose proof (proj1 (sample_call_footprint _ _ _ _ _ _ _ _ Hcall)) as Hsc.
    2: { intros [= <- <-]. exists [key]. simpl.
         split; [by apply prefix_cons, prefix_nil|]. by split. }
    intros (called & Hpre & Hcalls & Hok)%IH.
    exists (key :: called). rewrite Hcalls, Hsc, <- app_assoc.
    split; [by apply prefix_cons|]. split; [done|].
    intros sampled' [-> Hdom]%Hok. split; [done|].
    rewrite Hdom, dom_insert_L, list_to_set_cons.
    by rewrite (comm_L (∪) {[key]}), (assoc_L (∪)).
Qed.

(** The loop that maps every occurrence to the files of its ensemble. *)
Lemma map_occurrences_loop (sampled : gmap string (list string))
    (epl : list (PulseBlockEnsemble * gmap string seq_value)) :
  ∀ lst g r g',
  for_each epl
    (λ '(ensemble_obj, seq_param) sequence_param_dict_list,
      files ← lift (getitem sampled (ens_name ensemble_obj));
      mret (sequence_param_dict_list ++ [step_descriptor files seq_param]))
    lst g = (r, g') →
  g' = g
  ∧ ∀ lst', r = Ok lst' →
      ∃ ds, lst' = lst ++ ds
        ∧ Forall2 (λ '(ensemble_obj, seq_param) d,
                    ∃ files, sampled !! ens_name ensemble_obj = Some files
                             ∧ d = step_descriptor files seq_param) epl ds.
Proof.
  induction epl as [|[ens p] epl IH]; intros lst g r g'.
  - simpl. intros [= <- <-]. split; [done|]. intros lst' [= <-].
    exists []. by rewrite app_nil_r.
  - cbn [for_each]. run. unfold getitem.
    destruct (sampled !! ens_name ens) as [files|] eqn:Hf; [|by intros [= <- <-]].
    intros [-> Hok]%IH. split; [done|]. intros lst' (ds & -> & HF)%Hok.
    exists (step_descriptor files p :: ds). rewrite <- app_assoc. split; [done|].
    constructor; [by exists files|done].
Qed.

Lemma bind_eq {A B} (m : M A) (f : A → M B) (g : SequenceGeneratorLogic) :
  (m ≫= f) g
  = match m g with
    | (Ok a, g1) => f a g1
    | (Raise e, g1) => (Raise e, g1)
    end.
Proof. reflexivity. Qed.

Lemma sample_sequence_distinct_spec sequence_obj w c g r g' :
  sample_sequence_distinct sequence_obj w c g = (r, g') →
  let keys := dict_keys (different_ensembles_dict sequence_obj) in
  ∃ called,
    called `prefix_of` keys
    ∧ sampling_calls g' = sampling_calls g ++ ((λ n, (n, 0, "")) <$> called)
    ∧ ∀ sampled lst, r = Ok (sampled, lst) →
        called = keys
        ∧ dom sampled = list_to_set keys
        ∧ Forall2 (λ '(ensemble_obj, seq_param) d,
                    ∃ files, sampled !! ens_name ensemble_obj = Some files
                             ∧ d = step_descriptor files seq_param)
            (ensemble_param_list sequence_obj) lst.
Proof.
  unfold sample_sequence_distinct. rewrite bind_eq.
  match goal with
  | |- context [@for_each M _ _ _ _ ?xs ?b ?a g] =>
      destruct (@for_each M _ _ _ _ xs b a g) as [[sampled|ex] g1] eqn:Hloop
  end; apply sample_distinct_loop in Hloop as (called & Hpre & Hcalls & Hok).
  2: { intros [= <- <-]. cbv zeta. exists called. by repeat split. }
  rewrite bind_eq.
  match goal with
  | |- context [@for_each M _ _ _ _ ?xs ?b ?a g1] =>
      destruct (@for_each M _ _ _ _ xs b a g1) as [[lst|ex] g2] eqn:Hmap
  end; apply map_occurrences_loop in Hmap as [-> Hlst].
  2: { intros [= <- <-]. cbv zeta. exists called. by repeat split. }
  intros [= <- <-]. cbv zeta. exists called. split; [done|]. split; [done|].
  intros sampled' lst' [= <- <-].
  destruct (Hok sampled eq_refl) as [-> Hdom].
  destruct (Hlst lst eq_refl) as (ds & -> & HF).
  split; [done|]. split; [|done].
  by rewrite Hdom, dom_empty_L, (left_id_L ∅ (∪)).
Qed.

Lemma sample_sequence_distinct_quiet sequence_obj w c g0 g r g' :
  quiet g0 g → sample_sequence_distinct sequence_obj w c g = (r, g') → quiet g0 g'.
Proof.
  intros Hq. unfold sample_sequence_distinct. rewrite bind_eq.
  match goal with
  | |- context [@for_each M _ _ _ _ ?xs ?b ?a g] =>
      assert (∀ x acc g2 r2 g2', quiet g0 g2 → b x acc g2 = (r2, g2') → quiet g0 g2')
        as Hbody;
      [|destruct (@for_each M _ _ _ _ xs b a g) as [[sampled|ex] g1] eqn:Hloop;
        apply (for_each_state_invariant (quiet g0) _ _ Hbody _ _ _ _ Hq) in Hloop]
  end.
  - intros key acc g2 r2 g2' Hq2. run. unfold getitem.
    destruct (saved_pulse_block_ensembles g2 !! key); [|by intros [= <- <-]].
    destruct (sample_pulse_block_ensemble key w c 0 "" g2)
      as [[[[[d1 d2] files] off]|ex'] g3] eqn:Hcall;
      pose proof (quiet_call g0 _ _ _ _ _ _ _ _ Hq2 Hcall); by intros [= <- <-].
  - rewrite bind_eq.
    match goal with
    | |- context [@for_each M _ _ _ _ ?xs ?b ?a g1] =>
        destruct (@for_each M _ _ _ _ xs b a g1) as [[lst|ex] g2] eqn:Hmap
    end; apply map_occurrences_loop in Hmap as [-> _]; by intros [= <- <-].
  - by intros [= <- <-].
Qed.

Lemma sample_sequence_rotating_quiet sequence_obj w c g0 g r g' :
  quiet g0 g → sample_sequence_rotating sequence_obj w c g = (r, g') → quiet g0 g'.
Proof.
  intros Hq. unfold sample_sequence_rotating. rewrite bind_eq.
  match goal with
  | |- context [@for_each M _ _ _ _ ?xs ?b ?a g] =>
      assert (∀ x acc g2 r2 g2', quiet g0 g2 → b x acc g2 = (r2, g2') → quiet g0 g2')
        as Hbody;
      [|destruct (@for_each M _ _ _ _ xs b a g) as [[acc|ex] g1] eqn:Hloop;
        apply (for_each_state_invariant (quiet g0) _ _ Hbody _ _ _ _ Hq) in Hloop]
  end.
  - intros [ens p] [[[sampled lst] index] off] g2 r2 g2' Hq2.
    run.
    match goal with
    | |- context [sample_pulse_block_ensemble ?n w c ?o ?t g2] =>
        destruct (sample_pulse_block_ensemble n w c o t g2)
          as [[[[[d1 d2] files] off']|ex'] g3] eqn:Hcall
    end;
      pose proof (quiet_call g0 _ _ _ _ _ _ _ _ Hq2 Hcall); by intros [= <- <-].
  - destruct acc as [[[sampled lst] index] off]. by intros [= <- <-].
  - by intros [= <- <-].
Qed.

Lemma sequence_tail name (sequence_obj : PulseSequence)
    (lst : list (gmap string dict_value)) g0 g r g' :
  quiet g0 g →
  (save_sequence name sequence_obj;;
   call_sequence_writer name lst;;
   emit log_info_time_needed;;
   emit (sigSampleSequenceComplete name);;
   unlock) g = (r, g') →
  sampling_calls g' = sampling_calls g
  ∧ (∃ evs, events g' = events g0 ++ evs ∧ ∀ n, sigSampleEnsembleComplete n ∉ evs)
  ∧ (r = Ok () →
     module_state g' = idle
     ∧ writer_calls g'
       = writer_calls g ++ [write_sequence (sequence_format g') name lst]
     ∧ saved_pulse_sequences g' !! name
       = Some (mk_sequence name (ensemble_param_list sequence_obj)
                 (different_ensembles_dict sequence_obj)
                 (seq_rotating_frame sequence_obj)
                 (sampled_ensembles sequence_obj) (seq_sample_rate sequence_obj)
                 (seq_amplitude_dict sequence_obj)
                 (seq_activation_config sequence_obj)
                 (seq_laser_channel sequence_obj))).
Proof.
  intros Hq. unfold save_sequence, call_sequence_writer. run. simpl.
  apply (quiet_emit g0 _ sigSequenceDictUpdated) in Hq; [|done].
  apply (quiet_emit g0 _ sigCurrentSequenceUpdated) in Hq; [|done].
  destruct (gettable _) as [[]|ex]; simpl.
  - apply (quiet_emit g0 _ log_info_time_needed) in Hq; [|done].
    apply (quiet_emit g0 _ (sigSampleSequenceComplete name)) in Hq; [|done].
    destruct Hq as [_ Hq]. simpl in Hq.
    intros [= <- <-]. simpl. split; [done|]. split; [exact Hq|]. intros _.
    split; [done|]. split; [done|]. apply lookup_insert_eq.
  - destruct Hq as [_ Hq]. simpl in Hq. intros [= <- <-]. simpl.
    split; [done|]. split; [exact Hq|]. done.
Qed.

(** [sample_pulse_sequence] on an idle module: its entry, which locks the
    module and deletes the old files, then one of the two branches and the
    common tail. *)
Lemma sample_pulse_sequence_idle name w c g :
  module_state g = idle →
  ∃ g1,
    quiet g g1
    ∧ sampling_calls g1 = sampling_calls g
    ∧ sample_pulse_sequence name w c g
      = match saved_pulse_sequences g !! name with
        | None => (Raise KeyError, g1)
        | Some sequence_obj =>
            ((if seq_rotating_frame sequence_obj
              then sample_sequence_rotating sequence_obj w c
              else sample_sequence_distinct sequence_obj w c)
             ≫= λ '(sampled_ensembles, sequence_param_dict_list),
                  save_sequence name
                    (set_sampled_ensembles sampled_ensembles sequence_obj);;
                  call_sequence_writer name sequence_param_dict_list;;
                  emit log_info_time_needed;;
                  emit (sigSampleSequenceComplete name);;
                  unlock) g1
        end.
Proof.
  intros Hidle. unfold sample_pulse_sequence.
  rewrite bind_eq. unfold getState at 1. rewrite Hidle.
  cbn [decide decide_rel module_state_eq_dec].
  assert (quiet g (set_module_state locked g)) as Hq.
  { split; [done|]. exists []. simpl. rewrite app_nil_r. split; [done|].
    intros n. apply not_elem_of_nil. }
  set (old := λ f : string, startswith f (name +:+ ".seq")).
  set (g2 := set_sequence_dir (List.filter (λ f, negb (old f)) (sequence_dir g))
               (set_module_state locked g)).
  assert (quiet g g2) as Hq2 by (destruct Hq as [? Hq']; by split).
  destruct w.
  - destruct (decide (length (List.filter old (sequence_dir g)) ≠ 0%nat))
      as [Hold|Hold].
    + exists (set_events
                (events g2 ++
                 [log_warning_old_sequence_deleted name
                    (List.filter old (sequence_dir g))]) g2).
      split; [by apply quiet_emit|]. split; [done|].
      subst g2 old. run. simpl. rewrite decide_True by done. unfold getitem.
      simpl. destruct (saved_pulse_sequences g !! name); reflexivity.
    + exists g2. split; [done|]. split; [done|].
      subst g2 old. run. simpl. rewrite decide_False by done. unfold getitem.
      simpl. destruct (saved_pulse_sequences g !! name); reflexivity.
  - exists (set_module_state locked g). split; [done|]. split; [done|].
    run. simpl. unfold getitem. simpl.
    destruct (saved_pulse_sequences g !! name); reflexivity.
Qed.

Lemma elem_of_dict_keys {A} (d : gmap string A) (n : string) :
  n ∈ dict_keys d ↔ n ∈ dom d.
Proof.
  unfold dict_keys. rewrite elem_of_dom, list_elem_of_fmap. split.
  - intros ([n' a] & -> & Hin). apply elem_of_map_to_list in Hin. by exists a.
  - intros [a Ha]. exists (n, a). split; [done|]. by apply elem_of_map_to_list.
Qed.

(** C8, as amended. On a busy module a sequence-level sample operation is
    rejected: it logs the busy condition and changes nothing else. An
    ensemble-level sample operation is not rejected: it takes the busy state
    for a sequence being sampled, leaves the module locked and does not
    announce completion. The ensemble-level calls made by one sequence-level
    operation on an idle module announce no completion, and when that
    operation returns the module is idle again. *)
Theorem busy_module_and_inner_calls (g : SequenceGeneratorLogic)
    (name : string) (write_to_file chunkwise : bool) :
  (module_state g = locked →
   sample_pulse_sequence name write_to_file chunkwise g
   = (Ok (), set_events (events g ++ [log_error_busy name]) g))
  ∧ (∀ offset_bin name_tag r g',
       module_state g = locked →
       sample_pulse_block_ensemble name write_to_file chunkwise offset_bin
         name_tag g = (r, g') →
       module_state g' = locked
       ∧ ∃ evs, events g' = events g ++ evs
           ∧ ∀ n, sigSampleEnsembleComplete n ∉ evs)
  ∧ (∀ r g',
       module_state g = idle →
       sample_pulse_sequence name write_to_file chunkwise g = (r, g') →
       (∃ evs, events g' = events g ++ evs
          ∧ ∀ n, sigSampleEnsembleComplete n ∉ evs)
       ∧ (r = Ok () → module_state g' = idle)).
Proof.
  split; [|split].
  - intros Hl. unfold sample_pulse_sequence. run. by rewrite Hl.
  - intros off tag r g' Hl Hcall.
    by apply (sample_call_footprint _ _ _ _ _ _ _ _ Hcall).
  - intros r g' Hidle Hrun.
    destruct (sample_pulse_sequence_idle name write_to_file chunkwise g Hidle)
      as (g1 & Hq & _ & Heq).
    rewrite Heq in Hrun. clear Heq.
    destruct (saved_pulse_sequences g !! name) as [sequence_obj|].
    2: { injection Hrun as <- <-. split; [apply Hq|done]. }
    rewrite bind_eq in Hrun.
    assert (∃ res g2,
      (if seq_rotating_frame sequence_obj
       then sample_sequence_rotating sequence_obj write_to_file chunkwise
       else sample_sequence_distinct sequence_obj write_to_file chunkwise) g1
      = (res, g2) ∧ quiet g g2) as (res & g2 & Hb & Hq2).
    { destruct (seq_rotating_frame sequence_obj).
      - destruct (sample_sequence_rotating sequence_obj write_to_file chunkwise g1)
          as [res g2] eqn:Hb. exists res, g2. split; [done|].
        by eapply sample_sequence_rotating_quiet.
      - destruct (sample_sequence_distinct sequence_obj write_to_file chunkwise g1)
          as [res g2] eqn:Hb. exists res, g2. split; [done|].
        by eapply sample_sequence_distinct_quiet. }
    rewrite Hb in Hrun. destruct res as [[sampled lst]|ex].
    + apply (sequence_tail _ _ _ _ _ _ _ Hq2) in Hrun as (_ & Hev & Hfin).
      split; [done|]. intros Hr. by apply Hfin.
    + injection Hrun as <- <-. split; [apply Hq2|done].
Qed.

(** C9, as amended. For a name with a registered generator method,
    [generate_predefined_sequence] invokes it and returns normally: when
    the method raises, the failure is logged under the name and no exception
    reaches the caller; when it returns, the generation is announced. For a
    name without a registered method the lookup's [KeyError] reaches the
    caller. *)
Theorem generate_predefined_sequence_spec
    (generate_methods : gmap string (list gen_arg → M ()))
    (predefined_sequence_name : string) (args : list gen_arg)
    (g : SequenceGeneratorLogic) :
  generate_predefined_sequence generate_methods predefined_sequence_name args g
  = match generate_methods !! predefined_sequence_name with
    | None => (Raise KeyError, g)
    | Some gen_method =>
        match gen_method args g with
        | (Ok _, g') =>
            (Ok (),
             set_events
               (events g' ++
                [sigPredefinedSequenceGenerated predefined_sequence_name]) g')
        | (Raise _, g') =>
            (Ok (),
             set_events
               (events g' ++
                [log_error_generation_failed predefined_sequence_name]) g')
        end
    end.
Proof.
  unfold generate_predefined_sequence, try_except, getitem. run.
  destruct (generate_methods !! predefined_sequence_name) as [gen_method|]; [|done].
  by destruct (gen_method args g) as [[[]|ex] g'].
Qed.

(** C10. Loading a stored ensemble replaces the generator's sample rate,
    amplitude dict, activation config and laser channel by the values
    stored with the ensemble, leaves each of them unchanged where the
    stored value is [None], and sets the pointer [current_ensemble] to the
    object; loading a stored sequence does the same with the values stored
    with the sequence and the pointer [current_sequence]. Neither asks for
    anything of the other store. *)
Theorem load_overwrites_settings (g : SequenceGeneratorLogic) (name : string) :
  (∀ ensemble,
     saved_pulse_block_ensembles g !! name = Some ensemble →
     ∃ g', load_ensemble name g = (Ok (), g')
       ∧ sample_rate g' = default (sample_rate g) (ens_sample_rate ensemble)
       ∧ amplitude_dict g'
         = default (amplitude_dict g) (ens_amplitude_dict ensemble)
       ∧ activation_config g'
         = default (activation_config g) (ens_activation_config ensemble)
       ∧ laser_channel g'
         = from_option Some (laser_channel g) (ens_laser_channel ensemble)
       ∧ current_ensemble g' = Some ensemble)
  ∧ (∀ sequence,
       saved_pulse_sequences g !! name = Some sequence →
       ∃ g', load_sequence name g = (Ok (), g')
         ∧ sample_rate g' = default (sample_rate g) (seq_sample_rate sequence)
         ∧ amplitude_dict g'
           = default (amplitude_dict g) (seq_amplitude_dict sequence)
         ∧ activation_config g'
           = default (activation_config g) (seq_activation_config sequence)
         ∧ laser_channel g'
           = from_option Some (laser_channel g) (seq_laser_channel sequence)
         ∧ current_sequence g' = Some sequence).
Proof.
  split.
  - intros ensemble He. unfold load_ensemble, set_if_not_None. run. rewrite He.
    destruct ensemble as [n bl a d [sr|] [ad|] [cfg|] [lc|] rf]; simpl;
      eexists; (split; [reflexivity|]); simpl; auto.
  - intros sequence Hs. unfold load_sequence, set_if_not_None. run. rewrite Hs.
    destruct sequence as [n l dd rf se [sr|] [ad|] [cfg|] [lc|]]; simpl;
      eexists; (split; [reflexivity|]); simpl; auto.
Qed.

End Properties.

(** * The properties on the concrete instance *)

(** A run whose result is known, paired with the state it leaves. *)
Lemma run_eq {A S} (p : A * S) (a : A) : p.1 = a → p = (a, p.2).
Proof. intros <-. by destruct p. Qed.

Section Concrete.

Import Example.
#[local] Existing Instance externals.

Lemma chunked_and_monolithic_agree_witness :
  ∃ calls chunks files g_monolithic total,
    writer_calls chunked_E.2 = writer_calls logic0 ++ calls
    ∧ waveform_payload <$> calls = Some <$> chunks
    ∧ sample_pulse_block_ensemble "E" true false 10 "" logic0
      = (Ok (py_empty_list, py_empty_list, files, 21), g_monolithic)
    ∧ writer_calls g_monolithic
      = writer_calls logic0 ++
        [write_waveform "wfmx" "E" (hstack 1 chunks.*1) (hstack 1 chunks.*2)
           total true true]
    ∧ sample_pulse_block_ensemble "E" false true 10 "" logic0
      = sample_pulse_block_ensemble "E" false false 10 "" logic0.
Proof.
  apply (chunked_and_monolithic_agree logic0 "E" 10 "" ensemble_E
           (py_empty_list, py_empty_list, ["E_ch1.wfmx"], 21) chunked_E.2);
    [reflexivity|reflexivity|reflexivity|vm_compute; reflexivity
    |apply run_eq; vm_compute; reflexivity].
Defined.




(** C4, as the claim words it, fails for the ensemble "H", whose one
    element has 2^63 bins: storing that length into the array of
    [dtype=int] raises [OverflowError], and the analysis pass returns
    nothing. *)
Lemma analysis_overflow_counterexample :
  ¬ ∃ res, _analyze_block_ensemble logic0 ensemble_huge = Ok res.
Proof.
  intros [res Heq].
  assert (_analyze_block_ensemble logic0 ensemble_huge = Raise OverflowError) as Hv
    by (vm_compute; reflexivity).
  rewrite Hv in Heq. discriminate Heq.
Qed.

Lemma channel_mismatch_returns_empty_witness :
  ∃ g', sample_pulse_block_ensemble "W" true true 5 "" logic0
        = (Ok (py_empty_list, py_empty_list, [""], 0), g')
      ∧ writer_calls g' = writer_calls logic0
      ∧ events g'
        = events (entered "W" true 5 "" logic0) ++
          [log_error_channel_mismatch "W" 1 1 2 4].
Proof.
  apply (channel_mismatch_returns_empty logic0 "W" true true 5 "" ensemble_wide);
    [reflexivity|left; simpl; lia].
Defined.

(** C5, as the claim words it, fails where the ensemble "W", declared for
    two analog and four digital channels, is sampled from offset 5 on the
    idle generator configured for one channel of each kind: the call
    returns the offset 0, not 5, and leaves the module locked. *)
Lemma channel_mismatch_counterexample :
  ¬ ∃ files g',
      sample_pulse_block_ensemble "W" true true 5 "" logic0
      = (Ok (py_empty_list, py_empty_list, files, 5), g')
      ∧ module_state g' = idle.
Proof.
  intros (files & g' & Heq & _). 
  apply (f_equal (λ r, match r.1 with Ok (_, _, _, o) => o | Raise _ => 5 end))
    in Heq.
  vm_compute in Heq. discriminate Heq.
Qed.

(** C6. The ensemble "E", which the generator is configured for, sampled
    with [write_to_file] false: the call raises [UnboundLocalError] where it
    should return the sample arrays, in either value of [chunkwise]. *)
Theorem write_to_file_false_raises_unbound_local :
  (sample_pulse_block_ensemble "E" false false 0 "" logic0).1
  = Raise UnboundLocalError
  ∧ (sample_pulse_block_ensemble "E" false true 0 "" logic0).1
    = Raise UnboundLocalError.
Proof. split; vm_compute; reflexivity. Qed.

Lemma busy_module_and_inner_calls_witness :
  sample_pulse_sequence "S" true true logic_busy
  = (Ok (), set_events (events logic_busy ++ [log_error_busy "S"]) logic_busy)
  ∧ (module_state (sample_pulse_block_ensemble "E" true true 0 "" logic_busy).2
     = locked
     ∧ ∃ evs,
         events (sample_pulse_block_ensemble "E" true true 0 "" logic_busy).2
         = events logic_busy ++ evs
         ∧ ∀ n, sigSampleEnsembleComplete n ∉ evs)
  ∧ ((∃ evs, events sampled_S.2 = events logic0 ++ evs
        ∧ ∀ n, sigSampleEnsembleComplete n ∉ evs)
     ∧ (sampled_S.1 = Ok () → module_state sampled_S.2 = idle)).
Proof.
  split; [|split].
  - apply (proj1 (busy_module_and_inner_calls logic_busy "S" true true)).
    reflexivity.
  - apply (proj1 (proj2 (busy_module_and_inner_calls logic_busy "E" true true))
             0 ""
             (sample_pulse_block_ensemble "E" true true 0 "" logic_busy).1);
      [reflexivity|apply surjective_pairing].
  - apply (proj2 (proj2 (busy_module_and_inner_calls logic0 "S" true true))
             sampled_S.1);
      [reflexivity|apply surjective_pairing].
Defined.

(** C8, as the claim words it, fails where the ensemble "E" is sampled on
    the busy generator: the operation is not rejected with nothing but a
    logged condition, it deletes the old file of "E" and makes four writer
    calls. *)
Lemma busy_ensemble_call_counterexample :
  ¬ ∃ r evs,
      sample_pulse_block_ensemble "E" true true 0 "" logic_busy
      = (r, set_events (events logic_busy ++ evs) logic_busy).
Proof.
  intros (r & evs & Heq). apply (f_equal (λ r, length (writer_calls r.2))) in Heq.
  vm_compute in Heq. discriminate Heq.
Qed.

(** C1. The ensemble "Z", which is in the rotating frame and has no
    element, sampled from offset 0 on the generator that is configured for
    it: sampling it in chunks raises [UnboundLocalError], for the name
    [created_files] is bound in the loop body only, where sampling it as a
    whole returns the offset 0 and the files of its one writer call. The
    two modes do not yield the same. *)
Theorem chunked_sampling_of_empty_ensemble_raises :
  (sample_pulse_block_ensemble "Z" true true 0 "" logic0).1
  = Raise UnboundLocalError
  ∧ (sample_pulse_block_ensemble "Z" true false 0 "" logic0).1
    = Ok (py_empty_list, py_empty_list, ["Z_ch1.wfmx"], 0).
Proof. split; vm_compute; reflexivity. Qed.

(** C9, as the claim words it, fails for the name "rabi", which has no
    registered generator method: the [KeyError] of the lookup reaches the
    caller. *)
Lemma unregistered_generator_counterexample :
  ¬ ∃ g', generate_predefined_sequence generate_methods0 "rabi" [] logic0
          = (Ok (), g').
Proof. 
  intros [g' Heq]. apply (f_equal fst) in Heq. vm_compute in Heq.
  discriminate Heq.
 Qed.

Lemma load_overwrites_settings_witness :
  (∃ g', load_ensemble "W" logic0 = (Ok (), g')
     ∧ sample_rate g' = 5
     ∧ amplitude_dict g' = amplitude_dict logic0
     ∧ activation_config g' = ["a_ch1"; "a_ch2"; "d_ch1"; "d_ch2"; "d_ch3"; "d_ch4"]
     ∧ laser_channel g' = Some "d_ch2"
     ∧ current_ensemble g' = Some ensemble_wide)
  ∧ (∃ g', load_sequence "S" logic0 = (Ok (), g')
     ∧ sample_rate g' = 2
     ∧ amplitude_dict g' = amplitude_dict logic0
     ∧ activation_config g' = activation_config logic0
     ∧ laser_channel g' = laser_channel logic0
     ∧ current_sequence g' = Some sequence_S).
Proof.
  split.
  - apply (proj1 (load_overwrites_settings logic0 "W") ensemble_wide). reflexivity.
  - apply (proj2 (load_overwrites_settings logic0 "S") sequence_S). reflexivity.
Defined.

End Concrete.

(** * Further properties of the samplers *)

Section Further.

Context `{Externals}.

Ltac step :=
  cbv [mbind M_bind mret M_ret get modify lift raise emit getState lock unlock
       finish_ensemble].

Lemma entered_touched name w off tag g :
  sampling_footprint name w g (entered name w off tag g).
Proof.
  unfold sampling_footprint, same_configuration, entered. simpl.
  destruct w; repeat case_decide; simpl; done.
Qed.

Lemma sample_return_touched name0 w0 g0 name ensemble N w c tag in_progress fr g r g' :
  sample_return name ensemble N w c tag in_progress fr g = (r, g') →
  sampling_footprint name0 w0 g0 g → sampling_footprint name0 w0 g0 g'.
Proof.
  unfold sample_return, call_waveform_writer, sampling_footprint, same_configuration.
  destruct fr as [off cf locals]. step.
  destruct w, c, in_progress, locals as [first last count|A D ind], cf as [files|];
    simpl; try destruct (gettable _) as [wr|ex]; simpl;
    intros [= <- <-]; simpl; done.
Qed.

Lemma sample_call_touched name w c off tag g r g' :
  sample_pulse_block_ensemble name w c off tag g = (r, g') →
  sampling_footprint name w g g'.
Proof.
  rewrite sample_pulse_block_ensemble_unfold. cbv zeta.
  pose proof (entered_touched name w off tag g) as He.
  destruct (saved_pulse_block_ensembles g !! name) as [ensemble|].
  2: { by intros [= <- <-]. }
  destruct (bool_decide _ || bool_decide _).
  { intros [= <- <-]. exact He. }
  destruct (analysis_error _ _) as [ex|].
  { by intros [= <- <-]. }
  destruct (initial_locals _ _ _ _) as [locals|ex].
  2: { by intros [= <- <-]. }
  step. destruct (element_loop _ _ _ _ _ _ _ _ _) as [[fr|ex] g2] eqn:Hloop;
    apply element_loop_writes in Hloop as [calls ->].
  2: { intros [= <- <-]. exact He. }
  intros Hr. eapply sample_return_touched; [exact Hr|]. exact He.
Qed.

(** X1. Sampling an ensemble changes neither the stored assets, nor the
    editor pointers, nor the settings of the generator, nor the sequence
    files, whether it returns or raises. *)
Theorem ensemble_sampling_keeps_configuration (g : SequenceGeneratorLogic)
    (ensemble_name : string) (write_to_file chunkwise : bool) (offset_bin : Z)
    (name_tag : string) :
  let g' := (sample_pulse_block_ensemble ensemble_name write_to_file chunkwise
               offset_bin name_tag g).2 in
  same_configuration g g' ∧ sequence_dir g' = sequence_dir g.
Proof.
  cbv zeta.
  destruct (sample_pulse_block_ensemble ensemble_name write_to_file chunkwise
              offset_bin name_tag g) as [r g'] eqn:Hcall.
  apply sample_call_touched in Hcall as (Hc & Hd & _). by split.
Qed.

(** X2. Of the files that are in the waveform directory when it is called, a
    call that writes deletes those whose name starts with the ensemble name
    followed by [_ch], those of another ensemble whose name starts so
    included, and no other file; it does so whether it returns or raises. A
    call that does not write deletes nothing. (The files that the writers
    create are theirs to list.) *)
Theorem ensemble_sampling_deletes_files_by_prefix (g : SequenceGeneratorLogic)
    (ensemble_name : string) (write_to_file chunkwise : bool) (offset_bin : Z)
    (name_tag : string) (f : string) :
  f ∈ waveform_dir (sample_pulse_block_ensemble ensemble_name write_to_file
                      chunkwise offset_bin name_tag g).2
  ↔ f ∈ waveform_dir g
    ∧ (write_to_file = true → startswith f (ensemble_name +:+ "_ch") = false).
Proof.
  destruct (sample_pulse_block_ensemble ensemble_name write_to_file chunkwise
              offset_bin name_tag g) as [r g'] eqn:Hcall.
  apply sample_call_touched in Hcall as (_ & _ & Hw). cbn [snd]. rewrite Hw.
  destruct write_to_file.
  - rewrite !list_elem_of_In, filter_In, negb_true_iff.
    split; intros [? Hf]; (split; [done|]); [by intros _|by apply Hf].
  - split; [by split|by intros [? _]].
Qed.

Lemma sample_return_unlocks name ensemble N w c tag fr g r g' :
  sample_return name ensemble N w c tag false fr g = (r, g') →
  (module_state g' = idle
   ∧ events g' = events g ++ [log_info_time_needed; sigSampleEnsembleComplete name]
   ∧ ∀ e, r = Raise e → e = UnboundLocalError)
  ∨ (module_state g' = module_state g ∧ events g' = events g ∧ ∃ e, r = Raise e).
Proof.
  unfold sample_return, call_waveform_writer. destruct fr as [off cf locals]. step.
  destruct w, c, locals as [first last count|A D ind], cf as [files|];
    simpl; try destruct (gettable _) as [wr|ex]; simpl;
    intros [= <- <-]; simpl; rewrite <- ?app_assoc; simpl;
    first [left; split; [done|]; split; [done|]; by intros e [=]
          |right; split; [done|]; split; [done|]; by eexists].
Qed.

(** X3. A call of [sample_pulse_block_ensemble] on an idle module only adds
    to the events. It leaves the module idle exactly when it has announced
    the completion of the ensemble, as the last event and once; when it
    leaves the module locked it has announced no completion. A call that
    raises anything but the [UnboundLocalError] of its return statements
    leaves the module locked: no exception handler releases the lock. *)
Theorem ensemble_sampling_lock_and_completion (g : SequenceGeneratorLogic)
    (ensemble_name : string) (write_to_file chunkwise : bool) (offset_bin : Z)
    (name_tag : string)
    (r : result (samples float32 * samples bool * list string * Z))
    (g' : SequenceGeneratorLogic) :
  module_state g = idle →
  sample_pulse_block_ensemble ensemble_name write_to_file chunkwise offset_bin
    name_tag g = (r, g') →
  ∃ evs,
    events g' = events g ++ evs
    ∧ (module_state g' = idle →
       ∃ evs', evs = evs' ++ [sigSampleEnsembleComplete ensemble_name]
               ∧ ∀ n, sigSampleEnsembleComplete n ∉ evs')
    ∧ (module_state g' = locked → ∀ n, sigSampleEnsembleComplete n ∉ evs)
    ∧ (∀ e, r = Raise e → e ≠ UnboundLocalError → module_state g' = locked).
Proof.
  intros Hidle. rewrite sample_pulse_block_ensemble_unfold. cbv zeta.
  destruct (entered_fields ensemble_name write_to_file offset_bin name_tag g)
    as (Hst & _ & _ & _ & _ & _ & _ & _ & evs & Hevs & Hno).
  assert (∀ g1, module_state g1 = locked → events g1 = events g ++ evs →
    ∃ evs1, events g1 = events g ++ evs1
      ∧ (module_state g1 = idle →
         ∃ evs', evs1 = evs' ++ [sigSampleEnsembleComplete ensemble_name]
                 ∧ ∀ n, sigSampleEnsembleComplete n ∉ evs')
      ∧ (module_state g1 = locked → ∀ n, sigSampleEnsembleComplete n ∉ evs1)
      ∧ (∀ e, r = Raise e → e ≠ UnboundLocalError → module_state g1 = locked))
    as Hstay.
  { intros g1 Hl He. exists evs. split; [done|]. rewrite Hl. by repeat split. }
  destruct (saved_pulse_block_ensembles g !! ensemble_name) as [ensemble|].
  2: { intros [= <- <-]. by apply Hstay. }
  destruct (bool_decide _ || bool_decide _).
  { intros [= <- <-]. simpl. eexists. rewrite Hevs, <- app_assoc.
    split; [reflexivity|]. rewrite Hst. split; [done|]. split; [|done].
    intros _ n [?|[=]%list_elem_of_singleton]%elem_of_app. by eapply Hno. }
  destruct (analysis_error _ _) as [ex|].
  { intros [= <- <-]. by apply Hstay. }
  destruct (initial_locals _ _ _ _) as [locals|ex].
  2: { intros [= <- <-]. by apply Hstay. }
  step. destruct (element_loop _ _ _ _ _ _ _ _ _) as [[fr|ex] g2] eqn:Hloop;
    apply element_loop_writes in Hloop as [calls ->].
  2: { intros [= <- <-]. by apply Hstay. }
  rewrite Hidle. rewrite bool_decide_eq_false_2 by (by intros ?).
  intros [(Hi & He & Hr)|(Hl & He & e & ->)]%sample_return_unlocks; simpl in *.
  - eexists. rewrite He, Hevs, <- app_assoc. split; [reflexivity|].
    rewrite Hi. split; [|split; [done|]].
    + intros _. exists (evs ++ [log_info_time_needed]).
      rewrite <- app_assoc. split; [done|].
      intros n [?|[=]%list_elem_of_singleton]%elem_of_app. by eapply Hno.
    + intros e -> Hne. by destruct Hne, (Hr e).
  - exists evs. rewrite He, Hl, Hst. by repeat split.
Qed.

Lemma sample_pulse_sequence_unfold name w c g :
  module_state g = idle →
  sample_pulse_sequence name w c g
  = match saved_pulse_sequences g !! name with
    | None => (Raise KeyError, sequence_entered name w g)
    | Some sequence_obj =>
        ((if seq_rotating_frame sequence_obj
          then sample_sequence_rotating sequence_obj w c
          else sample_sequence_distinct sequence_obj w c)
         ≫= λ '(sampled_ensembles, sequence_param_dict_list),
              save_sequence name
                (set_sampled_ensembles sampled_ensembles sequence_obj);;
              call_sequence_writer name sequence_param_dict_list;;
              emit log_info_time_needed;;
              emit (sigSampleSequenceComplete name);;
              unlock) (sequence_entered name w g)
    end.
Proof.
  intros Hidle. unfold sample_pulse_sequence, sequence_entered.
  rewrite bind_eq. unfold getState at 1. rewrite Hidle.
  cbn [decide decide_rel module_state_eq_dec].
  destruct w.
  - step. simpl. case_decide; unfold getitem; simpl;
      destruct (saved_pulse_sequences g !! name); reflexivity.
  - step. simpl. unfold getitem. simpl.
    destruct (saved_pulse_sequences g !! name); reflexivity.
Qed.

Lemma sequence_entered_quiet name w g : quiet g (sequence_entered name w g).
Proof.
  unfold sequence_entered, quiet. destruct w; [case_decide|]; simpl.
  - split; [done|]. eexists. split; [reflexivity|].
    intros n [=]%list_elem_of_singleton.
  - split; [done|]. exists []. rewrite app_nil_r. split; [done|].
    intros n. apply not_elem_of_nil.
  - split; [done|]. exists []. rewrite app_nil_r. split; [done|].
    intros n. apply not_elem_of_nil.
Qed.

Lemma sequence_entered_fields name w g :
  let g1 := sequence_entered name w g in
  same_configuration g g1
  ∧ sampling_calls g1 = sampling_calls g
  ∧ writer_calls g1 = writer_calls g
  ∧ waveform_dir g1 = waveform_dir g.
Proof.
  unfold sequence_entered, same_configuration.
  destruct w; [case_decide|]; simpl; done.
Qed.

(** The tail of [sample_pulse_sequence] that raises leaves the lock as it
    found it. *)
Lemma sequence_tail_raises name (sequence_obj : PulseSequence)
    (lst : list (gmap string dict_value)) g e g' :
  (save_sequence name sequence_obj;;
   call_sequence_writer name lst;;
   emit log_info_time_needed;;
   emit (sigSampleSequenceComplete name);;
   unlock) g = (Raise e, g') →
  e = KeyError ∧ module_state g' = module_state g.
Proof.
  unfold save_sequence, call_sequence_writer. step. simpl.
  destruct (gettable _) as [[]|ex] eqn:Hw; simpl; [done|].
  intros [= <- <-]. split; [|done].
  unfold gettable in Hw. by destruct (_write_to_file_sequence _); simplify_eq.
Qed.

(** X4. A [sample_pulse_sequence] that raises on an idle module leaves the
    module locked, so that every later [sample_pulse_sequence] on the
    instance is refused as busy and changes nothing but the log. *)
Theorem failed_sequence_sampling_keeps_the_lock (g : SequenceGeneratorLogic)
    (sequence_name : string) (write_to_file chunkwise : bool) (e : exn)
    (g' : SequenceGeneratorLogic) :
  module_state g = idle →
  sample_pulse_sequence sequence_name write_to_file chunkwise g = (Raise e, g') →
  module_state g' = locked
  ∧ ∀ name w c,
      sample_pulse_sequence name w c g'
      = (Ok (), set_events (events g' ++ [log_error_busy name]) g').
Proof.
  intros Hidle Hrun.
  assert (module_state g' = locked) as Hl.
  { rewrite sample_pulse_sequence_unfold in Hrun by done.
    pose proof (sequence_entered_quiet sequence_name write_to_file g) as Hq.
    destruct (saved_pulse_sequences g !! sequence_name) as [sequence_obj|].
    2: { injection Hrun as _ <-. apply Hq. }
    rewrite bind_eq in Hrun.
    assert (∃ res g2,
      (if seq_rotating_frame sequence_obj
       then sample_sequence_rotating sequence_obj write_to_file chunkwise
       else sample_sequence_distinct sequence_obj write_to_file chunkwise)
        (sequence_entered sequence_name write_to_file g)
      = (res, g2) ∧ quiet g g2) as (res & g2 & Hb & Hq2).
    { destruct (seq_rotating_frame sequence_obj).
      - destruct (sample_sequence_rotating sequence_obj write_to_file chunkwise _)
          as [res g2] eqn:Hb. exists res, g2. split; [done|].
        by eapply sample_sequence_rotating_quiet.
      - destruct (sample_sequence_distinct sequence_obj write_to_file chunkwise _)
          as [res g2] eqn:Hb. exists res, g2. split; [done|].
        by eapply sample_sequence_distinct_quiet. }
    rewrite Hb in Hrun. destruct res as [[sampled lst]|ex].
    - apply sequence_tail_raises in Hrun as [_ ->]. apply Hq2.
    - injection Hrun as _ <-. apply Hq2. }
  split; [done|]. intros name w c. unfold sample_pulse_sequence. step.
  by rewrite Hl.
Qed.

Lemma same_configuration_refl g : same_configuration g g.
Proof. by repeat split. Qed.

Lemma same_configuration_trans g1 g2 g3 :
  same_configuration g1 g2 → same_configuration g2 g3 → same_configuration g1 g3.
Proof.
  unfold same_configuration. intros Ha Hb. destruct_and!.
  repeat split; congruence.
Qed.

Lemma returned_offset_configuration g g' name off :
  same_configuration g g' → returned_offset g' name off = returned_offset g name off.
Proof.
  unfold same_configuration, returned_offset. intros Hc. destruct_and!.
  by repeat match goal with Heq : _ g' = _ g |- _ => rewrite Heq; clear Heq end.
Qed.

Lemma returned_offset_spec g name w c off tag res g' :
  sample_pulse_block_ensemble name w c off tag g = (Ok res, g') →
  res.2 = returned_offset g name off.
Proof.
  intros Hcall. unfold returned_offset.
  destruct (saved_pulse_block_ensembles g !! name) as [ensemble|] eqn:Hs.
  2: { rewrite sample_pulse_block_ensemble_unfold, Hs in Hcall. done. }
  destruct (bool_decide _ || bool_decide _) eqn:Hm.
  - rewrite sample_pulse_block_ensemble_unfold, Hs in Hcall. cbv zeta in Hcall.
    rewrite Hm in Hcall. by injection Hcall as <- _.
  - apply orb_false_iff in Hm as [Hd Ha].
    apply bool_decide_eq_false in Hd, Ha.
    eapply call_offset; [exact Hs| | |exact Hcall].
    + by destruct (decide (digital_channels g = ens_digital_channels ensemble)).
    + by destruct (decide (analog_channels g = ens_analog_channels ensemble)).
Qed.

Lemma rotating_loop (w c : bool) g0
    (l : list (PulseBlockEnsemble * gmap string seq_value)) :
  ∀ (sampled : gmap string (list string)) lst index off g r g',
  same_configuration g0 g →
  for_each l
    (λ '(ensemble_obj, seq_param)
       '(sampled_ensembles, sequence_param_dict_list, ensemble_index, offset_bin),
      let name_tag := "_" +:+ zfill 3 (pretty (ensemble_index : nat)) in
      '(dummy1, dummy2, created_files, offset_bin_return) ←
        sample_pulse_block_ensemble (ens_name ensemble_obj) w c offset_bin name_tag;
      let sampled_ensembles :=
        <[ens_name ensemble_obj +:+ name_tag := created_files]> sampled_ensembles in
      let temp_dict := step_descriptor created_files seq_param in
      mret (sampled_ensembles, sequence_param_dict_list ++ [temp_dict],
            S ensemble_index, offset_bin_return))
    (sampled, lst, index, off) g = (r, g') →
  same_configuration g0 g'
  ∧ ∃ calls,
      sampling_calls g' = sampling_calls g ++ calls
      ∧ calls `prefix_of` rotating_calls g0 l index off
      ∧ (∀ acc, r = Ok acc →
           calls = rotating_calls g0 l index off
           ∧ length acc.1.1.2 = (length lst + length l)%nat).
Proof.
  induction l as [|[ens p] l IH]; intros sampled lst index off g r g' Hc.
  - simpl. intros [= <- <-]. split; [done|]. exists []. rewrite app_nil_r.
    split; [done|]. split; [done|]. intros acc [= <-]. simpl. split; [done|lia].
  - cbn [for_each rotating_calls]. step.
    destruct (sample_pulse_block_ensemble (ens_name ens) w c off _ g)
      as [[[[[d1 d2] files] off']|ex] g1] eqn:Hcall;
      pose proof (proj1 (sample_call_footprint _ _ _ _ _ _ _ _ Hcall)) as Hsc;
      pose proof (proj1 (sample_call_touched _ _ _ _ _ _ _ _ Hcall)) as Hc1;
      pose proof (same_configuration_trans _ _ _ Hc Hc1) as Hc2.
    2: { intros [= <- <-]. split; [done|]. eexists. split; [exact Hsc|].
         split; [by apply prefix_cons, prefix_nil|done]. }
    apply returned_offset_spec in Hcall. simpl in Hcall.
    rewrite (returned_offset_configuration g0 g) in Hcall by done. subst off'.
    intros (Hc3 & calls & Hcalls & Hpre & Hok)%IH; [|done].
    split; [done|]. eexists (_ :: calls). rewrite Hcalls, Hsc, <- app_assoc.
    split; [done|]. split; [by apply prefix_cons|].
    intros acc [-> Hlen]%Hok. split; [done|].
    rewrite Hlen, length_app. simpl. lia.
Qed.


(** A loop that returns has run its body to a normal end on every item. *)
Lemma for_each_Ok_Forall {X A} (I : SequenceGeneratorLogic → Prop) (P : X → Prop)
    (xs : list X) (body : X → A → M A) :
  (∀ x a g r g', I g → body x a g = (r, g') → I g' ∧ (is_ok r = true → P x)) →
  ∀ a g a' g', I g → for_each xs body a g = (Ok a', g') → Forall P xs.
Proof.
  intros Hb. induction xs as [|x xs IH]; intros a g a' g' HI; simpl; [done|].
  step. destruct (body x a g) as [[a1|ex] g1] eqn:Hx; [|done].
  destruct (Hb _ _ _ _ _ HI Hx) as [HI1 HP]. intros Hrest.
  constructor; [by apply HP|]. by eapply IH.
Qed.

Lemma sample_call_finds_ensemble name w c off tag g res g' :
  sample_pulse_block_ensemble name w c off tag g = (Ok res, g') →
  is_Some (saved_pulse_block_ensembles g !! name).
Proof.
  rewrite sample_pulse_block_ensemble_unfold.
  by destruct (saved_pulse_block_ensembles g !! name).
Qed.

Lemma sample_sequence_rotating_spec sequence_obj w c g r g' :
  sample_sequence_rotating sequence_obj w c g = (r, g') →
  ∃ calls,
    sampling_calls g' = sampling_calls g ++ calls
    ∧ calls `prefix_of` rotating_calls g (ensemble_param_list sequence_obj) 0 0
    ∧ ∀ sampled lst, r = Ok (sampled, lst) →
        calls = rotating_calls g (ensemble_param_list sequence_obj) 0 0
        ∧ length lst = length (ensemble_param_list sequence_obj).
Proof.
  unfold sample_sequence_rotating. rewrite bind_eq.
  match goal with
  | |- context [@for_each M _ _ _ _ ?xs ?b ?a g] =>
      destruct (@for_each M _ _ _ _ xs b a g) as [[acc|ex] g1] eqn:Hloop
  end; apply (rotating_loop w c g) in Hloop as (_ & calls & Hcalls & Hpre & Hok);
    try apply same_configuration_refl.
  - destruct acc as [[[sampled lst] index] off]. intros [= <- <-].
    exists calls. split; [done|]. split; [done|].
    intros sampled' lst' [= <- <-]. by destruct (Hok _ eq_refl).
  - intros [= <- <-]. exists calls. by repeat split.
Qed.

Lemma sample_sequence_rotating_finds sequence_obj w c g res g' :
  sample_sequence_rotating sequence_obj w c g = (Ok res, g') →
  Forall (λ '(ensemble_obj, _),
            is_Some (saved_pulse_block_ensembles g !! ens_name ensemble_obj))
    (ensemble_param_list sequence_obj).
Proof.
  unfold sample_sequence_rotating. rewrite bind_eq.
  match goal with
  | |- context [@for_each M _ _ _ _ ?xs ?b ?a g] =>
      destruct (@for_each M _ _ _ _ xs b a g) as [[acc|ex] g1] eqn:Hloop; [|done]
  end.
  intros _. revert Hloop.
  apply (for_each_Ok_Forall (same_configuration g)); [|apply same_configuration_refl].
  intros [ens p] [[[sampled lst] index] off] g2 r2 g2' Hc. step.
  destruct (sample_pulse_block_ensemble (ens_name ens) w c off _ g2)
    as [[[[[d1 d2] files] off']|ex] g3] eqn:Hcall;
    pose proof (proj1 (sample_call_touched _ _ _ _ _ _ _ _ Hcall)) as Hc1;
    intros [= <- <-]; (split; [by eapply same_configuration_trans|]); [|done].
  intros _. apply sample_call_finds_ensemble in Hcall.
  destruct Hc as (_ & _ & <- & _). done.
Qed.

Lemma sample_sequence_distinct_finds sequence_obj w c g res g' :
  sample_sequence_distinct sequence_obj w c g = (Ok res, g') →
  Forall (λ n, is_Some (saved_pulse_block_ensembles g !! n))
    (dict_keys (different_ensembles_dict sequence_obj)).
Proof.
  unfold sample_sequence_distinct. rewrite bind_eq.
  match goal with
  | |- context [@for_each M _ _ _ _ ?xs ?b ?a g] =>
      destruct (@for_each M _ _ _ _ xs b a g) as [[acc|ex] g1] eqn:Hloop; [|done]
  end.
  intros _. revert Hloop.
  apply (for_each_Ok_Forall (same_configuration g)); [|apply same_configuration_refl].
  intros key sampled g2 r2 g2' Hc. step. unfold getitem.
  destruct (saved_pulse_block_ensembles g2 !! key) as [ens|] eqn:Hs.
  2: { by intros [= <- <-]. }
  destruct (sample_pulse_block_ensemble key w c 0 "" g2)
    as [[[[[d1 d2] files] off']|ex] g3] eqn:Hcall;
    pose proof (proj1 (sample_call_touched _ _ _ _ _ _ _ _ Hcall)) as Hc1;
    intros [= <- <-]; (split; [by eapply same_configuration_trans|]); [|done].
  intros _. destruct Hc as (_ & _ & <- & _). by rewrite Hs.
Qed.

Lemma rotating_calls_configuration g g' l :
  same_configuration g g' →
  ∀ index off, rotating_calls g' l index off = rotating_calls g l index off.
Proof.
  intros Hc. induction l as [|[ens p] l IH]; intros index off; simpl; [done|].
  by rewrite IH, (returned_offset_configuration g g').
Qed.

(** X5. For a sequence in the rotating frame, sampled on an idle module: the
    ensemble-sampling calls are made for the occurrences of
    [ensemble_param_list] in their order, under the name tags [_000], [_001]
    and so on, the first from offset 0 and each next from the offset that
    the call before it returned, up to the first call that raises. When the
    operation returns every occurrence has been sampled, and the sequence
    writer has been handed one step descriptor per occurrence. *)
Theorem rotating_sequence_threads_the_offset (g : SequenceGeneratorLogic)
    (sequence_name : string) (write_to_file chunkwise : bool)
    (sequence_obj : PulseSequence) (r : result ()) (g' : SequenceGeneratorLogic) :
  module_state g = idle →
  saved_pulse_sequences g !! sequence_name = Some sequence_obj →
  seq_rotating_frame sequence_obj = true →
  sample_pulse_sequence sequence_name write_to_file chunkwise g = (r, g') →
  let expected := rotating_calls g (ensemble_param_list sequence_obj) 0 0 in
  ∃ calls,
    sampling_calls g' = sampling_calls g ++ calls
    ∧ calls `prefix_of` expected
    ∧ (r = Ok () →
       calls = expected
       ∧ ∃ earlier descriptors,
           writer_calls g'
           = earlier ++ [write_sequence (sequence_format g') sequence_name descriptors]
           ∧ length descriptors = length (ensemble_param_list sequence_obj)).
Proof.
  intros Hidle Hs Hrot Hrun expected. subst expected.
  rewrite sample_pulse_sequence_unfold, Hs, Hrot, bind_eq in Hrun by done.
  pose proof (sequence_entered_quiet sequence_name write_to_file g) as Hq.
  destruct (sequence_entered_fields sequence_name write_to_file g) as (Hc & Hsc & _).
  destruct (sample_sequence_rotating sequence_obj write_to_file chunkwise _)
    as [[[sampled lst]|ex] g2] eqn:Hloop.
  all: pose proof (sample_sequence_rotating_quiet _ _ _ _ _ _ _ Hq Hloop) as Hq2.
  all: apply sample_sequence_rotating_spec in Hloop as (calls & Hcalls & Hpre & Hok).
  all: rewrite (rotating_calls_configuration g) in Hpre, Hok by done.
  - apply (sequence_tail _ _ _ _ _ _ _ Hq2) in Hrun as (Hsc' & _ & Hfin).
    exists calls. rewrite Hsc', Hcalls, Hsc. split; [done|]. split; [done|].
    intros Hr. destruct (Hfin Hr) as (_ & Hwc & _).
    destruct (Hok _ _ eq_refl) as [-> Hlen]. split; [done|].
    by exists (writer_calls g2), lst.
  - injection Hrun as <- <-. exists calls. rewrite Hcalls, Hsc. by repeat split.
Qed.

(** X6. [sample_pulse_sequence] returns only when every ensemble that the
    sequence lists is in [saved_pulse_block_ensembles] under its name: a
    sequence that refers to an ensemble deleted from the store cannot be
    sampled, in either frame. *)
Theorem sampled_sequence_found_every_ensemble (g : SequenceGeneratorLogic)
    (sequence_name : string) (write_to_file chunkwise : bool)
    (sequence_obj : PulseSequence) (g' : SequenceGeneratorLogic) :
  module_state g = idle →
  saved_pulse_sequences g !! sequence_name = Some sequence_obj →
  sample_pulse_sequence sequence_name write_to_file chunkwise g = (Ok (), g') →
  Forall (λ '(ensemble_obj, _),
            is_Some (saved_pulse_block_ensembles g !! ens_name ensemble_obj))
    (ensemble_param_list sequence_obj).
Proof.
  intros Hidle Hs Hrun.
  rewrite sample_pulse_sequence_unfold, Hs, bind_eq in Hrun by done.
  destruct (sequence_entered_fields sequence_name write_to_file g)
    as ((_ & _ & Hsaved & _) & _).
  destruct (seq_rotating_frame sequence_obj).
  - destruct (sample_sequence_rotating sequence_obj write_to_file chunkwise _)
      as [[res|ex] g2] eqn:Hloop; [|done].
    apply sample_sequence_rotating_finds in Hloop. rewrite Hsaved in Hloop.
    exact Hloop.
  - destruct (sample_sequence_distinct sequence_obj write_to_file chunkwise _)
      as [[[sampled lst]|ex] g2] eqn:Hloop; [|done].
    pose proof (sample_sequence_distinct_finds _ _ _ _ _ _ Hloop) as Hkeys.
    rewrite Hsaved in Hkeys.
    apply sample_sequence_distinct_spec in Hloop as (called & _ & _ & Hok).
    destruct (Hok _ _ eq_refl) as (_ & Hdom & HF).
    rewrite Forall_forall in Hkeys.
    clear Hrun Hok. induction HF as [|[ens p] d epl ds (files & Hf & _) _ IH];
      constructor; [|done].
    apply Hkeys. apply (elem_of_list_to_set (C:=gset string)).
    rewrite <- Hdom. apply elem_of_dom. by exists files.
Qed.

(** ** The chunk flags *)

Lemma chunk_loop_calls ensemble names N E tag tr :
  ∀ off cf first count g fr' g',
  (count + length tr ≤ E)%nat →
  for_each tr
    (λ '(rep_no, block_element) fr,
      sample_element ensemble names N E true true tag rep_no block_element fr)
    (mk_frame off cf (chunk_locals first false count)) g = (Ok fr', g') →
  ∃ chunks,
    sample_elements g ensemble names off tr = Ok chunks
    ∧ writer_calls g'
      = writer_calls g ++
        chunk_calls (waveform_format g) (ens_name ensemble +:+ tag) N E first
          count chunks.
Proof.
  induction tr as [|[k e] tr IH]; intros off cf first count g fr' g' Hle.
  - simpl. intros [= <- <-]. exists []. by rewrite app_nil_r.
  - cbn [for_each]. step. rewrite chunk_step.
    destruct (element_chunk _ _ _ _ _ _) as [[a d]|ex] eqn:Hch; [|done].
    destruct (_write_to_file _) as [writer|] eqn:Hw; [|done]. cbv zeta.
    simpl in Hle.
    destruct (decide (S count = E)) as [HE|HE].
    + assert (tr = []) as -> by (destruct tr; [done|simpl in Hle; lia]).
      simpl. intros [= <- <-]. exists [(a, d)].
      cbn [sample_elements]. rewrite Hch. split; [done|]. simpl.
      unfold chunk_calls. simpl. rewrite andb_true_r.
      do 3 f_equal. symmetry. apply bool_decide_eq_true. lia.
    + intros (chunks & Hs & Hcalls)%IH; [|lia].
      rewrite sample_elements_writes in Hs. exists ((a, d) :: chunks).
      cbn [sample_elements]. rewrite Hch, Hs. split; [done|].
      rewrite Hcalls. simpl. rewrite <- app_assoc. f_equal.
      unfold chunk_calls. rewrite imap_cons. simpl. rewrite andb_true_r.
      f_equal.
      * f_equal. rewrite bool_decide_eq_false_2 by lia. done.
      * apply imap_ext. intros j [a' d'] _. simpl. rewrite andb_false_r.
        f_equal. apply bool_decide_ext. lia.
Qed.

(** X7. In a chunked run that returns, the writer is called once per
    element, every time under the ensemble name with the name tag and with
    the total number of samples of the ensemble; [is_first_chunk] is set in
    the first call and in no other, [is_last_chunk] in the last call and in
    no other. *)
Theorem chunked_run_flags_first_and_last (g : SequenceGeneratorLogic)
    (ensemble_name : string) (offset_bin : Z) (name_tag : string)
    (ensemble : PulseBlockEnsemble)
    (res : samples float32 * samples bool * list string * Z)
    (g' : SequenceGeneratorLogic) :
  saved_pulse_block_ensembles g !! ensemble_name = Some ensemble →
  digital_channels g = ens_digital_channels ensemble →
  analog_channels g = ens_analog_channels ensemble →
  sample_pulse_block_ensemble ensemble_name true true offset_bin name_tag g
  = (Ok res, g') →
  ∃ chunks,
    length chunks = total_elements ensemble
    ∧ writer_calls g'
      = writer_calls g ++
        imap (λ j '(analog_samples, digital_samples),
                write_waveform (waveform_format g)
                  (ens_name ensemble +:+ name_tag) analog_samples
                  digital_samples
                  (np_sum (state_lengths (sample_rate g) ensemble))
                  (bool_decide (j = 0%nat))
                  (bool_decide (S j = total_elements ensemble)))
          chunks.
Proof.
  intros Hs Hd Ha. rewrite sample_pulse_block_ensemble_unfold, Hs. cbv zeta.
  rewrite mismatch_false by done.
  destruct (analysis_error _ _) as [ex|]; [done|].
  unfold initial_locals. simpl. step.
  rewrite element_loop_traversal.
  match goal with
  | |- context [@for_each M _ _ _ _ ?xs ?b ?a ?g0] =>
      destruct (@for_each M _ _ _ _ xs b a g0) as [[fr|ex] g2] eqn:Hloop; [|done]
  end.
  assert (length (traversal ensemble) = total_elements ensemble) as Hlen.
  { rewrite <- (length_state_lengths (sample_rate g)). unfold state_lengths.
    by rewrite length_fmap. }
  apply chunk_loop_calls in Hloop as (chunks & Hse & Hcalls); [|simpl; lia].
  destruct (entered_config ensemble_name true offset_bin name_tag g) as (_ & _ & Hwf).
  destruct (entered_fields ensemble_name true offset_bin name_tag g)
    as (_ & _ & Hwc & _).
  assert (length chunks = total_elements ensemble) as Hchunks.
  { apply sample_elements_shape in Hse as (_ & _ & Hn & _).
    apply (f_equal length) in Hn. rewrite !length_fmap in Hn.
    unfold lengths_of in Hn. rewrite length_fmap in Hn. congruence. }
  intros Hret. exists chunks. split; [done|].
  assert (writer_calls g' = writer_calls g2) as ->.
  { revert Hret. unfold sample_return. destruct fr as [off' cf locals]. step.
    simpl. destruct (bool_decide _), cf; simpl; by intros [= <- <-]. }
  rewrite Hcalls, Hwc, Hwf. reflexivity.
Qed.

(** ** What sampling a sequence leaves alone *)

Lemma kept_by_call g0 dir g name w c off tag r g' :
  kept_by_ensembles g0 dir g →
  sample_pulse_block_ensemble name w c off tag g = (r, g') →
  kept_by_ensembles g0 dir g'.
Proof.
  intros [Hc Hd] (Hc' & Hd' & _)%sample_call_touched. split.
  - by eapply same_configuration_trans.
  - congruence.
Qed.

Lemma sample_sequence_rotating_keeps sequence_obj w c g0 dir g r g' :
  kept_by_ensembles g0 dir g →
  sample_sequence_rotating sequence_obj w c g = (r, g') →
  kept_by_ensembles g0 dir g'.
Proof.
  intros Hk. unfold sample_sequence_rotating. rewrite bind_eq.
  match goal with
  | |- context [@for_each M _ _ _ _ ?xs ?b ?a g] =>
      assert (∀ x acc g2 r2 g2', kept_by_ensembles g0 dir g2 →
                b x acc g2 = (r2, g2') → kept_by_ensembles g0 dir g2') as Hbody;
      [|destruct (@for_each M _ _ _ _ xs b a g) as [[acc|ex] g1] eqn:Hloop;
        apply (for_each_state_invariant (kept_by_ensembles g0 dir) _ _ Hbody
                 _ _ _ _ Hk) in Hloop]
  end.
  - intros [ens p] [[[sampled lst] index] off] g2 r2 g2' Hk2. step.
    match goal with
    | |- context [sample_pulse_block_ensemble ?n w c ?o ?t g2] =>
        destruct (sample_pulse_block_ensemble n w c o t g2)
          as [[[[[d1 d2] files] off']|ex'] g3] eqn:Hcall
    end;
      pose proof (kept_by_call _ _ _ _ _ _ _ _ _ _ Hk2 Hcall); by intros [= <- <-].
  - destruct acc as [[[sampled lst] index] off]. by intros [= <- <-].
  - by intros [= <- <-].
Qed.

Lemma sample_sequence_distinct_keeps sequence_obj w c g0 dir g r g' :
  kept_by_ensembles g0 dir g →
  sample_sequence_distinct sequence_obj w c g = (r, g') →
  kept_by_ensembles g0 dir g'.
Proof.
  intros Hk. unfold sample_sequence_distinct. rewrite bind_eq.
  match goal with
  | |- context [@for_each M _ _ _ _ ?xs ?b ?a g] =>
      assert (∀ x acc g2 r2 g2', kept_by_ensembles g0 dir g2 →
                b x acc g2 = (r2, g2') → kept_by_ensembles g0 dir g2') as Hbody;
      [|destruct (@for_each M _ _ _ _ xs b a g) as [[sampled|ex] g1] eqn:Hloop;
        apply (for_each_state_invariant (kept_by_ensembles g0 dir) _ _ Hbody
                 _ _ _ _ Hk) in Hloop]
  end.
  - intros key acc g2 r2 g2' Hk2. step. unfold getitem.
    destruct (saved_pulse_block_ensembles g2 !! key); [|by intros [= <- <-]].
    destruct (sample_pulse_block_ensemble key w c 0 "" g2)
      as [[[[[d1 d2] files] off]|ex'] g3] eqn:Hcall;
      pose proof (kept_by_call _ _ _ _ _ _ _ _ _ _ Hk2 Hcall); by intros [= <- <-].
  - rewrite bind_eq.
    match goal with
    | |- context [@for_each M _ _ _ _ ?xs ?b ?a g1] =>
        destruct (@for_each M _ _ _ _ xs b a g1) as [[lst|ex] g2] eqn:Hmap
    end; apply map_occurrences_loop in Hmap as [-> _]; by intros [= <- <-].
  - by intros [= <- <-].
Qed.

Lemma sequence_tail_keeps name (sequence_obj : PulseSequence)
    (lst : list (gmap string dict_value)) g0 dir g r g' :
  kept_by_ensembles g0 dir g →
  (save_sequence name sequence_obj;;
   call_sequence_writer name lst;;
   emit log_info_time_needed;;
   emit (sigSampleSequenceComplete name);;
   unlock) g = (r, g') →
  same_ensembles_and_settings g0 g' ∧ sequence_dir g' = dir.
Proof.
  intros [Hc Hd]. unfold save_sequence, call_sequence_writer. step. simpl.
  unfold same_configuration in Hc. unfold same_ensembles_and_settings.
  destruct_and!.
  destruct (gettable _) as [[]|ex]; simpl; intros [= <- <-]; simpl; done.
Qed.

(** X8. [sample_pulse_sequence] changes neither the stored ensembles, nor
    the pointer to the current ensemble, nor the settings of the generator,
    whether it returns, raises or is refused. On an idle module and when
    writing it deletes, of the files that are in the sequence directory when
    it is called, those whose name starts with the sequence name followed by
    [.seq], and no other; else it deletes nothing. *)
Theorem sequence_sampling_keeps_ensembles_and_settings
    (g : SequenceGeneratorLogic) (sequence_name : string)
    (write_to_file chunkwise : bool) :
  let g' := (sample_pulse_sequence sequence_name write_to_file chunkwise g).2 in
  same_ensembles_and_settings g g'
  ∧ sequence_dir g'
    = (if bool_decide (module_state g = idle) && write_to_file
       then List.filter
              (λ f, negb (startswith f (sequence_name +:+ ".seq")))
              (sequence_dir g)
       else sequence_dir g).
Proof.
  cbv zeta. destruct (module_state g) eqn:Hst.
  2: { unfold sample_pulse_sequence. step. rewrite Hst. simpl.
       by unfold same_ensembles_and_settings. }
  rewrite bool_decide_eq_true_2 by done. cbn [andb].
  rewrite sample_pulse_sequence_unfold by done.
  set (dir := if write_to_file
              then List.filter
                     (λ f, negb (startswith f (sequence_name +:+ ".seq")))
                     (sequence_dir g)
              else sequence_dir g).
  assert (kept_by_ensembles g dir (sequence_entered sequence_name write_to_file g))
    as Hk.
  { split; [apply sequence_entered_fields|]. subst dir. unfold sequence_entered.
    destruct write_to_file; [case_decide|]; done. }
  assert (∀ g1, kept_by_ensembles g dir g1 →
            same_ensembles_and_settings g g1 ∧ sequence_dir g1 = dir) as Hweak.
  { intros g1 [Hc Hd]. split; [|done]. unfold same_configuration in Hc.
    unfold same_ensembles_and_settings. destruct_and!. done. }
  destruct (saved_pulse_sequences g !! sequence_name) as [sequence_obj|].
  2: { by apply Hweak. }
  rewrite bind_eq.
  assert (∃ res g2,
    (if seq_rotating_frame sequence_obj
     then sample_sequence_rotating sequence_obj write_to_file chunkwise
     else sample_sequence_distinct sequence_obj write_to_file chunkwise)
      (sequence_entered sequence_name write_to_file g)
    = (res, g2) ∧ kept_by_ensembles g dir g2) as (res & g2 & -> & Hk2).
  { destruct (seq_rotating_frame sequence_obj).
    - destruct (sample_sequence_rotating sequence_obj write_to_file chunkwise _)
        as [res g2] eqn:Hb. exists res, g2. split; [done|].
      by eapply sample_sequence_rotating_keeps.
    - destruct (sample_sequence_distinct sequence_obj write_to_file chunkwise _)
        as [res g2] eqn:Hb. exists res, g2. split; [done|].
      by eapply sample_sequence_distinct_keeps. }
  destruct res as [[sampled lst]|ex]; [|by apply Hweak].
  match goal with
  | |- context [(?run).2] => destruct run as [r g'] eqn:Htail
  end.
  by eapply sequence_tail_keeps.
Qed.

(** ** The files of a sequence outside the rotating frame *)





End Further.

(** * Properties of the settings and the asset stores *)

Section Store.

Context `{Externals}.

Lemma first_digital_channel_Some cfg ch :
  first_digital_channel cfg = Some ch → ch ∈ cfg ∧ str_contains "d_ch" ch = true.
Proof.
  induction cfg as [|c cfg IH]; simpl; [done|].
  destruct (str_contains "d_ch" c) eqn:Hc.
  - intros [= <-]. split; [left|done].
  - intros [Hin ?]%IH. split; [by right|done].
Qed.

Lemma first_digital_channel_None cfg :
  first_digital_channel cfg = None → List.filter (str_contains "d_ch") cfg = [].
Proof.
  induction cfg as [|c cfg IH]; simpl; [done|].
  destruct (str_contains "d_ch" c); [done|]. exact IH.
Qed.

(** [set_settings] step by step: the laser channel it chooses, the settings
    it has replaced when it reads the formats, and its two ways to raise. *)
Lemma set_settings_unfold (config : list string) (requested : option string)
    (rate : float64) (amplitudes : gmap string float64)
    (sampling_format : string) g current blocks ns :
  set_settings config requested rate amplitudes sampling_format
    (mk_instance g current blocks ns)
  = let chosen :=
      if in_config requested config then requested
      else first_digital_channel config in
    let ns' :=
      if in_config requested config then ns
      else match first_digital_channel config with
           | None => ns ++ [log_warning_no_digital_channel]
           | Some _ => ns
           end in
    let g1 :=
      set_sample_rate rate (set_amplitude_dict amplitudes
        (set_digital_channels (length (List.filter (str_contains "d_ch") config))
          (set_analog_channels (length (List.filter (str_contains "a_ch") config))
            (set_activation_config config (set_laser_channel chosen g))))) in
    match split "/" sampling_format !! 0%nat with
    | None => (Raise IndexError, mk_instance g1 current blocks ns')
    | Some wf =>
        match split "/" sampling_format !! 1%nat with
        | None =>
            (Raise IndexError,
             mk_instance (set_waveform_format wf g1) current blocks ns')
        | Some sf =>
            (Ok (config, chosen, rate, amplitudes, sampling_format),
             mk_instance
               (set_events (events g ++ [sigSettingsUpdated])
                  (set_sequence_format sf (set_waveform_format wf g1)))
               current blocks ns')
        end
    end.
Proof.
  unfold set_settings, getindex.
  destruct (in_config requested config);
    [|destruct (first_digital_channel config)];
    (destruct (split "/" sampling_format !! 0%nat);
     [destruct (split "/" sampling_format !! 1%nat)|]); reflexivity.
Qed.


(** X9. Whatever [set_settings] is given, and even when it raises on the
    sampling format, it has stored the activation config, the amplitude dict
    and the sample rate it was given, and the numbers of channel names that
    contain [a_ch] and [d_ch] as the channel counts. The laser channel it
    has stored is one of the activation config or [None]: the one asked for
    when that is in the config; [None] only when no name of the config
    contains [d_ch], with a warning logged. *)
Theorem set_settings_channels (config : list string)
    (requested : option string) (rate : float64)
    (amplitudes : gmap string float64) (sampling_format : string)
    (s : GeneratorInstance) :
  let s' := (set_settings config requested rate amplitudes sampling_format s).2 in
  activation_config (logic s') = config
  ∧ analog_channels (logic s')
    = length (List.filter (str_contains "a_ch") config)
  ∧ digital_channels (logic s')
    = length (List.filter (str_contains "d_ch") config)
  ∧ amplitude_dict (logic s') = amplitudes
  ∧ sample_rate (logic s') = rate
  ∧ (∀ channel, laser_channel (logic s') = Some channel → channel ∈ config)
  ∧ (∀ channel, requested = Some channel → channel ∈ config →
       laser_channel (logic s') = requested ∧ notices s' = notices s)
  ∧ (laser_channel (logic s') = None →
       digital_channels (logic s') = 0%nat
       ∧ notices s' = notices s ++ [log_warning_no_digital_channel]).
Proof.
  destruct s as [g current blocks ns]. cbv zeta. rewrite set_settings_unfold.
  cbv zeta.
  set (chosen := if in_config requested config then requested
                 else first_digital_channel config).
  set (ns' := if in_config requested config then ns
              else match first_digital_channel config with
                   | None => ns ++ [log_warning_no_digital_channel]
                   | Some _ => ns
                   end).
  match goal with
  | |- context [(?run).2] =>
      assert (activation_config (logic run.2) = config
              ∧ analog_channels (logic run.2)
                = length (List.filter (str_contains "a_ch") config)
              ∧ digital_channels (logic run.2)
                = length (List.filter (str_contains "d_ch") config)
              ∧ amplitude_dict (logic run.2) = amplitudes
              ∧ sample_rate (logic run.2) = rate
              ∧ laser_channel (logic run.2) = chosen
              ∧ notices run.2 = ns') as (-> & -> & -> & -> & -> & -> & ->)
  end.
  { destruct (split "/" sampling_format !! 0%nat) as [wf|];
      [destruct (split "/" sampling_format !! 1%nat) as [sf|]|]; done. }
  subst chosen ns'. simpl. do 5 (split; [done|]).
  destruct (in_config requested config) eqn:Hin.
  - destruct requested as [lc|]; [|done]. apply bool_decide_eq_true in Hin.
    split; [by intros ch [= <-]|]. by split.
  - assert (∀ channel, requested = Some channel → channel ∈ config → False)
      as Hreq.
    { intros channel -> Hi. by apply bool_decide_eq_false in Hin. }
    destruct (first_digital_channel config) as [ch|] eqn:Hf.
    + apply first_digital_channel_Some in Hf as [Hch _].
      split; [by intros ? [= <-]|]. split; [|done].
      intros c Hc Hi. by destruct (Hreq c Hc Hi).
    + apply first_digital_channel_None in Hf.
      split; [done|]. split.
      * intros c Hc Hi. by destruct (Hreq c Hc Hi).
      * intros _. by rewrite Hf.
Qed.
(** *** The sampling format *)

Lemma str_contains_sep (c : ascii) (s : string) (sep : ascii) :
  str_contains (String sep EmptyString) (String c s) = false →
  c ≠ sep ∧ str_contains (String sep EmptyString) s = false.
Proof.
  simpl. intros [Hp Hr]%orb_false_iff. split; [|exact Hr].
  intros ->. destruct (ascii_dec sep sep); [by destruct s|done].
Qed.

Lemma split_one (sep : ascii) (s : string) :
  str_contains (String sep EmptyString) s = false → split sep s = [s].
Proof.
  induction s as [|c s IH]; [done|].
  intros [Hc Hs]%str_contains_sep. simpl.
  rewrite decide_False by done. by rewrite IH.
Qed.

Lemma split_app (sep : ascii) (a b : string) :
  str_contains (String sep EmptyString) a = false →
  split sep (a +:+ String sep b) = a :: split sep b.
Proof.
  induction a as [|c a IH]; simpl.
  - intros _. by rewrite decide_True.
  - intros Hc. apply (str_contains_sep c a sep) in Hc as [Hc Ha].
    rewrite decide_False by done. by rewrite IH.
Qed.


(** X10. A sampling format [wf/sf], with no further slash in [wf] or [sf],
    makes [set_settings] return its arguments with the laser channel it
    chose, store [wf] as the waveform format and [sf] as the sequence
    format, and emit [sigSettingsUpdated]. *)
Theorem set_settings_reads_both_formats (config : list string)
    (requested : option string) (rate : float64)
    (amplitudes : gmap string float64) (wf sf : string) (s : GeneratorInstance) :
  str_contains "/" wf = false →
  str_contains "/" sf = false →
  ∃ chosen s',
    set_settings config requested rate amplitudes (wf +:+ "/" +:+ sf) s
    = (Ok (config, chosen, rate, amplitudes, wf +:+ "/" +:+ sf), s')
    ∧ laser_channel (logic s') = chosen
    ∧ waveform_format (logic s') = wf
    ∧ sequence_format (logic s') = sf
    ∧ events (logic s') = events (logic s) ++ [sigSettingsUpdated].
Proof.
  intros Hwf Hsf. destruct s as [g current blocks ns].
  rewrite set_settings_unfold. cbv zeta.
  change (wf +:+ "/" +:+ sf) with (wf +:+ String "/" sf).
  rewrite (split_app "/" wf sf Hwf), (split_one "/" sf Hsf).
  cbn [lookup list_lookup]. by eexists _, _.
Qed.

(** X11. A sampling format without a slash makes [set_settings] raise
    [IndexError] halfway: the activation config, the amplitude dict, the
    sample rate and the waveform format have been replaced, the sequence
    format is the old one, and [sigSettingsUpdated] has not been emitted. *)
Theorem set_settings_without_separator (config : list string)
    (requested : option string) (rate : float64)
    (amplitudes : gmap string float64) (sampling_format : string)
    (s : GeneratorInstance) :
  str_contains "/" sampling_format = false →
  ∃ s',
    set_settings config requested rate amplitudes sampling_format s
    = (Raise IndexError, s')
    ∧ activation_config (logic s') = config
    ∧ amplitude_dict (logic s') = amplitudes
    ∧ sample_rate (logic s') = rate
    ∧ waveform_format (logic s') = sampling_format
    ∧ sequence_format (logic s') = sequence_format (logic s)
    ∧ events (logic s') = events (logic s).
Proof.
  intros Hf. destruct s as [g current blocks ns].
  rewrite set_settings_unfold. cbv zeta. rewrite (split_one "/" _ Hf).
  cbn [lookup list_lookup]. by eexists.
Qed.

(** *** Looking an asset up *)

Lemma key_test {A} (d : gmap string A) (name : string) :
  bool_decide (name ∈ dict_keys d) = bool_decide (is_Some (d !! name)).
Proof.
  apply bool_decide_ext. by rewrite elem_of_dict_keys, elem_of_dom.
Qed.

Lemma get_saved_asset_unfold (name : string) g current blocks ns :
  get_saved_asset name (mk_instance g current blocks ns)
  = if decide (name = "") then (Ok None, mk_instance g current blocks ns)
    else match saved_pulse_sequences g !! name with
         | Some sequence =>
             (Ok (Some (sequence_asset sequence)), mk_instance g current blocks ns)
         | None =>
             match saved_pulse_block_ensembles g !! name with
             | Some ensemble =>
                 (Ok (Some (ensemble_asset ensemble)),
                  mk_instance g current blocks ns)
             | None =>
                 (Ok None,
                  mk_instance g current blocks
                    (ns ++ [log_warning_asset_not_found name]))
             end
         end.
Proof.
  unfold get_saved_asset.
  cbv [mbind MI_bind mret MI_ret this]. cbn [logic].
  case_decide; [done|]. rewrite !key_test. unfold getitem.
  destruct (saved_pulse_sequences g !! name) as [q|] eqn:Hq.
  { rewrite bool_decide_eq_true_2 by done. reflexivity. }
  rewrite bool_decide_eq_false_2 by (by intros [? [=]]).
  destruct (saved_pulse_block_ensembles g !! name) as [e|] eqn:He.
  { rewrite bool_decide_eq_true_2 by done. reflexivity. }
  rewrite bool_decide_eq_false_2 by (by intros [? [=]]). reflexivity.
Qed.

(** X12. [get_saved_asset] never raises and changes nothing but the log. It
    returns the sequence stored under the name when there is one, even if an
    ensemble is stored under the name as well; the ensemble when there is no
    such sequence; and [None] otherwise, with a warning. For the empty name
    it returns [None] without looking and without a warning. *)
Theorem get_saved_asset_prefers_sequences (name : string) (s : GeneratorInstance) :
  ∃ found s',
    get_saved_asset name s = (Ok found, s')
    ∧ logic s' = logic s
    ∧ current_block s' = current_block s
    ∧ saved_pulse_blocks s' = saved_pulse_blocks s
    ∧ (∀ sequence, found = Some (sequence_asset sequence)
         ↔ name ≠ "" ∧ saved_pulse_sequences (logic s) !! name = Some sequence)
    ∧ (∀ ensemble, found = Some (ensemble_asset ensemble)
         ↔ name ≠ "" ∧ saved_pulse_sequences (logic s) !! name = None
           ∧ saved_pulse_block_ensembles (logic s) !! name = Some ensemble)
    ∧ notices s'
      = (if bool_decide (name ≠ "" ∧ found = None)
         then notices s ++ [log_warning_asset_not_found name]
         else notices s).
Proof.
  destruct s as [g current blocks ns]. rewrite get_saved_asset_unfold.
  cbn [logic current_block saved_pulse_blocks notices].
  destruct (decide (name = "")) as [->|Hn];
    [|destruct (saved_pulse_sequences g !! name) as [q|] eqn:Hq;
      [|destruct (saved_pulse_block_ensembles g !! name) as [e|] eqn:He]].
  all: eexists _, _; split; [reflexivity|];
       cbn [logic current_block saved_pulse_blocks notices];
       do 3 (split; [done|]);
       do 2 (split; [intros x; split; intros Hx; destruct_and?; by simplify_eq|]).
  all: case_bool_decide as Hb; first [done|by destruct Hb].
Qed.

(** *** The stores *)

Lemma save_ensemble_unfold name ensemble g current blocks ns :
  save_ensemble name ensemble (mk_instance g current blocks ns)
  = (Ok (),
     mk_instance
       (set_events (events g ++ [sigCurrentEnsembleUpdated])
          (set_saved_pulse_block_ensembles
             (<[name := rename_ensemble name ensemble]>
                (saved_pulse_block_ensembles g))
             (set_current_ensemble (Some (rename_ensemble name ensemble)) g)))
       current blocks (ns ++ [sigEnsembleDictUpdated])).
Proof. reflexivity. Qed.

Lemma delete_ensemble_unfold name g current blocks ns :
  delete_ensemble name (mk_instance g current blocks ns)
  = match saved_pulse_block_ensembles g !! name with
    | None =>
        (Ok (), mk_instance g current blocks
                  (ns ++ [log_warning_ensemble_not_found name]))
    | Some _ =>
        let g1 := set_saved_pulse_block_ensembles
                    (delete name (saved_pulse_block_ensembles g)) g in
        let g2 :=
          match current_ensemble g with
          | Some asset =>
              if decide (ens_name asset = name)
              then set_events (events g ++ [sigCurrentEnsembleUpdated])
                     (set_current_ensemble None g1)
              else g1
          | None => g1
          end in
        (Ok (), mk_instance g2 current blocks (ns ++ [sigEnsembleDictUpdated]))
    end.
Proof.
  unfold delete_ensemble. cbv [mbind MI_bind mret MI_ret this]. cbn [logic].
  rewrite key_test.
  destruct (saved_pulse_block_ensembles g !! name) as [e|].
  2: { by rewrite bool_decide_eq_false_2 by (by intros [? [=]]). }
  rewrite bool_decide_eq_true_2 by done. cbv zeta.
  destruct (current_ensemble g) as [asset|]; [case_decide|]; reflexivity.
Qed.

Lemma delete_sequence_unfold name g current blocks ns :
  delete_sequence name (mk_instance g current blocks ns)
  = match saved_pulse_sequences g !! name with
    | None =>
        (Ok (), mk_instance g current blocks
                  (ns ++ [log_warning_ensemble_not_found name]))
    | Some _ =>
        let g1 := set_saved_pulse_sequences
                    (delete name (saved_pulse_sequences g)) g in
        let g2 :=
          match current_sequence g with
          | Some asset =>
              if decide (seq_name asset = name)
              then set_events (events g ++ [sigCurrentSequenceUpdated])
                     (set_current_sequence None g1)
              else g1
          | None => g1
          end in
        (Ok (),
         mk_instance (set_events (events g2 ++ [sigSequenceDictUpdated]) g2)
           current blocks ns)
    end.
Proof.
  unfold delete_sequence. cbv [mbind MI_bind mret MI_ret this]. cbn [logic].
  rewrite key_test.
  destruct (saved_pulse_sequences g !! name) as [e|].
  2: { by rewrite bool_decide_eq_false_2 by (by intros [? [=]]). }
  rewrite bool_decide_eq_true_2 by done. cbv zeta.
  destruct (current_sequence g) as [asset|]; [case_decide|]; reflexivity.
Qed.

Lemma delete_block_unfold name g current blocks ns :
  delete_block name (mk_instance g current blocks ns)
  = match blocks !! name with
    | None =>
        (Ok (), mk_instance g current blocks
                  (ns ++ [log_warning_block_not_found name]))
    | Some _ =>
        match current with
        | Some asset =>
            if decide (block_name asset = name)
            then (Ok (), mk_instance g None (delete name blocks)
                           (ns ++ [sigCurrentBlockUpdated; sigBlockDictUpdated]))
            else (Ok (), mk_instance g current (delete name blocks)
                           (ns ++ [sigBlockDictUpdated]))
        | None =>
            (Ok (), mk_instance g current (delete name blocks)
                      (ns ++ [sigBlockDictUpdated]))
        end
    end.
Proof.
  unfold delete_block. cbv [mbind MI_bind mret MI_ret this].
  cbn [saved_pulse_blocks current_block]. rewrite key_test.
  destruct (blocks !! name) as [b|].
  2: { by rewrite bool_decide_eq_false_2 by (by intros [? [=]]). }
  rewrite bool_decide_eq_true_2 by done.
  destruct current as [asset|]; [case_decide|]; try reflexivity.
  cbv [assign_saved_pulse_blocks assign_current_block note]. simpl.
  by rewrite <- app_assoc.
Qed.


(** X14. [delete_ensemble] of a stored name removes that key and no other,
    leaves the sequences as they are, those that refer to the ensemble
    included, and resets the pointer to the current ensemble when that
    ensemble bears the deleted name. Afterwards [load_ensemble] of the name
    only logs its failure and [sample_pulse_block_ensemble] of the name
    raises [KeyError]. *)
Theorem deleted_ensemble_is_gone (name : string) (ensemble : PulseBlockEnsemble)
    (s : GeneratorInstance) :
  saved_pulse_block_ensembles (logic s) !! name = Some ensemble →
  ∃ s',
    delete_ensemble name s = (Ok (), s')
    ∧ saved_pulse_block_ensembles (logic s')
      = delete name (saved_pulse_block_ensembles (logic s))
    ∧ saved_pulse_sequences (logic s') = saved_pulse_sequences (logic s)
    ∧ current_ensemble (logic s')
      = pointer_after_delete ens_name name (current_ensemble (logic s))
    ∧ load_ensemble name (logic s')
      = (Ok (), set_events (events (logic s') ++ [log_error_load_failed name])
                  (logic s'))
    ∧ ∀ w c off tag,
        (sample_pulse_block_ensemble name w c off tag (logic s')).1
        = Raise KeyError.
Proof.
  destruct s as [g current blocks ns]. cbn [logic]. intros Hs.
  rewrite delete_ensemble_unfold, Hs. cbv zeta. eexists. split; [reflexivity|].
  cbn [logic]. unfold pointer_after_delete.
  assert (∀ g2, saved_pulse_block_ensembles g2
                = delete name (saved_pulse_block_ensembles g) →
    load_ensemble name g2
    = (Ok (), set_events (events g2 ++ [log_error_load_failed name]) g2)
    ∧ ∀ w c off tag,
        (sample_pulse_block_ensemble name w c off tag g2).1 = Raise KeyError)
    as Hgone.
  { intros g2 Hg2. split.
    - unfold load_ensemble. cbv [mbind M_bind get]. by rewrite Hg2, lookup_delete_eq.
    - intros w c off tag. rewrite sample_pulse_block_ensemble_unfold.
      by rewrite Hg2, lookup_delete_eq. }
  destruct (current_ensemble g) as [asset|] eqn:Hcur; [case_decide|];
    (split; [done|]); (split; [done|]); (split; [by cbn; rewrite ?Hcur|]);
    by apply Hgone.
Qed.

(** X15. [delete_sequence] of a stored name removes that key and no other,
    leaves the ensembles and the lock as they are, and resets the pointer to
    the current sequence when that sequence bears the deleted name.
    Afterwards [load_sequence] of the name only logs its failure, and
    [sample_pulse_sequence] of the name on an idle module raises [KeyError]
    and leaves the module locked. *)
Theorem deleted_sequence_is_gone (name : string) (sequence : PulseSequence)
    (s : GeneratorInstance) :
  saved_pulse_sequences (logic s) !! name = Some sequence →
  ∃ s',
    delete_sequence name s = (Ok (), s')
    ∧ saved_pulse_sequences (logic s')
      = delete name (saved_pulse_sequences (logic s))
    ∧ saved_pulse_block_ensembles (logic s')
      = saved_pulse_block_ensembles (logic s)
    ∧ current_sequence (logic s')
      = pointer_after_delete seq_name name (current_sequence (logic s))
    ∧ module_state (logic s') = module_state (logic s)
    ∧ load_sequence name (logic s')
      = (Ok (), set_events (events (logic s') ++ [log_error_load_failed name])
                  (logic s'))
    ∧ (module_state (logic s) = idle →
       ∀ w c, ∃ g', sample_pulse_sequence name w c (logic s') = (Raise KeyError, g')
                    ∧ module_state g' = locked).
Proof.
  destruct s as [g current blocks ns]. cbn [logic]. intros Hs.
  rewrite delete_sequence_unfold, Hs. cbv zeta. eexists. split; [reflexivity|].
  cbn [logic]. unfold pointer_after_delete.
  assert (∀ g2, saved_pulse_sequences g2 = delete name (saved_pulse_sequences g) →
                module_state g2 = module_state g →
    load_sequence name g2
    = (Ok (), set_events (events g2 ++ [log_error_load_failed name]) g2)
    ∧ (module_state g = idle →
       ∀ w c, ∃ g', sample_pulse_sequence name w c g2 = (Raise KeyError, g')
                    ∧ module_state g' = locked))
    as Hgone.
  { intros g2 Hg2 Hst. split.
    - unfold load_sequence. cbv [mbind M_bind get]. by rewrite Hg2, lookup_delete_eq.
    - intros Hidle w c. rewrite sample_pulse_sequence_unfold by congruence.
      rewrite Hg2, lookup_delete_eq. eexists. split; [done|].
      apply sequence_entered_quiet. }
  destruct (current_sequence g) as [asset|] eqn:Hcur; [case_decide|];
    (split; [done|]); (split; [done|]); (split; [by cbn; rewrite ?Hcur|]);
    (split; [done|]); by apply Hgone.
Qed.

(** X16. [save_ensemble] followed by [delete_ensemble] of the same name
    leaves the store without that key, whether it held the key before or
    not, with the other keys it had, and no current ensemble; the sequences
    keep their keys. For an ensemble that bears the name already, the other
    entries of the store and the sequences are left as they are. *)
Theorem delete_undoes_save (name : string) (ensemble : PulseBlockEnsemble)
    (s : GeneratorInstance) :
  ∃ s',
    (save_ensemble name ensemble;; delete_ensemble name) s = (Ok (), s')
    ∧ saved_pulse_block_ensembles (logic s') !! name = None
    ∧ dom (saved_pulse_block_ensembles (logic s'))
      = dom (saved_pulse_block_ensembles (logic s)) ∖ {[name]}
    ∧ current_ensemble (logic s') = None
    ∧ dom (saved_pulse_sequences (logic s')) = dom (saved_pulse_sequences (logic s))
    ∧ (ens_name ensemble = name →
       saved_pulse_block_ensembles (logic s')
       = delete name (saved_pulse_block_ensembles (logic s))
       ∧ saved_pulse_sequences (logic s') = saved_pulse_sequences (logic s)).
Proof.
  destruct s as [g current blocks ns]. cbv [mbind MI_bind].
  rewrite save_ensemble_unfold, delete_ensemble_unfold. cbn [logic].
  cbn [saved_pulse_block_ensembles set_events set_saved_pulse_block_ensembles
       set_current_ensemble current_ensemble].
  rewrite lookup_insert_eq. cbv zeta. cbn [ens_name rename_ensemble].
  rewrite decide_True by done. eexists. split; [reflexivity|]. cbn.
  rewrite delete_insert_eq.
  split; [apply lookup_delete_eq|]. split; [apply dom_delete_L|]. by repeat split.
Qed.

(** *** Blocks *)

Lemma save_block_unfold name block g current blocks ns :
  save_block name block (mk_instance g current blocks ns)
  = (Ok (),
     mk_instance g (Some (rename_block name block))
       (<[name := rename_block name block]> blocks)
       (ns ++ [sigBlockDictUpdated; sigCurrentBlockUpdated])).
Proof.
  unfold save_block. cbv [mbind MI_bind this assign_current_block
    assign_saved_pulse_blocks note]. simpl. by rewrite <- app_assoc.
Qed.

Lemma load_block_unfold name g current blocks ns :
  load_block name (mk_instance g current blocks ns)
  = match blocks !! name with
    | None =>
        (Ok (), mk_instance (set_events (events g ++ [log_error_load_failed name]) g)
                  current blocks ns)
    | Some block =>
        (Ok (), mk_instance g (Some block) blocks (ns ++ [sigCurrentBlockUpdated]))
    end.
Proof.
  unfold load_block. cbv [mbind MI_bind this]. cbn [saved_pulse_blocks].
  by destruct (blocks !! name).
Qed.

(** X17. A block that has been saved is loaded back: after [save_block],
    [load_block] of the same name makes the saved block, with its [name]
    attribute set to the key, the current block; the store has that key
    and the keys it had. After [save_block] and [delete_block] of the name,
    [load_block] logs its failure, there is no current block and the store
    is without the key. For a block that bears the name already, the other
    entries of the store and the other attributes of the instance are left
    as they are. *)
Theorem block_store_round_trip (name : string) (block : PulseBlock)
    (s : GeneratorInstance) :
  (∃ s',
     (save_block name block;; load_block name) s = (Ok (), s')
     ∧ current_block s' = Some (rename_block name block)
     ∧ saved_pulse_blocks s' !! name = Some (rename_block name block)
     ∧ dom (saved_pulse_blocks s') = {[name]} ∪ dom (saved_pulse_blocks s)
     ∧ events (logic s') = events (logic s)
     ∧ (block_name block = name →
        saved_pulse_blocks s' = <[name := block]> (saved_pulse_blocks s)
        ∧ logic s' = logic s))
  ∧ (∃ s',
       (save_block name block;; delete_block name;; load_block name) s
       = (Ok (), s')
       ∧ current_block s' = None
       ∧ saved_pulse_blocks s' !! name = None
       ∧ dom (saved_pulse_blocks s') = dom (saved_pulse_blocks s) ∖ {[name]}
       ∧ events (logic s') = events (logic s) ++ [log_error_load_failed name]
       ∧ (block_name block = name →
          saved_pulse_blocks s' = delete name (saved_pulse_blocks s)
          ∧ logic s'
            = set_events (events (logic s) ++ [log_error_load_failed name])
                (logic s))).
Proof.
  destruct s as [g current blocks ns]. split.
  - cbv [mbind MI_bind]. rewrite save_block_unfold, load_block_unfold.
    rewrite lookup_insert_eq. eexists. split; [reflexivity|].
    cbn [current_block saved_pulse_blocks logic].
    split; [done|]. split; [apply lookup_insert_eq|].
    split; [apply dom_insert_L|]. split; [done|].
    intros <-. split; [|done]. by destruct block.
  - cbv [mbind MI_bind]. rewrite save_block_unfold, delete_block_unfold.
    rewrite lookup_insert_eq. cbn [block_name rename_block].
    rewrite decide_True by done. rewrite load_block_unfold, lookup_delete_eq.
    eexists. split; [reflexivity|]. cbn [current_block saved_pulse_blocks logic].
    rewrite delete_insert_eq.
    split; [done|]. split; [apply lookup_delete_eq|].
    split; [apply dom_delete_L|]. by repeat split.
Qed.

(** X18. [delete_block] of a stored name removes that key and no other,
    resets the pointer to the current block when that block bears the
    deleted name, and leaves the other attributes alone. Afterwards
    [load_block] of the name only logs its failure. *)
Theorem deleted_block_is_gone (name : string) (block : PulseBlock)
    (s : GeneratorInstance) :
  saved_pulse_blocks s !! name = Some block →
  ∃ s',
    delete_block name s = (Ok (), s')
    ∧ saved_pulse_blocks s' = delete name (saved_pulse_blocks s)
    ∧ current_block s' = pointer_after_delete block_name name (current_block s)
    ∧ logic s' = logic s
    ∧ load_block name s'
      = (Ok (), mk_instance
                  (set_events (events (logic s) ++ [log_error_load_failed name])
                     (logic s))
                  (current_block s') (saved_pulse_blocks s') (notices s')).
Proof.
  destruct s as [g current blocks ns]. cbn [saved_pulse_blocks]. intros Hs.
  rewrite delete_block_unfold, Hs. unfold pointer_after_delete.
  destruct current as [asset|]; [case_decide|];
    (eexists; split; [reflexivity|]);
    cbn [current_block saved_pulse_blocks logic notices];
    rewrite load_block_unfold, lookup_delete_eq;
    rewrite ?decide_True, ?decide_False by done; done.
Qed.

(** *** Saving, then loading *)

(** X19. An ensemble or a sequence that has been saved under a name is
    loaded back by the name: it becomes the current ensemble or sequence,
    with its [name] attribute set to the key, and the generator takes the
    sample rate, the amplitude dict, the activation config and the laser
    channel stored with it, each where it is not [None]. *)
Theorem saved_assets_load_back (name : string) (ensemble : PulseBlockEnsemble)
    (sequence : PulseSequence) (s : GeneratorInstance) :
  (∃ s',
     (save_ensemble name ensemble;; on_logic (load_ensemble name)) s = (Ok (), s')
     ∧ current_ensemble (logic s') = Some (rename_ensemble name ensemble)
     ∧ sample_rate (logic s')
       = default (sample_rate (logic s)) (ens_sample_rate ensemble)
     ∧ amplitude_dict (logic s')
       = default (amplitude_dict (logic s)) (ens_amplitude_dict ensemble)
     ∧ activation_config (logic s')
       = default (activation_config (logic s)) (ens_activation_config ensemble)
     ∧ laser_channel (logic s')
       = from_option Some (laser_channel (logic s)) (ens_laser_channel ensemble))
  ∧ (∃ g',
       (save_sequence name sequence;; load_sequence name) (logic s) = (Ok (), g')
       ∧ current_sequence g' = Some (rename_sequence name sequence)
       ∧ saved_pulse_sequences g' !! name = Some (rename_sequence name sequence)
       ∧ sample_rate g' = default (sample_rate (logic s)) (seq_sample_rate sequence)
       ∧ amplitude_dict g'
         = default (amplitude_dict (logic s)) (seq_amplitude_dict sequence)
       ∧ activation_config g'
         = default (activation_config (logic s)) (seq_activation_config sequence)
       ∧ laser_channel g'
         = from_option Some (laser_channel (logic s)) (seq_laser_channel sequence)).
Proof.
  destruct s as [g current blocks ns]. cbn [logic]. split.
  - cbv [mbind MI_bind]. rewrite save_ensemble_unfold. unfold on_logic. cbn [logic].
    unfold load_ensemble at 1. cbv [mbind M_bind get]. cbn [saved_pulse_block_ensembles
      set_events set_saved_pulse_block_ensembles set_current_ensemble].
    rewrite lookup_insert_eq.
    destruct ensemble as [n bl a d [sr|] [ad|] [cfg|] [lc|] rf]; simpl;
      eexists; (split; [reflexivity|]); simpl; done.
  - unfold save_sequence. cbv [mbind M_bind get modify emit mret M_ret].
    unfold load_sequence at 1. cbv [mbind M_bind get].
    cbn [saved_pulse_sequences set_events set_saved_pulse_sequences
         set_current_sequence].
    rewrite lookup_insert_eq.
    destruct sequence as [n epl dd rf se [sr|] [ad|] [cfg|] [lc|]]; simpl;
      eexists; (split; [reflexivity|]); simpl;
      (split; [done|]); (split; [apply lookup_insert_eq|done]).
Qed.

(** *** What loading leaves alone *)

(** X20. [load_ensemble] and [load_sequence] never raise, and they leave the
    lock, the stores, the file directories, the formats and the channel
    counts as they are: [analog_channels] and [digital_channels] are not
    counted again from an activation config that has been loaded. For a name
    that is not stored they change nothing but the log. *)
Theorem loading_keeps_channel_counts (name : string) (g : SequenceGeneratorLogic) :
  ((load_ensemble name g).1 = Ok ()
   ∧ same_channels_and_stores g (load_ensemble name g).2
   ∧ current_sequence (load_ensemble name g).2 = current_sequence g
   ∧ (saved_pulse_block_ensembles g !! name = None →
      (load_ensemble name g).2
      = set_events (events g ++ [log_error_load_failed name]) g))
  ∧ ((load_sequence name g).1 = Ok ()
     ∧ same_channels_and_stores g (load_sequence name g).2
     ∧ current_ensemble (load_sequence name g).2 = current_ensemble g
     ∧ (saved_pulse_sequences g !! name = None →
        (load_sequence name g).2
        = set_events (events g ++ [log_error_load_failed name]) g)).
Proof.
  unfold same_channels_and_stores. split.
  - unfold load_ensemble, set_if_not_None. cbv [mbind M_bind get].
    destruct (saved_pulse_block_ensembles g !! name) as [ensemble|]; [|done].
    by destruct ensemble as [n bl a d [sr|] [ad|] [cfg|] [lc|] rf].
  - unfold load_sequence, set_if_not_None. cbv [mbind M_bind get].
    destruct (saved_pulse_sequences g !! name) as [sequence|]; [|done].
    by destruct sequence as [n epl dd rf se [sr|] [ad|] [cfg|] [lc|]].
Qed.

End Store.

(** * The further properties on the concrete instances *)

Module FurtherConcrete.

Import Example Scenario.
#[local] Existing Instance externals.


(** Sampling the ensemble "LL" as a whole raises: the wrapped total is
    negative, and [np.empty] refuses it. *)
Lemma monolithic_sampling_beyond_the_bound_raises :
  (sample_pulse_block_ensemble "LL" true false 0 "" logic2).1 = Raise ValueError.
Proof. vm_compute; reflexivity. Qed.

Lemma ensemble_sampling_lock_and_completion_witness :
  ∃ evs,
    events chunked_E.2 = events logic0 ++ evs
    ∧ (module_state chunked_E.2 = idle →
       ∃ evs', evs = evs' ++ [sigSampleEnsembleComplete "E"]
               ∧ ∀ n, sigSampleEnsembleComplete n ∉ evs')
    ∧ (module_state chunked_E.2 = locked →
       ∀ n, sigSampleEnsembleComplete n ∉ evs)
    ∧ (∀ e, chunked_E.1 = Raise e → e ≠ UnboundLocalError →
         module_state chunked_E.2 = locked).
Proof.
  apply (ensemble_sampling_lock_and_completion logic0 "E" true true 10 ""
           chunked_E.1 chunked_E.2); [reflexivity|apply surjective_pairing].
Defined.

Lemma failed_sequence_sampling_keeps_the_lock_witness :
  module_state sampled_D.2 = locked
  ∧ ∀ name w c,
      sample_pulse_sequence name w c sampled_D.2
      = (Ok (), set_events (events sampled_D.2 ++ [log_error_busy name])
                  sampled_D.2).
Proof.
  apply (failed_sequence_sampling_keeps_the_lock logic1 "D" true true KeyError
           sampled_D.2); [reflexivity|apply run_eq; vm_compute; reflexivity].
Defined.

Lemma rotating_sequence_threads_the_offset_witness :
  ∃ calls,
    sampling_calls sampled_R.2 = sampling_calls logic1 ++ calls
    ∧ calls `prefix_of` rotating_calls logic1 (ensemble_param_list sequence_R) 0 0
    ∧ (sampled_R.1 = Ok () →
       calls = rotating_calls logic1 (ensemble_param_list sequence_R) 0 0
       ∧ ∃ earlier descriptors,
           writer_calls sampled_R.2
           = earlier ++
             [write_sequence (sequence_format sampled_R.2) "R" descriptors]
           ∧ length descriptors = length (ensemble_param_list sequence_R)).
Proof.
  apply (rotating_sequence_threads_the_offset logic1 "R" true true sequence_R
           sampled_R.1 sampled_R.2);
    [reflexivity|reflexivity|reflexivity|apply surjective_pairing].
Defined.

Lemma sampled_sequence_found_every_ensemble_witness :
  Forall (λ '(ensemble_obj, _),
            is_Some (saved_pulse_block_ensembles logic1 !! ens_name ensemble_obj))
    (ensemble_param_list sequence_R).
Proof.
  apply (sampled_sequence_found_every_ensemble logic1 "R" true true sequence_R
           sampled_R.2);
    [reflexivity|reflexivity|apply run_eq; vm_compute; reflexivity].
Defined.

Lemma chunked_run_flags_first_and_last_witness :
  ∃ chunks,
    length chunks = total_elements ensemble_E
    ∧ writer_calls chunked_E.2
      = writer_calls logic0 ++
        imap (λ j '(analog_samples, digital_samples),
                write_waveform (waveform_format logic0)
                  (ens_name ensemble_E +:+ "") analog_samples digital_samples
                  (np_sum (state_lengths (sample_rate logic0) ensemble_E))
                  (bool_decide (j = 0%nat))
                  (bool_decide (S j = total_elements ensemble_E)))
          chunks.
Proof.
  apply (chunked_run_flags_first_and_last logic0 "E" 10 "" ensemble_E
           (py_empty_list, py_empty_list, ["E_ch1.wfmx"], 21) chunked_E.2);
    [reflexivity|reflexivity|reflexivity|apply run_eq; vm_compute; reflexivity].
Defined.

Lemma set_settings_reads_both_formats_witness :
  ∃ chosen s',
    set_settings ["a_ch1"; "d_ch2"; "d_ch1"] (Some "d_ch7") (sample_rate logic0) ∅
      ("wfm" +:+ "/" +:+ "seq") instance0
    = (Ok (["a_ch1"; "d_ch2"; "d_ch1"], chosen, sample_rate logic0, ∅,
           "wfm" +:+ "/" +:+ "seq"), s')
    ∧ laser_channel (logic s') = chosen
    ∧ waveform_format (logic s') = "wfm"
    ∧ sequence_format (logic s') = "seq"
    ∧ events (logic s') = events (logic instance0) ++ [sigSettingsUpdated].
Proof.
  apply (set_settings_reads_both_formats ["a_ch1"; "d_ch2"; "d_ch1"]
           (Some "d_ch7") (sample_rate logic0) ∅ "wfm" "seq" instance0); reflexivity.
Defined.

Lemma set_settings_without_separator_witness :
  ∃ s',
    set_settings ["a_ch1"] None (sample_rate logic0) ∅ "wfm" instance0 = (Raise IndexError, s')
    ∧ activation_config (logic s') = ["a_ch1"]
    ∧ amplitude_dict (logic s') = ∅
    ∧ sample_rate (logic s') = sample_rate logic0
    ∧ waveform_format (logic s') = "wfm"
    ∧ sequence_format (logic s') = sequence_format (logic instance0)
    ∧ events (logic s') = events (logic instance0).
Proof.
  apply (set_settings_without_separator ["a_ch1"] None (sample_rate logic0) ∅ "wfm"
           instance0);
    reflexivity.
Defined.

Lemma deleted_ensemble_is_gone_witness :
  ∃ s',
    delete_ensemble "E" instance0 = (Ok (), s')
    ∧ saved_pulse_block_ensembles (logic s')
      = delete "E" (saved_pulse_block_ensembles (logic instance0))
    ∧ saved_pulse_sequences (logic s') = saved_pulse_sequences (logic instance0)
    ∧ current_ensemble (logic s')
      = pointer_after_delete ens_name "E" (current_ensemble (logic instance0))
    ∧ load_ensemble "E" (logic s')
      = (Ok (), set_events (events (logic s') ++ [log_error_load_failed "E"])
                  (logic s'))
    ∧ ∀ w c off tag,
        (sample_pulse_block_ensemble "E" w c off tag (logic s')).1
        = Raise KeyError.
Proof.
  apply (deleted_ensemble_is_gone "E" ensemble_E instance0). reflexivity.
Defined.

Lemma deleted_sequence_is_gone_witness :
  ∃ s',
    delete_sequence "R" instance0 = (Ok (), s')
    ∧ saved_pulse_sequences (logic s')
      = delete "R" (saved_pulse_sequences (logic instance0))
    ∧ saved_pulse_block_ensembles (logic s')
      = saved_pulse_block_ensembles (logic instance0)
    ∧ current_sequence (logic s')
      = pointer_after_delete seq_name "R" (current_sequence (logic instance0))
    ∧ module_state (logic s') = module_state (logic instance0)
    ∧ load_sequence "R" (logic s')
      = (Ok (), set_events (events (logic s') ++ [log_error_load_failed "R"])
                  (logic s'))
    ∧ (module_state (logic instance0) = idle →
       ∀ w c, ∃ g', sample_pulse_sequence "R" w c (logic s') = (Raise KeyError, g')
                    ∧ module_state g' = locked).
Proof.
  apply (deleted_sequence_is_gone "R" sequence_R instance0). reflexivity.
Defined.

Lemma deleted_block_is_gone_witness :
  ∃ s',
    delete_block "B" instance0 = (Ok (), s')
    ∧ saved_pulse_blocks s' = delete "B" (saved_pulse_blocks instance0)
    ∧ current_block s'
      = pointer_after_delete block_name "B" (current_block instance0)
    ∧ logic s' = logic instance0
    ∧ load_block "B" s'
      = (Ok (), mk_instance
                  (set_events
                     (events (logic instance0) ++ [log_error_load_failed "B"])
                     (logic instance0))
                  (current_block s') (saved_pulse_blocks s') (notices s')).
Proof.
  apply (deleted_block_is_gone "B" block_B instance0). reflexivity.
Defined.

End FurtherConcrete.
